(** * abc template engine: downloader metadata, string replacement,
      manifest writing and golden-test verification

    A shallow embedding of the Go sources

    - [templates/common/templatesource] (local source parser and downloader),
    - [templates/common/render/action_stringreplace.go],
    - [templates/common/render/manifest_test.go] (the manifest writer's tests),
    - [templates/model/goldentest/v1alpha1/goldentest.go],
    - [templates/commands/goldentest/verify.go] and the test cases and test
      directories of the same package,
    - [templates/commands/render/render.go] (the check of the destination),
    - [templates/testutil/fs.go] (the minimal git repository),

    followed by the properties proved about them.  Part I holds the
    definitions, Part II the lemmas and theorems. *)

From Stdlib Require Import ZArith Lia Ascii.
From stdpp Require Import base option list strings gmap sorting.

Local Open Scope Z_scope.
#[local] Set Warnings "-clear-no-such-hyp".

(* ===================================================================== *)
(** * Part I: definitions *)
(* ===================================================================== *)

(** ** Go errors and fallible results *)

(** A position in a YAML file ([model.ConfigPos]). *)
Record ConfigPos := mkPos { Line : Z; Column : Z }.

(** Go [error] values.  A nil error is [None : option error]. *)
#[warnings="-register-all"]
Inductive error : Type :=
| ErrNotExist                           (* fs.ErrNotExist (ENOENT) *)
| ErrInvalid                            (* fs.ErrInvalid *)
| ErrIsDir                              (* EISDIR: read of a directory *)
| ErrNotDir                             (* ENOTDIR: a path component is a file *)
| ErrPermission                         (* EACCES *)
| ErrNew (msg : string)                 (* errors.New, fmt.Errorf without %w *)
| ErrRequired (pos : ConfigPos) (field : string)
                                        (* pos.Errorf("field %q is required") *)
| ErrWrap (msg : string) (e : error)    (* fmt.Errorf("msg: %w", e) *)
| ErrJoin (es : list error).            (* the value built by errors.Join *)

(** [errors.Is(err, fs.ErrNotExist)]: looks through wrapping and joins. *)
Fixpoint is_ErrNotExist (e : error) : bool :=
  match e with
  | ErrNotExist => true
  | ErrWrap _ e' => is_ErrNotExist e'
  | ErrJoin es => existsb is_ErrNotExist es
  | _ => false
  end.

(** [errors.Is(err, fs.ErrInvalid)]. *)
Fixpoint is_ErrInvalid (e : error) : bool :=
  match e with
  | ErrInvalid => true
  | ErrWrap _ e' => is_ErrInvalid e'
  | ErrJoin es => existsb is_ErrInvalid es
  | _ => false
  end.

(** [errors.Join(errs...)]: nil when every argument is nil, otherwise an
    error wrapping the non-nil arguments in order. *)
Definition errors_Join (errs : list (option error)) : option error :=
  match omap id errs with
  | [] => None
  | es => Some (ErrJoin es)
  end.

(** The leaf errors an error value carries, left to right: what a user sees
    when the error is printed (a join prints its members one per line). *)
Fixpoint leaves (e : error) : list error :=
  match e with
  | ErrWrap _ e' => leaves e'
  | ErrJoin es => flat_map leaves es
  | _ => [e]
  end.

Definition leaves_opt (e : option error) : list error :=
  match e with Some e => leaves e | None => [] end.

(** The result of a Go function returning [(T, error)]. *)
Inductive result (A : Type) : Type :=
| Ok (a : A)
| Err (e : error).
Arguments Ok {A} a.
Arguments Err {A} e.

#[global] Instance result_ret : MRet result := fun A a => Ok a.

#[global] Instance result_bind : MBind result := fun A B k r =>
  match r with
  | Ok a => k a
  | Err e => Err e
  end.

#[global] Instance result_fmap : FMap result := fun A B f r =>
  match r with
  | Ok a => Ok (f a)
  | Err e => Err e
  end.

Definition is_Ok {A} (r : result A) : bool :=
  match r with Ok _ => true | Err _ => false end.

(** ** Strings *)

Definition slash : ascii := "/"%char.

(** [strings.Split(s, "/")]: the fields between separators (one more than
    the number of separators). *)
Fixpoint split_slash (s : string) : list string :=
  match s with
  | "" => [""]
  | String c s' =>
      if Ascii.eqb c slash then "" :: split_slash s'
      else match split_slash s' with
           | [] => [String c ""]
           | w :: ws => String c w :: ws
           end
  end.

(** [strings.Join(elems, "/")]. *)
Definition join_slash (elems : list string) : string := String.concat "/" elems.

(** [strings.HasPrefix(s, p)]. *)
Definition HasPrefix (s p : string) : bool := String.prefix p s.

(** [strings.TrimSuffix(s, suffix)]. *)
Definition TrimSuffix (s suffix : string) : string :=
  let n := String.length s in
  let k := String.length suffix in
  if (k <=? n)%nat && String.eqb (String.substring (n - k) k s) suffix
  then String.substring 0 (n - k) s
  else s.

(** [s == ""]. *)
Definition is_empty (s : string) : bool := String.eqb s "".

(** The double quote and the line feed. *)
Definition dquote : string := String (ascii_of_nat 34) "".
Definition newline : string := String (ascii_of_nat 10) "".

(** ** Package [common]: reserved names *)

Module common.

(** Modelled from the spec: the constant [common.ABCInternalDir] is not
    among the sources; section 6 reserves [.abc] at the top of the
    destination. *)
Definition ABCInternalDir : string := ".abc".

(** Modelled from the spec: the constant [common.ABCInternalStdout] is not
    among the sources; the recorded printed output is [.abc/stdout]. *)
Definition ABCInternalStdout : string := "stdout".

(** Modelled from the spec: [common.IsReservedInDest], which is not among
    the sources.  Anything under a top-level [.abc] directory of the
    destination is reserved (section 6): the first element of the path is
    [.abc]. *)
Definition IsReservedInDest (relPath : string) : bool :=
  match split_slash relPath with
  | first :: _ => String.eqb first ABCInternalDir
  | [] => false
  end.

(** Modelled from the spec: the header line of generated files
    ([common.DoNotModifyHeader], not among the sources), as the tests of
    the manifest writer expect it. *)
Definition DoNotModifyHeader : string :=
  "# Generated by the " +:+ dquote +:+ "abc templates" +:+ dquote +:+
  " command. Do not modify." +:+ newline.

End common.

(** ** Go's [path/filepath] *)

Module filepath.

(** The operations of [path/filepath] the program calls.  They belong to
    the Go standard library, so the program is embedded over this
    interface; [Lawful] states the part of their documented contract the
    proofs rely on, and [unix] below is a reference instance. *)
Class Ops := {
  IsAbs : string → bool;
  Join : list string → string;
  Rel : string → string → result string;
  ToSlash : string → string }.

(** [Rel] answers ["."] for equal paths and otherwise a path built from
    [".."] and the remaining elements of the target: never the empty string.
    [ToSlash] only replaces separator characters. *)
Class Lawful (ops : Ops) : Prop := {
  Rel_nonempty : ∀ base targ out, Rel base targ = Ok out → out ≠ "";
  ToSlash_nonempty : ∀ s, s ≠ "" → ToSlash s ≠ "" }.

(** *** Reference instance: Unix paths *)

(** One element of [Clean]'s scan; [stack] holds the elements kept so far,
    innermost first. *)
Definition clean_step (rooted : bool) (stack : list string) (c : string)
  : list string :=
  if is_empty c || String.eqb c "." then stack
  else if String.eqb c ".." then
    match stack with
    | top :: rest => if String.eqb top ".." then c :: stack else rest
    | [] => if rooted then [] else [c]
    end
  else c :: stack.

(** The elements of the cleaned path, outermost first. *)
Definition clean_elems (p : string) : list string :=
  rev (fold_left (clean_step (HasPrefix p "/")) (split_slash p) []).

Definition render (rooted : bool) (elems : list string) : string :=
  let s := (if rooted then "/" else "") +:+ join_slash elems in
  if is_empty s then "." else s.

(** [filepath.Clean]. *)
Definition unix_Clean (p : string) : string :=
  render (HasPrefix p "/") (clean_elems p).

(** [filepath.IsAbs]. *)
Definition unix_IsAbs (p : string) : bool := HasPrefix p "/".

(** [filepath.Join]: empty elements are ignored, the result is cleaned, and
    joining nothing gives the empty string. *)
Definition unix_Join (elems : list string) : string :=
  match filter (λ e, e ≠ "") elems with
  | [] => ""
  | es => unix_Clean (join_slash es)
  end.

(** Drops the longest common prefix of two element lists. *)
Fixpoint strip_common (bs ts : list string) : list string * list string :=
  match bs, ts with
  | b :: bs', t :: ts' =>
      if String.eqb b t then strip_common bs' ts' else (bs, ts)
  | _, _ => (bs, ts)
  end.

(** [filepath.Rel]: go up once per remaining element of the base, then down
    the remaining elements of the target. *)
Definition unix_Rel (basepath targpath : string) : result string :=
  let base := unix_Clean basepath in
  let targ := unix_Clean targpath in
  if String.eqb targ base then Ok "."
  else if negb (Bool.eqb (HasPrefix base "/") (HasPrefix targ "/"))
  then Err (ErrNew "Rel: can't make targpath relative to basepath")
  else
    let '(bs, ts) := strip_common (clean_elems basepath) (clean_elems targpath) in
    match bs with
    | b :: _ =>
        if String.eqb b ".."
        then Err (ErrNew "Rel: can't make targpath relative to basepath")
        else Ok (join_slash (((λ _, "..") <$> bs) ++ ts))
    | [] => Ok (join_slash ts)
    end.

(** [filepath.ToSlash]: the separator already is a slash. *)
Definition unix_ToSlash (p : string) : string := p.

Definition unix : Ops :=
  {| IsAbs := unix_IsAbs; Join := unix_Join; Rel := unix_Rel;
     ToSlash := unix_ToSlash |}.

(** An element of a cleaned path: not empty, and not starting with a slash. *)
Definition elem_ok (e : string) : Prop := e ≠ "" ∧ HasPrefix e "/" = false.

End filepath.

(** ** Package [templatesource]: the local downloader *)

Module templatesource.
Import filepath.

(** Values for template variables like [_git_tag] and [_git_sha]. *)
Record DownloaderVars := mkVars {
  GitTag : string;
  GitSHA : string;
  GitShortSHA : string }.

Record DownloadMetadata := mkMeta {
  IsCanonical : bool;
  CanonicalSource : string;
  LocationType : string;
  HasVersion : bool;
  Version : string;
  Vars : DownloaderVars }.

(** Modelled from the spec: the constant [LocTypeLocalGit] is declared in a
    file of the package that is not among the sources; the spec lists the
    location types as [local_git] and [remote_git]. *)
Definition LocTypeLocalGit : string := "local_git".

(** What [os.Stat] reports about an existing path. *)
Record FileInfo := mkFileInfo { IsDir : bool }.

(** The operating system and the helpers of the repository that this
    package calls and whose code is not among the sources: they are taken
    as parameters.  [World] is the state of the machine (file system and
    git repositories). *)
Class Env := {
  World : Type;
  os_Stat : World → string → result FileInfo;
  common_IsStatNotExistErr : error → bool;
  common_CopyRecursive : World → string → string → result World;
  gitTemplateVars : World → string → result DownloaderVars;
  git_Workspace : World → string → result (string * bool);
  gitCanonicalVersion : World → string → bool → result (string * bool) }.

Record ParseSourceParams := mkParams {
  CWD : string;
  Source : string;
  GitProtocol : string }.

(** [LocalDownloader] implements [Downloader]. *)
Record LocalDownloader := mkLocal {
  SrcPath : string;
  allowDirty : bool }.

Section Local.
Context {env : Env} {fp : filepath.Ops}.

(** [localSourceParser.sourceParse].  The Go function returns
    [(Downloader, bool, error)]: [Ok None] stands for [(nil, false, nil)],
    [Ok (Some d)] for [(d, true, nil)] and [Err e] for [(nil, false, e)]. *)
Definition sourceParse (w : World) (params : ParseSourceParams)
  : result (option LocalDownloader) :=
  let absSource :=
    if negb (IsAbs (Source params)) then Join [CWD params; Source params]
    else Source params in
  match os_Stat w absSource with
  | Err err =>
      if common_IsStatNotExistErr err then Ok None
      else Err (ErrWrap "Stat()" err)
  | Ok fi =>
      if negb (IsDir fi) then Ok None
      else Ok (Some {| SrcPath := absSource; allowDirty := false |})
  end.

(** [canonicalize]: returns [(canonicalSource, version, locType)]. *)
Definition canonicalize (w : World) (cwd src dest : string) (allowDirty : bool)
  : result (string * string * string) :=
  let absDest := if negb (IsAbs dest) then Join [cwd; dest] else dest in
  '(sourceGitWorkspace, templateIsGit) ← git_Workspace w src;
  '(destGitWorkspace, destIsGit) ← git_Workspace w absDest;
  if negb templateIsGit || negb destIsGit
     || negb (String.eqb sourceGitWorkspace destGitWorkspace)
  then Ok ("", "", "")
  else
    match Rel absDest src with
    | Err err => Err (ErrWrap "filepath.Rel" err)
    | Ok out =>
        '(version, _) ← gitCanonicalVersion w sourceGitWorkspace allowDirty;
        Ok (ToSlash out, version, LocTypeLocalGit)
    end.

(** [LocalDownloader.Download]: copies the template and describes where it
    came from.  The result carries the world after the copy. *)
Definition Download (l : LocalDownloader) (w : World) (cwd destDir : string)
  : result (World * DownloadMetadata) :=
  w' ← common_CopyRecursive w (SrcPath l) destDir;
  gitVars ← gitTemplateVars w' (SrcPath l);
  '(canonicalSource, version, locType) ←
    canonicalize w' cwd (SrcPath l) destDir (allowDirty l);
  Ok (w', {| IsCanonical := negb (is_empty canonicalSource);
             CanonicalSource := canonicalSource;
             LocationType := locType;
             HasVersion := negb (is_empty version);
             Version := version;
             Vars := gitVars |}).

(** The source path [sourceParse] examines: the source itself when it is
    absolute, otherwise the source joined to the working directory. *)
Definition absSourceOf (params : ParseSourceParams) : string :=
  if IsAbs (Source params) then Source params
  else Join [CWD params; Source params].

(** The destination directory [canonicalize] compares with the template
    directory: made absolute against the working directory. *)
Definition absDestOf (cwd dest : string) : string :=
  if IsAbs dest then dest else Join [cwd; dest].

End Local.
End templatesource.

(** ** Go's [strings.Replacer] *)

Module Replacer.

(** A replacer is its list of [(old, new)] pairs in argument order. *)
Definition t := list (string * string).

(** [strings.NewReplacer(oldnew...)] pairs up its arguments and panics when
    their number is odd; the panic is the error case here. *)
Fixpoint NewReplacer (oldnew : list string) : result t :=
  match oldnew with
  | [] => Ok []
  | old :: new :: rest => r ← NewReplacer rest; Ok ((old, new) :: r)
  | [_] => Err (ErrNew "strings.NewReplacer: odd argument count")
  end.

(** The match the replacer takes at the start of [s]: comparisons are done
    in argument order, so it is the first pair whose old string is a prefix
    of [s].  After an empty match at the same position the pairs with an
    empty old string are ignored ([ignoreEmpty]). *)
Fixpoint lookup (r : t) (s : string) (ignoreEmpty : bool)
  : option (string * string) :=
  match r with
  | [] => None
  | (old, new) :: rest =>
      if HasPrefix s old && negb (ignoreEmpty && is_empty old)
      then Some (old, new)
      else lookup rest s ignoreEmpty
  end.

(** One left-to-right pass over [s] without overlapping matches.  [skip]
    counts the bytes of [s] that the last match still covers. *)
Fixpoint replace_from (r : t) (s : string) (skip : nat) {struct s} : string :=
  match skip with
  | S k =>
      match s with
      | "" => ""
      | String _ s' => replace_from r s' k
      end
  | O =>
      let '(inserted, m) :=
        match lookup r s false with
        | Some (old, new) =>
            if is_empty old then (new, lookup r s true) else ("", Some (old, new))
        | None => ("", None)
        end in
      inserted +:+
      match m with
      | Some (old, new) =>
          new +:+
          match s with
          | "" => ""
          | String _ s' => replace_from r s' (String.length old - 1)
          end
      | None =>
          match s with
          | "" => ""
          | String c s' => String c (replace_from r s' 0)
          end
      end
  end.

(** The method [Replace] of a replacer. *)
Definition Replace (r : t) (s : string) : string := replace_from r s 0.

End Replacer.

(** ** Package [model]: values with positions and validation helpers *)

Module model.

(** [model.String]: a string with the position it was read at. *)
Record String_ := mkString { Pos : ConfigPos; Val : string }.

(** Modelled from the spec: [model.NotZeroModel], which is not among the
    sources.  Validation requires every required field to be non-empty
    (section 4.1); a violation names the field and the position of the
    object that holds it. *)
Definition NotZeroModel (pos : ConfigPos) (x : String_) (fieldName : string)
  : option error :=
  if is_empty (Val x) then Some (ErrRequired pos fieldName) else None.

(** Modelled from the spec: [model.ValidateEach], which is not among the
    sources.  Validation errors are collected across all elements before
    being reported (section 7): each element's error is joined to the
    errors collected so far. *)
Definition ValidateEach {T} (Validate : T → option error) (s : list T)
  : option error :=
  fold_left (λ merr v, errors_Join [merr; Validate v]) s None.

End model.

(** ** Package [render]: the [string_replace] action *)

Module render.
Import model.

(** [spec.StringReplacement] and [spec.StringReplace]. *)
Record StringReplacement := mkReplacement {
  ToReplace : String_;
  With : String_ }.

Record StringReplace := mkStringReplace {
  Paths : list String_;
  Replacements : list StringReplacement }.

(** The template expander [parseAndExecuteGoTmpl] is not among the sources
    and is taken as a parameter, with the type of scopes. *)
Class Expander := {
  Scope : Type;
  parseAndExecuteGoTmpl : ConfigPos → string → Scope → result string }.

(** The scratch directory: its files in walk order, each a slash-separated
    path relative to the scratch root with the file's contents. *)
Definition scratch := list (string * string).

Section Action.
Context {ex : Expander}.

(** [stepParams], as far as this action reads it. *)
Record stepParams := mkStep {
  scope : Scope;
  scratchDir : scratch }.

(** Whether [file] is [root] itself or lies below it. *)
Definition under (root file : string) : bool :=
  String.eqb root "." || String.eqb file root || HasPrefix file (root +:+ "/").

(** Modelled from the spec: path resolution (section 4.3), which is code of
    the package that is not among the sources.  A path is expanded, then
    absolute paths and paths containing [..] are rejected. *)
Definition resolvePath (sc : Scope) (p : String_) : result string :=
  expanded ← parseAndExecuteGoTmpl (Pos p) (Val p) sc;
  if HasPrefix expanded "/"
     || bool_decide (".." ∈ split_slash expanded)
  then Err (ErrNew "path is unsafe")
  else Ok expanded.

(** Modelled from the spec: [walkAndModify] (section 4.3), which is code of
    the package that is not among the sources.  It resolves the paths, then
    for each file under a resolved path reads the bytes, applies the
    transform and writes the result back. *)
Definition walkAndModify (sp : stepParams) (relPaths : list String_)
    (fn : string → result string) : result scratch :=
  roots ← mapM (resolvePath (scope sp)) relPaths;
  mapM (λ '(file, buf),
          if existsb (λ root, under root file) roots
          then buf' ← fn buf; Ok (file, buf')
          else Ok (file, buf))
       (scratchDir sp).

(** The loop of [actionStringReplace] that expands the replacements and
    appends them to [replacerArgs]. *)
Fixpoint expandReplacements (rs : list StringReplacement) (sc : Scope)
    (replacerArgs : list string) : result (list string) :=
  match rs with
  | [] => Ok replacerArgs
  | r :: rs' =>
      toReplace ← parseAndExecuteGoTmpl (Pos (ToReplace r)) (Val (ToReplace r)) sc;
      replaceWith ← parseAndExecuteGoTmpl (Pos (With r)) (Val (With r)) sc;
      expandReplacements rs' sc (replacerArgs ++ [toReplace; replaceWith])
  end.

(** [actionStringReplace]: returns the scratch directory it leaves. *)
Definition actionStringReplace (sr : StringReplace) (sp : stepParams)
  : result scratch :=
  replacerArgs ← expandReplacements (Replacements sr) (scope sp) [];
  replacer ← Replacer.NewReplacer replacerArgs;
  walkAndModify sp (Paths sr)
    (λ buf, Ok (Replacer.Replace replacer buf)).

(** The expansion of one replacement against the scope. *)
Definition expandPair (sc : Scope) (r : StringReplacement) : result (string * string) :=
  toReplace ← parseAndExecuteGoTmpl (Pos (ToReplace r)) (Val (ToReplace r)) sc;
  replaceWith ← parseAndExecuteGoTmpl (Pos (With r)) (Val (With r)) sc;
  Ok (toReplace, replaceWith).

(** The expanded [(to_replace, with)] pairs, in the order of the list. *)
Definition expandedPairs (rs : list StringReplacement) (sc : Scope)
  : result (list (string * string)) :=
  mapM (expandPair sc) rs.

Definition flatten (ps : list (string * string)) : list string :=
  ps ≫= (λ p, [p.1; p.2]).


End Action.
End render.

(** ** Go's [time]: instants and their RFC 3339 form *)

Module time.

(** An instant (seconds since the Unix epoch and nanoseconds within the
    second) together with the offset of its location, in seconds east of
    UTC. *)
Record Time := mkTime { unix : Z; nanos : Z; offset : Z }.

(** [Time.UTC]: the same instant with the location set to UTC. *)
Definition UTC (t : Time) : Time :=
  {| unix := unix t; nanos := nanos t; offset := 0 |}.

(** Days since the epoch of a date of the proleptic Gregorian calendar. *)
Definition days_from_civil (y m d : Z) : Z :=
  let y := if m <=? 2 then y - 1 else y in
  let era := y / 400 in
  let yoe := y - era * 400 in
  let doy := (153 * (if 2 <? m then m - 3 else m + 9) + 2) / 5 + d - 1 in
  let doe := yoe * 365 + yoe / 4 - yoe / 100 + doy in
  era * 146097 + doe - 719468.

(** The date of a number of days since the epoch. *)
Definition civil_from_days (days : Z) : Z * Z * Z :=
  let z := days + 719468 in
  let era := z / 146097 in
  let doe := z - era * 146097 in
  let yoe := (doe - doe / 1460 + doe / 36524 - doe / 146096) / 365 in
  let doy := doe - (365 * yoe + yoe / 4 - yoe / 100) in
  let mp := (5 * doy + 2) / 153 in
  let d := doy - (153 * mp + 2) / 5 + 1 in
  let m := if mp <? 10 then mp + 3 else mp - 9 in
  ((if m <=? 2 then yoe + era * 400 + 1 else yoe + era * 400), m, d).

(** [time.Date(y, m, d, h, mi, s, ns, loc)] for a location at offset [off]. *)
Definition Date (y m d h mi s ns off : Z) : Time :=
  {| unix := days_from_civil y m d * 86400 + h * 3600 + mi * 60 + s - off;
     nanos := ns; offset := off |}.

Definition digit (n : Z) : ascii := ascii_of_N (48 + Z.to_N (n mod 10)).

(** The last [width] decimal digits of [n], zero padded. *)
Fixpoint pad (width : nat) (n : Z) : string :=
  match width with
  | O => ""
  | S w => pad w (n / 10) +:+ String (digit n) ""
  end.

Fixpoint trim_zeros (s : string) : string :=
  match s with
  | "" => ""
  | String c s' =>
      match trim_zeros s' with
      | "" => if Ascii.eqb c "0" then "" else String c ""
      | t => String c t
      end
  end.

(** The fractional second of layout [.999999999]: nine digits without
    their trailing zeros, and nothing at all for a whole second. *)
Definition fraction (ns : Z) : string :=
  if ns =? 0 then "" else "." +:+ trim_zeros (pad 9 ns).

(** The zone of layout [Z07:00]. *)
Definition zone (off : Z) : string :=
  if off =? 0 then "Z"
  else
    let a := Z.abs off / 60 in
    (if off <? 0 then "-" else "+") +:+ pad 2 (a / 60) +:+ ":" +:+ pad 2 (a mod 60).

(** The date and the time of day of layout [2006-01-02T15:04:05], in the
    location of [t], for the years 0000 to 9999. *)
Definition dateTime (t : Time) : string :=
  let wall := unix t + offset t in
  let secs := wall mod 86400 in
  let '(y, m, d) := civil_from_days (wall / 86400) in
  pad 4 y +:+ "-" +:+ pad 2 m +:+ "-" +:+ pad 2 d +:+ "T" +:+
  pad 2 (secs / 3600) +:+ ":" +:+ pad 2 (secs / 60 mod 60) +:+ ":" +:+
  pad 2 (secs mod 60).

(** [t.Format(time.RFC3339Nano)], layout [2006-01-02T15:04:05.999999999Z07:00]. *)
Definition Format_RFC3339Nano (t : Time) : string :=
  dateTime t +:+ fraction (nanos t) +:+ zone (offset t).



End time.

(** ** Encodings used by the manifest *)

Module encoding.

Definition between (lo hi : N) (c : ascii) : bool :=
  let n := N_of_ascii c in ((lo <=? n) && (n <=? hi))%N.

Definition mem_ascii (c : ascii) (s : string) : bool :=
  bool_decide (c ∈ String.list_ascii_of_string s).

(** Bytes that [url.PathEscape] leaves as they are. *)
Definition unescaped (c : ascii) : bool :=
  between 97 122 c || between 65 90 c || between 48 57 c
  || mem_ascii c "-_.~" || mem_ascii c "$&+:=@".

Definition hexdigit (n : N) : ascii :=
  if (n <? 10)%N then ascii_of_N (48 + n) else ascii_of_N (55 + n).

(** [url.PathEscape]. *)
Fixpoint PathEscape (s : string) : string :=
  match s with
  | "" => ""
  | String c s' =>
      if unescaped c then String c (PathEscape s')
      else
        let n := N_of_ascii c in
        String "%" (String (hexdigit (n / 16)) (String (hexdigit (n mod 16))
          (PathEscape s')))
  end.

Definition b64char (n : N) : ascii :=
  if (n <? 26)%N then ascii_of_N (65 + n)
  else if (n <? 52)%N then ascii_of_N (71 + n)
  else if (n <? 62)%N then ascii_of_N (n - 4)
  else if (n =? 62)%N then "+"%char else "/"%char.

(** [base64.StdEncoding.EncodeToString]. *)
Fixpoint base64 (s : string) : string :=
  match s with
  | "" => ""
  | String a "" =>
      let x := N_of_ascii a in
      String (b64char (x / 4)) (String (b64char (x mod 4 * 16)) "==")
  | String a (String b "") =>
      let x := N_of_ascii a in
      let y := N_of_ascii b in
      String (b64char (x / 4)) (String (b64char (x mod 4 * 16 + y / 16))
        (String (b64char (y mod 16 * 4)) "="))
  | String a (String b (String c s')) =>
      let x := N_of_ascii a in
      let y := N_of_ascii b in
      let z := N_of_ascii c in
      String (b64char (x / 4)) (String (b64char (x mod 4 * 16 + y / 16))
        (String (b64char (y mod 16 * 4 + z / 64)) (String (b64char (z mod 64))
          (base64 s'))))%N
  end.

End encoding.

(** ** Package [render]: the manifest writer *)

Module manifest.
Import common filepath templatesource.

(** The files of the machine, by path. *)
Abbreviation files := (gmap string string).

(** The directory hash of the template ([dirhash.HashDir], a library
    built on SHA-256) is taken as a parameter. *)
Class Hasher := { HashDir : files → string → result string }.

(** Modelled from the spec: the manifest document (sections 3 and 6), whose
    type is not among the sources; the fields are in the order of
    section 6. *)
Record Manifest := mkManifest {
  creation_time : time.Time;
  modification_time : time.Time;
  template_location : string;
  location_type : string;
  template_version : string;
  template_dirhash : string;
  inputs : list (string * string);
  output_hashes : list (string * string) }.

(** The order of two entries by their first component (input name, file). *)
Definition by_key (a b : string * string) : Prop := String.le a.1 b.1.

#[global] Instance by_key_dec : RelDecision by_key :=
  λ a b, decide (String.le a.1 b.1).

(** The entries of a Go map sorted by key. *)
Definition sorted_entries (m : gmap string string) : list (string * string) :=
  merge_sort by_key (map_to_list m).

(** A YAML scalar: the empty string is written as two double quotes; the
    quoting of other special scalars is left to the YAML library. *)
Definition yamlScalar (s : string) : string :=
  if is_empty s then dquote +:+ dquote else s.

Definition yamlList (k1 k2 : string) (f : string → string)
    (l : list (string * string)) : string :=
  match l with
  | [] => " []" +:+ newline
  | _ =>
      newline +:+
      String.concat "" ((λ e, "    - " +:+ k1 +:+ ": " +:+ yamlScalar e.1 +:+ newline
                            +:+ "      " +:+ k2 +:+ ": " +:+ f e.2 +:+ newline) <$> l)
  end.

(** Modelled from the spec: the YAML form of the manifest (section 6), in
    the layout the tests of the manifest writer expect. *)
Definition marshal (m : Manifest) : string :=
  "api_version: cli.abcxyz.dev/v1beta3" +:+ newline +:+
  "kind: Manifest" +:+ newline +:+
  "creation_time: " +:+ time.Format_RFC3339Nano (creation_time m) +:+ newline +:+
  "modification_time: " +:+ time.Format_RFC3339Nano (modification_time m) +:+ newline +:+
  "template_location: " +:+ yamlScalar (template_location m) +:+ newline +:+
  "location_type: " +:+ yamlScalar (location_type m) +:+ newline +:+
  "template_version: " +:+ yamlScalar (template_version m) +:+ newline +:+
  "template_dirhash: " +:+ yamlScalar (template_dirhash m) +:+ newline +:+
  "inputs:" +:+ yamlList "name" "value" yamlScalar (inputs m) +:+
  "output_hashes:" +:+
    yamlList "file" "hash" (λ h, "h1:" +:+ encoding.base64 h) (output_hashes m).

(** Modelled from the spec: the parameters of [writeManifest], as the tests
    pass them. *)
Record writeManifestParams := mkWMP {
  clock : time.Time;               (* what the injected clock's Now returns *)
  destDir : string;
  dlMeta : DownloadMetadata;
  dryRun : bool;
  wm_inputs : gmap string string;
  outputHashes : gmap string string;
  templateDir : string }.

Section Write.
Context {fp : filepath.Ops} {hasher : Hasher}.

(** Modelled from the spec: the manifest that [writeManifest] collects
    (section 4.6): timestamps from the injected clock in UTC, the template
    hash, the inputs sorted by name and the output hashes sorted by file. *)
Definition buildManifest (p : writeManifestParams) (templateDirhash : string)
  : Manifest :=
  let now := time.UTC (clock p) in
  {| creation_time := now;
     modification_time := now;
     template_location := CanonicalSource (dlMeta p);
     location_type := LocationType (dlMeta p);
     template_version := Version (dlMeta p);
     template_dirhash := templateDirhash;
     inputs := sorted_entries (wm_inputs p);
     output_hashes := sorted_entries (outputHashes p) |}.

(** Modelled from the spec: the manifest's file name (section 4.6),
    [manifest_<location-slug>_<timestamp>.lock.yaml]. *)
Definition manifestBaseName (p : writeManifestParams) : string :=
  "manifest_" +:+
  (if IsCanonical (dlMeta p) then encoding.PathEscape (CanonicalSource (dlMeta p))
   else "nolocation") +:+
  "_" +:+ time.Format_RFC3339Nano (time.UTC (clock p)) +:+ ".lock.yaml".

Definition manifestPath (p : writeManifestParams) : string :=
  Join [destDir p; ABCInternalDir; manifestBaseName p].

(** Modelled from the spec: [writeManifest] (section 4.6), whose code is not
    among the sources (only its tests are).  It writes the YAML document
    under [.abc] in the destination; a dry run writes nothing. *)
Definition writeManifest (fs : files) (p : writeManifestParams) : result files :=
  templateDirhash ← HashDir fs (templateDir p);
  let buf := DoNotModifyHeader +:+ marshal (buildManifest p templateDirhash) in
  if dryRun p then Ok fs
  else Ok (<[manifestPath p := buf]> fs).



End Write.
End manifest.

(** ** Package [goldentest] (model): the test configuration *)

Module goldentest.
Import model.

(** One of the parsed [inputs] of a test configuration. *)
Record VarValue := mkVarValue {
  vv_Pos : ConfigPos;
  Name : String_;
  Value : String_ }.

(** [VarValue.Validate]. *)
Definition VarValue_Validate (i : VarValue) : option error :=
  errors_Join [
    NotZeroModel (vv_Pos i) (Name i) "name";
    NotZeroModel (vv_Pos i) (Value i) "value" ].

(** A parsed [test.yaml]. *)
Record Test := mkTest {
  t_Pos : ConfigPos;
  Inputs : list VarValue }.

(** [Test.Validate]. *)
Definition Test_Validate (t : Test) : option error :=
  errors_Join [ ValidateEach VarValue_Validate (Inputs t) ].

(** The violations [Validate] finds in one field. *)
Definition required (pos : ConfigPos) (x : String_) (fieldName : string)
  : list error :=
  if is_empty (Val x) then [ErrRequired pos fieldName] else [].

End goldentest.

(** ** Package [goldentest] (commands): the [verify] subcommand *)

Module verify.
Import common filepath.

(** *** The file trees that are compared *)

(** A file-system object.  The entries of a directory are held in the
    order [ReadDir] lists them. *)
#[warnings="-register-all"]
Inductive node : Type :=
| File (contents : string)                 (* a readable regular file *)
| Unreadable                               (* a file whose read is refused *)
| Dir (entries : list (string * node)).

Definition is_dir (n : node) : bool :=
  match n with Dir _ => true | _ => false end.

(** The directory trees of the machine, by the path of their root; a path
    that is absent does not exist. *)
Abbreviation trees := (gmap string node).

(** The elements of the relative paths [rels] that name something. *)
Definition path_elems (rels : list string) : list string :=
  filter (λ e, e ≠ "" ∧ e ≠ ".") (rels ≫= split_slash).

Definition find_entry (name : string) (entries : list (string * node))
  : option node :=
  snd <$> find (λ e, String.eqb e.1 name) entries.

(** Reading the file reached from [n] through [elems]. *)
Fixpoint read_node (n : node) (elems : list string) : result string :=
  match elems with
  | [] =>
      match n with
      | File contents => Ok contents
      | Unreadable => Err ErrPermission
      | Dir _ => Err ErrIsDir
      end
  | e :: rest =>
      match n with
      | Dir entries =>
          match find_entry e entries with
          | Some child => read_node child rest
          | None => Err ErrNotExist
          end
      | _ => Err ErrNotDir
      end
  end.

(** [os.ReadFile(filepath.Join(dir, rels...))]: the file is looked up from
    the tree rooted at [dir]. *)
Definition os_ReadFile (fs : trees) (dir : string) (rels : list string)
  : result string :=
  match fs !! dir with
  | None => Err ErrNotExist
  | Some n => read_node n (path_elems rels)
  end.

(** What a [fs.WalkDirFunc] returns: nil, [fs.SkipDir] or another error. *)
Inductive walkResult :=
| WalkOk
| WalkSkipDir
| WalkErr (e : error).

(** The path of an entry named [name] of the directory at [dir], both
    relative to the root of the walk (which is ["."]). *)
Definition child_path (dir name : string) : string :=
  if String.eqb dir "." then name else dir +:+ "/" +:+ name.

(** The callback of a walk: it receives the path of the object relative to
    the root of the walk (in the program, the callback's first step
    [filepath.Rel(testDataDir, path)] computes it), whether the object is a
    directory ([None] when there is no entry), and the error of the walk. *)
Definition WalkDirFunc (S : Type) : Type :=
  string → option bool → option error → S → S * walkResult.

(** [walkDir] of [io/fs]: the callback is called on the object before its
    entries are walked; [SkipDir] on a directory skips its entries, and
    [SkipDir] from an entry skips the rest of the directory. *)
Fixpoint walkDir {S} (fn : WalkDirFunc S) (name : string) (d : node) (st : S)
  : S * walkResult :=
  let '(st1, r) := fn name (Some (is_dir d)) None st in
  match d with
  | Dir entries =>
      match r with
      | WalkOk =>
          (fix walkEntries (entries : list (string * node)) (st : S) :=
             match entries with
             | [] => (st, WalkOk)
             | (name1, d1) :: rest =>
                 let '(st', r') := walkDir fn (child_path name name1) d1 st in
                 match r' with
                 | WalkOk => walkEntries rest st'
                 | WalkSkipDir => (st', WalkOk)
                 | WalkErr e => (st', WalkErr e)
                 end
             end) entries st1
      | WalkSkipDir => (st1, WalkOk)
      | WalkErr e => (st1, WalkErr e)
      end
  | _ => (st1, r)
  end.

(** [fs.WalkDir]: a root that cannot be examined is reported to the
    callback; a [SkipDir] that reaches the top ends the walk normally. *)
Definition WalkDir {S} (fs : trees) (root : string) (fn : WalkDirFunc S) (st : S)
  : S * option error :=
  let '(st', r) :=
    match fs !! root with
    | None => fn "." None (Some ErrNotExist) st
    | Some n => walkDir fn "." n st
    end in
  match r with
  | WalkErr e => (st', Some e)
  | _ => (st', None)
  end.

(** *** Constants *)

Definition goldenTestDir : string := "testdata/golden".

(** Modelled from the spec: the constant [testDataDir] is declared in a
    file that is not among the sources; the recorded test data lies under
    [<test>/data] (see the tests of the record command). *)
Definition testDataDir : string := "data".

(** Modelled from the spec: the constant [abcRenameSuffix] is declared in a
    file that is not among the sources; the recorded test data shows it
    ([.gitignore.abc_renamed]). *)
Definition abcRenameSuffix : string := ".abc_renamed".

(** *** The diff library and the terminal colours *)

Inductive Operation := DiffDelete | DiffInsert | DiffEqual.

Record Diff := mkDiff { Type_ : Operation; Text : string }.

(** [diffmatchpatch] and the colour functions are libraries, taken as
    parameters. *)
Class Deps := {
  DiffMain : string → string → list Diff;
  DiffPrettyText : list Diff → string;
  red : string → string;
  green : string → string }.

(** [hasDiff] returns whether file content mismatch exists. *)
Fixpoint hasDiff (diffs : list Diff) : bool :=
  match diffs with
  | [] => false
  | diff :: rest =>
      match Type_ diff with
      | DiffEqual => hasDiff rest
      | _ => true
      end
  end.

(** The contract of [DiffMain]: equal texts give no difference, different
    texts give one. *)
Class DepsLawful (deps : Deps) : Prop := {
  DiffMain_same : ∀ a, hasDiff (DiffMain a a) = false;
  DiffMain_differ : ∀ a b, a ≠ b → hasDiff (DiffMain a b) = true }.

(** A test case: its name (the configuration is not read here). *)
Record TestCase := mkTestCase { TestName : string }.

(** Induction on file trees, with the hypothesis for every entry of a
    directory. *)
Fixpoint node_ind' (P : node → Prop)
    (HFile : ∀ contents, P (File contents))
    (HUnreadable : P Unreadable)
    (HDir : ∀ entries, Forall (λ e, P e.2) entries → P (Dir entries))
    (n : node) : P n :=
  match n with
  | File contents => HFile contents
  | Unreadable => HUnreadable
  | Dir entries =>
      HDir entries
        ((fix go (entries : list (string * node)) : Forall (λ e, P e.2) entries :=
            match entries return Forall (λ e, P e.2) entries with
            | [] => @List.Forall_nil _ (λ e, P e.2)
            | (name1, d1) :: rest =>
                @List.Forall_cons _ (λ e, P e.2) (name1, d1) rest
                  (node_ind' P HFile HUnreadable HDir d1) (go rest)
            end) entries)
  end.

(** The paths of the files (the objects that are not directories) of the
    tree [d] found at [name], relative to the root of the walk. *)
Fixpoint file_paths (name : string) (d : node) : list string :=
  match d with
  | Dir entries =>
      (fix go (entries : list (string * node)) : list string :=
         match entries with
         | [] => []
         | (name1, d1) :: rest => file_paths (child_path name name1) d1 ++ go rest
         end) entries
  | _ => [name]
  end.

(** The same for the entries of the directory at [name]. *)
Definition entries_paths (name : string) (entries : list (string * node))
  : list string :=
  flat_map (λ e, file_paths (child_path name e.1) e.2) entries.

(** The entries loop of [walkDir], as a function of its own. *)
Fixpoint walkEntries {S} (fn : WalkDirFunc S) (name : string)
    (entries : list (string * node)) (st : S) : S * walkResult :=
  match entries with
  | [] => (st, WalkOk)
  | (name1, d1) :: rest =>
      let '(st', r') := walkDir fn (child_path name name1) d1 st in
      match r' with
      | WalkOk => walkEntries fn name rest st'
      | WalkSkipDir => (st', WalkOk)
      | WalkErr e => (st', WalkErr e)
      end
  end.

(** The paths that are not reserved. *)
Definition visible (paths : list string) : list string :=
  filter (λ p, IsReservedInDest p = false) paths.

(** The files [addTestFiles] finds under a data directory: the files of
    its tree whose path is not under the top-level [.abc]. *)
Definition found (fs : trees) (dir : string) : gset string :=
  match fs !! dir with
  | Some n => list_to_set (visible (file_paths "." n))
  | None => ∅
  end.

(** A name a directory entry can have: not empty, not [.] or [..], and
    without a slash. *)
Definition valid_name (name : string) : bool :=
  negb (is_empty name) && negb (String.eqb name ".")
  && negb (String.eqb name "..") && bool_decide (split_slash name = [name]).


(** The path, relative to the root of a walk, of the object reached
    through the entries [elems]. *)
Definition path_of (elems : list string) : string :=
  fold_left child_path elems ".".

Section Verify.
Context {fp : filepath.Ops} {deps : Deps}.

(** The callback that [addTestFiles] gives to the walk. *)
Definition addTestFiles_fn : WalkDirFunc (gset string) :=
  λ relToSrc de err fileSet,
    match err with
    | Some e => (fileSet, WalkErr (ErrWrap "fs.WalkDir" e))
    | None =>
        let isDir := default false de in
        if IsReservedInDest relToSrc then
          if isDir then (fileSet, WalkSkipDir) else (fileSet, WalkOk)
        else if isDir then (fileSet, WalkOk)
        else ({[ relToSrc ]} ∪ fileSet, WalkOk)
    end.

(** [addTestFiles] collects file paths generated in a golden test. *)
Definition addTestFiles (fs : trees) (fileSet : gset string) (testDataDir : string)
  : result (gset string) :=
  match WalkDir fs testDataDir addTestFiles_fn fileSet with
  | (_, Some err) => Err (ErrWrap "fs.WalkDir" err)
  | (fileSet', None) => Ok fileSet'
  end.

(** [getStdoutDiff], called by [Run] with the paths of [.abc/stdout] under
    the two data directories. *)
Definition getStdoutDiff (fs : trees) (goldenDataDir tempDataDir : string)
  : result (list Diff) :=
  let stdoutRel := [ABCInternalDir; ABCInternalStdout] in
  goldenStdout ←
    match os_ReadFile fs goldenDataDir stdoutRel with
    | Err err =>
        if negb (is_ErrNotExist err) then Err (ErrWrap "failed to read" err)
        else Ok ""
    | Ok buf => Ok buf
    end;
  tempStdout ←
    match os_ReadFile fs tempDataDir stdoutRel with
    | Err err =>
        if negb (is_ErrNotExist err) then Err (ErrWrap "failed to read" err)
        else Ok ""
    | Ok buf => Ok buf
    end;
  Ok (DiffMain tempStdout goldenStdout).

Definition msgNotRecorded (file : string) : error :=
  ErrNew (red ("-- [" +:+ file +:+ "] generated, however not recorded in test data")).

Definition msgMissing (file : string) : error :=
  ErrNew (red ("-- [" +:+ file +:+ "] expected, however missing")).

Definition msgContent (file : string) (diffs : list Diff) : error :=
  ErrNew (red ("-- [" +:+ file +:+ "] file content mismatch") +:+ ":" +:+
          newline +:+ DiffPrettyText diffs).

(** The body of the loop of [Run] over [relPaths]: the state is
    [(tcErr, outputMismatch)]; [Err] is the [return] that leaves [Run]. *)
Definition compareFile (fs : trees) (goldenDataDir tempDataDir relPath : string)
    (st : option error * bool) : result (option error * bool) :=
  let '(tcErr, outputMismatch) := st in
  let goldenFile := Join [goldenDataDir; relPath] in
  let tempFile := Join [tempDataDir; relPath] in
  let abcRenameTrimedGoldenFile := TrimSuffix goldenFile abcRenameSuffix in
  let abcRenameTrimedTempFile := TrimSuffix tempFile abcRenameSuffix in
  match os_ReadFile fs goldenDataDir [relPath] with
  | Err err =>
      if is_ErrNotExist err
      then Ok (errors_Join [tcErr; Some (msgNotRecorded abcRenameTrimedGoldenFile)],
               true)
      else Err (ErrWrap ("failed to read (" +:+ abcRenameTrimedGoldenFile +:+ ")") err)
  | Ok goldenContent =>
      match os_ReadFile fs tempDataDir [relPath] with
      | Err err =>
          if is_ErrNotExist err
          then Ok (errors_Join [tcErr; Some (msgMissing abcRenameTrimedGoldenFile)],
                   outputMismatch)
          else Err (ErrWrap ("failed to read (" +:+ abcRenameTrimedTempFile +:+ ")") err)
      | Ok tempContent =>
          let diffs := DiffMain tempContent goldenContent in
          if hasDiff diffs
          then Ok (errors_Join [tcErr;
                                Some (msgContent abcRenameTrimedGoldenFile diffs)],
                   true)
          else Ok (tcErr, outputMismatch)
      end
  end.

Fixpoint compareFiles (fs : trees) (goldenDataDir tempDataDir : string)
    (relPaths : list string) (st : option error * bool)
  : result (option error * bool) :=
  match relPaths with
  | [] => Ok st
  | relPath :: rest =>
      st' ← compareFile fs goldenDataDir tempDataDir relPath st;
      compareFiles fs goldenDataDir tempDataDir rest st'
  end.

(** The paths the loop iterates over: the keys of [fileSet] after
    [sort.Strings]. *)
Definition sortedPaths (fileSet : gset string) : list string :=
  merge_sort String.le (elements fileSet).

Definition msgStdout (diffs : list Diff) : error :=
  ErrNew (red "the printed messages differ between the recorded golden output and the actual output"
          +:+ ":" +:+ newline +:+ DiffPrettyText diffs).

Definition msgMismatch (testName : string) : error :=
  ErrNew (red ("golden test [" +:+ testName +:+ "] didn't match actual output, you might need to run 'record' command to capture it as the new expected output")).

(** The data directories of a test case. *)
Definition goldenDataDirOf (location : string) (tc : TestCase) : string :=
  Join [location; goldenTestDir; TestName tc; testDataDir].

Definition tempDataDirOf (tempDir : string) (tc : TestCase) : string :=
  Join [tempDir; goldenTestDir; TestName tc; testDataDir].

(** The end of an iteration of [Run], after the loop over [relPaths]: the
    printed output is compared and the test case's error is completed. *)
Definition finishTestCase (tc : TestCase) (st : option error * bool)
    (stdoutDiff : list Diff) : option error :=
  let '(tcErr, outputMismatch) := st in
  let '(tcErr, outputMismatch) :=
    if hasDiff stdoutDiff
    then (errors_Join [tcErr; Some (msgStdout stdoutDiff)], true)
    else (tcErr, outputMismatch) in
  if outputMismatch
  then errors_Join [tcErr; Some (msgMismatch (TestName tc))]
  else tcErr.

(** One iteration of the loop of [Run] over the test cases, up to the
    test case's error [tcErr]; [Err] is the [return] that leaves [Run]. *)
Definition verifyTestCase (fs : trees) (location tempDir : string) (tc : TestCase)
  : result (option error) :=
  let goldenDataDir := goldenDataDirOf location tc in
  let tempDataDir := tempDataDirOf tempDir tc in
  fileSet ← addTestFiles fs ∅ goldenDataDir;
  fileSet ← addTestFiles fs fileSet tempDataDir;
  let relPaths := sortedPaths fileSet in
  st ← compareFiles fs goldenDataDir tempDataDir relPaths (None, false);
  stdoutDiff ←
    match getStdoutDiff fs goldenDataDir tempDataDir with
    | Err err => Err (ErrWrap "failed to compare stdout" err)
    | Ok diffs => Ok diffs
    end;
  Ok (finishTestCase tc st stdoutDiff).

(** The loop of [Run] over the test cases: [merr] joins the errors of the
    failed test cases. *)
Fixpoint verifyTestCases (fs : trees) (location tempDir : string)
    (testCases : list TestCase) (merr : option error) : result (option error) :=
  match testCases with
  | [] => Ok merr
  | tc :: rest =>
      tcErr ← verifyTestCase fs location tempDir tc;
      let merr :=
        match tcErr with
        | Some e =>
            errors_Join [merr;
              Some (ErrWrap (red ("[x] golden test " +:+ TestName tc +:+ " fails")) e)]
        | None => merr
        end in
      verifyTestCases fs location tempDir rest merr
  end.

(** [VerifyCommand.Run] once the test cases are parsed and rendered into
    [tempDir]: the error it returns. *)
Definition Run (fs : trees) (location tempDir : string) (testCases : list TestCase)
  : option error :=
  match verifyTestCases fs location tempDir testCases None with
  | Err err => Some err
  | Ok (Some merr) => Some (ErrWrap "golden test verification failure" merr)
  | Ok None => None
  end.

(** The text a side contributes to the comparison of the printed output:
    the contents of its [.abc/stdout], the empty text when that file does
    not exist, and nothing when reading it fails for another reason. *)
Definition stdoutText (fs : trees) (dir : string) : option string :=
  match os_ReadFile fs dir [ABCInternalDir; ABCInternalStdout] with
  | Ok buf => Some buf
  | Err err => if is_ErrNotExist err then Some "" else None
  end.

(** Reading the file at [p] under [dir] fails because it does not exist. *)
Definition absent (fs : trees) (dir p : string) : Prop :=
  ∃ err, os_ReadFile fs dir [p] = Err err ∧ is_ErrNotExist err = true.

(** The file at [p] under [dir] can be read. *)
Definition readable (fs : trees) (dir p : string) : Prop :=
  ∃ contents, os_ReadFile fs dir [p] = Ok contents.

(** The name the messages give to the file at [p] of the golden data. *)
Definition shownFile (dir p : string) : string :=
  TrimSuffix (Join [dir; p]) abcRenameSuffix.

(** The loop can pass [p] without leaving [Run]: no read fails for a
    reason other than the file not existing. *)
Definition settled (fs : trees) (g t p : string) : Prop :=
  absent fs g p ∨ (readable fs g p ∧ (readable fs t p ∨ absent fs t p)).


End Verify.
End verify.

(** ** The report of a golden-test verification *)

Module verify_report.
Import common filepath verify.

Section Report.
Context {fp : filepath.Ops} {deps : Deps}.

(** What one iteration of the loop of [Run] over [relPaths] joins to
    [tcErr] when it does not leave [Run]. *)
Definition pathReport (fs : trees) (g t p : string) : list error :=
  match os_ReadFile fs g [p] with
  | Err _ => [msgNotRecorded (shownFile g p)]
  | Ok goldenContent =>
      match os_ReadFile fs t [p] with
      | Err _ => [msgMissing (shownFile g p)]
      | Ok tempContent =>
          let diffs := DiffMain tempContent goldenContent in
          if hasDiff diffs then [msgContent (shownFile g p) diffs] else []
      end
  end.

(** Whether that iteration sets [outputMismatch]. *)
Definition pathFlag (fs : trees) (g t p : string) : bool :=
  match os_ReadFile fs g [p] with
  | Err _ => true
  | Ok goldenContent =>
      match os_ReadFile fs t [p] with
      | Err _ => false
      | Ok tempContent => hasDiff (DiffMain tempContent goldenContent)
      end
  end.

(** What the comparison of the printed output joins to [tcErr]. *)
Definition stdoutReport (stdoutDiff : list Diff) : list error :=
  if hasDiff stdoutDiff then [msgStdout stdoutDiff] else [].

(** The closing message that suggests the [record] command. *)
Definition hintReport (testName : string) (outputMismatch : bool) : list error :=
  if outputMismatch then [msgMismatch testName] else [].

(** The file at [p] can be read on both sides, with the same contents. *)
Definition agree (fs : trees) (g t p : string) : Prop :=
  ∃ contents,
    os_ReadFile fs g [p] = Ok contents ∧ os_ReadFile fs t [p] = Ok contents.

(** The read error that ends the loop at [p], and the file it names. *)
Definition readFailure (fs : trees) (g t p : string) (err : error) (shown : string)
  : Prop :=
  is_ErrNotExist err = false ∧
  ((os_ReadFile fs g [p] = Err err ∧ shown = shownFile g p) ∨
   (readable fs g p ∧ os_ReadFile fs t [p] = Err err ∧ shown = shownFile t p)).

End Report.
End verify_report.

(** ** The [render] command: the check of the destination *)

Module render_command.
Import templatesource.

(** [%q] of [fmt] ([strconv.Quote]) is a library function, taken as a
    parameter. *)
Class Fmt := { Quote : string → string }.

Section DestOK.
Context {env : Env} {fmt : Fmt}.

(** [destOK] makes sure that the output directory looks sane. *)
Definition destOK (w : World) (dest : string) : option error :=
  match os_Stat w dest with
  | Err err =>
      if common_IsStatNotExistErr err then None
      else Some (ErrWrap ("os.Stat(" +:+ dest +:+ ")") err)
  | Ok fi =>
      if negb (IsDir fi)
      then Some (ErrNew ("the destination " +:+ Quote dest +:+
                         " exists but isn't a directory"))
      else None
  end.

End DestOK.
End render_command.

(** ** Package [goldentest] of the commands: test cases and test directories *)

Module goldentest_common.
Import common filepath model goldentest verify.

(** [TestCase] describes a template golden test case. *)
Record TestCase := mkTestCase {
  TestName : string;
  TestConfig : Test }.

Definition configName : string := "test.yaml".

(** [os.Stat(path)], as far as its error is concerned: [path] is the root
    of one of the trees. *)
Definition os_Stat (fs : trees) (path : string) : option error :=
  match fs !! path with
  | Some _ => None
  | None => Some ErrNotExist
  end.

(** [os.ReadDir(dir)]: the entries of the directory, in the order the tree
    holds them. *)
Definition os_ReadDir (fs : trees) (dir : string)
  : result (list (string * node)) :=
  match fs !! dir with
  | None => Err ErrNotExist
  | Some (Dir entries) => Ok entries
  | Some (File _) => Err ErrNotDir
  | Some Unreadable => Err ErrPermission
  end.

(** Opening the object reached from [n] through [elems]: a file gives its
    contents to the reader, a directory can be opened but not read. *)
Fixpoint open_node (n : node) (elems : list string) : result (result string) :=
  match elems with
  | [] =>
      match n with
      | File contents => Ok (Ok contents)
      | Unreadable => Err ErrPermission
      | Dir _ => Ok (Err ErrIsDir)
      end
  | e :: rest =>
      match n with
      | Dir entries =>
          match find_entry e entries with
          | Some child => open_node child rest
          | None => Err ErrNotExist
          end
      | _ => Err ErrNotDir
      end
  end.

(** [os.Open(filepath.Join(dir, rels...))]: what reading the opened file
    gives.  The path is followed inside the tree rooted at [dir]. *)
Definition os_Open (fs : trees) (dir : string) (rels : list string)
  : result (result string) :=
  match fs !! dir with
  | None => Err ErrNotExist
  | Some n => open_node n (path_elems rels)
  end.

(** The tree [n] without the object reached through [elems]. *)
Fixpoint remove_node (elems : list string) (n : node) : node :=
  match elems with
  | [] => n
  | [e] =>
      match n with
      | Dir entries => Dir (filter (λ entry, entry.1 ≠ e) entries)
      | _ => n
      end
  | e :: rest =>
      match n with
      | Dir entries =>
          Dir ((λ entry, if String.eqb entry.1 e
                         then (entry.1, remove_node rest entry.2)
                         else entry) <$> entries)
      | _ => n
      end
  end.

(** The trees after a successful [os.RemoveAll(filepath.Join(dir,
    rels...))]; removing what does not exist changes nothing. *)
Definition removed (fs : trees) (dir : string) (rels : list string) : trees :=
  match path_elems rels with
  | [] => delete dir fs
  | elems =>
      match fs !! dir with
      | Some n => <[dir := remove_node elems n]> fs
      | None => fs
      end
  end.

(** What the package takes from elsewhere: the decoder of test
    configurations [goldentest.DecodeTest], which is given what reading
    the opened file gives; [os.RemoveAll], which can fail; and the [render]
    command, run with its arguments. *)
Class Deps := {
  DecodeTest : result string → result Test;
  os_RemoveAll : trees → string → list string → result trees;
  render_Run : trees → list string → result trees }.

(** The contract of [os.RemoveAll]: when it succeeds, the object is
    removed. *)
Class DepsLawful (deps : Deps) : Prop := {
  os_RemoveAll_Ok : ∀ fs dir rels fs',
    os_RemoveAll fs dir rels = Ok fs' → fs' = removed fs dir rels }.

Section Common.
Context {fp : filepath.Ops} {deps : Deps}.

(** [parseTestConfig] reads a configuration yaml and returns the result;
    it is called with the path [filepath.Join(dir, rels...)]. *)
Definition parseTestConfig (fs : trees) (dir : string) (rels : list string)
  : result Test :=
  match os_Open fs dir rels with
  | Err err =>
      Err (ErrWrap ("error opening test config (" +:+ Join (dir :: rels) +:+ ")") err)
  | Ok f =>
      match DecodeTest f with
      | Err err => Err (ErrWrap "error reading golden test config file" err)
      | Ok test => Ok test
      end
  end.

(** The loop of [parseTestCases] over the entries of the golden test
    directory. *)
Fixpoint parseEntries (fs : trees) (testDir : string)
    (entries : list (string * node)) (testCases : list TestCase)
  : result (list TestCase) :=
  match entries with
  | [] => Ok testCases
  | entry :: rest =>
      if negb (is_dir entry.2)
      then Err (ErrNew ("unexpected file entry under golden test directory: "
                        +:+ entry.1))
      else
        test ← parseTestConfig fs testDir [entry.1; configName];
        parseEntries fs testDir rest
          (testCases ++ [ {| TestName := entry.1; TestConfig := test |} ])
  end.

(** [parseTestCases] returns a list of test cases to record or verify. *)
Definition parseTestCases (fs : trees) (location testName : string)
  : result (list TestCase) :=
  match os_Stat fs location with
  | Some err =>
      Err (ErrWrap ("error reading template directory (" +:+ location +:+ ")") err)
  | None =>
      let testDir := Join [location; goldenTestDir] in
      if negb (is_empty testName)
      then
        test ← parseTestConfig fs testDir [testName; configName];
        Ok [ {| TestName := testName; TestConfig := test |} ]
      else
        match os_ReadDir fs testDir with
        | Err err =>
            Err (ErrWrap ("error reading golden test directory (" +:+ testDir
                          +:+ ")") err)
        | Ok entries => parseEntries fs testDir entries []
        end
  end.

(** The loop of [clearTestDir] over the entries it has read. *)
Fixpoint removeOutdated (fs : trees) (dir : string)
    (files : list (string * node)) : result trees :=
  match files with
  | [] => Ok fs
  | file :: rest =>
      if negb (String.eqb file.1 configName)
      then
        match os_RemoveAll fs dir [file.1] with
        | Err err => Err (ErrWrap "failed to remove outdated test artifact" err)
        | Ok fs' => removeOutdated fs' dir rest
        end
      else removeOutdated fs dir rest
  end.

(** [clearTestDir] clears a test directory and only keeps the test config
    file. *)
Definition clearTestDir (fs : trees) (dir : string) : result trees :=
  match os_ReadDir fs dir with
  | Err err =>
      if is_ErrNotExist err then Ok fs
      else Err (ErrWrap "failed to read test dir" err)
  | Ok files => removeOutdated fs dir files
  end.

(** The arguments [renderTestCase] gives to the [render] command. *)
Definition renderArgs (templateDir testDir : string) (tc : TestCase)
  : list string :=
  fold_left
    (λ args input,
       (args ++ ["--input"]) ++
       [Val (Name input) +:+ "=" +:+ Val (Value input)])
    (Inputs (TestConfig tc))
    ["--dest"; testDir; "--force-overwrite"]
  ++ [templateDir].

(** [renderTestCase] executes the [template render] command based upon
    the test config. *)
Definition renderTestCase (fs : trees) (templateDir outputDir : string)
    (tc : TestCase) : result trees :=
  let testDir := Join [outputDir; goldenTestDir; TestName tc] in
  match clearTestDir fs testDir with
  | Err err => Err (ErrWrap "failed to clear test directory" err)
  | Ok fs1 =>
      match render_Run fs1 (renderArgs templateDir testDir tc) with
      | Err err => Err (ErrWrap "error running `templates render` command" err)
      | Ok fs2 => Ok fs2
      end
  end.

(** The test configuration file is the only entry kept. *)
Definition kept (entries : list (string * node)) : list (string * node) :=
  filter (λ entry, entry.1 = configName) entries.

(** The entry of the golden test directory gives the test case: it is a
    directory, it names the test, and its configuration file is parsed
    into the test's configuration. *)
Definition parsedFrom (fs : trees) (testDir : string)
    (entry : string * node) (tc : TestCase) : Prop :=
  is_dir entry.2 = true ∧ TestName tc = entry.1 ∧
  parseTestConfig fs testDir [entry.1; configName] = Ok (TestConfig tc).

End Common.
End goldentest_common.

(** ** Package [testutil]: the minimal git repository of the tests *)

Module testutil.

(** [encoding/hex]: the value of a hexadecimal digit. *)
Definition fromHexChar (c : ascii) : option N :=
  let n := N_of_ascii c in
  if (48 <=? n)%N && (n <=? 57)%N then Some (n - 48)%N
  else if (97 <=? n)%N && (n <=? 102)%N then Some (n - 97 + 10)%N
  else if (65 <=? n)%N && (n <=? 70)%N then Some (n - 65 + 10)%N
  else None.

(** [hex.DecodeString]: two digits give one byte; a digit that is left over
    or a character that is not a digit is an error. *)
Fixpoint hex_DecodeString (s : string) : result string :=
  match s with
  | "" => Ok ""
  | String a "" =>
      match fromHexChar a with
      | Some _ => Err (ErrNew "encoding/hex: odd length hex string")
      | None => Err (ErrNew "encoding/hex: invalid byte")
      end
  | String a (String b rest) =>
      match fromHexChar a, fromHexChar b with
      | Some x, Some y =>
          out ← hex_DecodeString rest;
          Ok (String (ascii_of_N (x * 16 + y)) out)
      | _, _ => Err (ErrNew "encoding/hex: invalid byte")
      end
  end.

(** [mustHexDecode]: its panic is the error case here. *)
Definition mustHexDecode (s : string) : result string :=
  match hex_DecodeString s with
  | Err err => Err err
  | Ok out => Ok out
  end.

(** The two git objects of the repository, in hexadecimal. *)
Definition treeObjectHex : string := "0178292b4d4a305500600a00022c0001".

Definition commitObjectHex : string :=
  "78019d914d739b3010867bd6afd03d9354603e67d24cc0c802078bd898187303" +:+
  "2104359806833ffaeb6bec53333df59dd1eceaddd9d5332bd6364dd54355d7bf" +:+
  "f51de750c90c59cd99a6c82cd37866a648435c55b2c2c83553368c22e35c3191" +:+
  "02d2a12fdb0e3ae991c3153ff2ba86cfdd2dbe8ab615357f626df302251dc9aa" +:+
  "a99b86021f918110b8bad7077bfe1fade2973854023e8eb231f1280c4317861e" +:+
  "a1d63a5ae19b0f6024512f42b56b8d5a5e0f1163b64e3674c764dc33b92c1795" +:+
  "34a43145ccf1247a2b977fdf318018fbce7c88f1bea352a11dd06c57bba22c4a" +:+
  "69714a97796bbbbf4fca776d9b4ec874b3db063f07c50fd1d4cf2717711e3ccc" +:+
  "e28e27db1ac06563485e22375d1318ec3370d969c4a1fb341ee1eeb2f7b4ddae" +:+
  "a3f36264218bd1fcc20be017627cc316a1f941cefa8cc9c99a56d3f9e72e0e8a" +:+
  "120b7d535fb2617e5e09e437b3556e3d5cf038550038b536d2c12dfc217a1f2e" +:+
  "ce2c1fde6c8d90d275ec846312906515549363f7a0f6d60f705f36a6cebf560d" +:+
  "bc7dd557690def7f0afe007d0bb2a9".

(** The initialisation of the package variable [minimalGitRepoFiles]. *)
Definition minimalGitRepoFiles_init : result (gmap string string) :=
  treeObject ← mustHexDecode treeObjectHex;
  commitObject ← mustHexDecode commitObjectHex;
  Ok {[ ".git/refs/heads/main" := "5597fc600ead69ad92c81a22b58c9e551cd86b9a";
        ".git/objects/4b/825dc642cb6eb9a060e54bf8d69288fbee4904" := treeObject;
        ".git/objects/55/97fc600ead69ad92c81a22b58c9e551cd86b9a" := commitObject;
        ".git/HEAD" := "ref: refs/heads/main" ]}.

(** A minimal but actually valid [.git] directory; the program does not
    start when the initialisation panics. *)
Definition minimalGitRepoFiles : gmap string string :=
  match minimalGitRepoFiles_init with
  | Ok files => files
  | Err _ => ∅
  end.

(** [strings.HasSuffix(s, suffix)]. *)
Definition HasSuffix (s suffix : string) : bool :=
  let n := String.length s in
  let k := String.length suffix in
  (k <=? n)%nat && String.eqb (String.substring (n - k) k s) suffix.

(** The prefix [WithGitRepoAt] puts before each file name. *)
Definition dirPrefix (prefix : string) : string :=
  if negb (is_empty prefix) && negb (HasSuffix prefix "/")
  then prefix +:+ "/"
  else prefix.

(** One iteration of the loop of [WithGitRepoAt] over the git files. *)
Definition addGitFile (prefix : string) (out : gmap string string)
    (kv : string * string) : gmap string string :=
  let newKey := prefix +:+ kv.1 in
  match out !! newKey with
  | Some _ => out                      (* don't overwrite existing entries *)
  | None => <[newKey := kv.2]> out
  end.

(** [WithGitRepoAt] adds to the given map the files of a minimal git
    repo.  [order] is the order in which [range] visits the entries of
    [minimalGitRepoFiles], which Go leaves unspecified.  A nil map is the
    empty map here; the input map is cloned, not changed. *)
Definition WithGitRepoAt (order : list (string * string))
    (prefix : string) (m : gmap string string) : gmap string string :=
  let prefix := dirPrefix prefix in
  let out := m in
  fold_left (addGitFile prefix) order out.

(** A possible order of the visit: each entry of [minimalGitRepoFiles]
    once. *)
Definition visits (order : list (string * string)) : Prop :=
  order ≡ₚ map_to_list minimalGitRepoFiles.

(** *** Loading the contents of a directory *)

Record ModeAndContents := mkModeAndContents {
  Mode : N;
  Contents : string }.

Section Load.

(** The permissions [d.Info()] reports for the file at a path relative to
    a directory: the trees do not hold them, they are taken as a
    parameter. *)
Variable fileMode : verify.trees → string → string → N.

(** The callback [LoadDirContents] gives to the walk; as in
    [verify.addTestFiles_fn] it receives the path relative to [dir], which
    the program computes with [filepath.Rel]. *)
Definition LoadDirContents_fn (fs : verify.trees) (dir : string)
  : verify.WalkDirFunc (gmap string ModeAndContents) :=
  λ rel d err out,
    match err with
    | Some e => (out, verify.WalkErr e)
    | None =>
        if default false d then (out, verify.WalkOk)
        else
          match verify.os_ReadFile fs dir [rel] with
          | Err e => (out, verify.WalkErr (ErrWrap "ReadFile()" e))
          | Ok contents =>
              (<[rel := {| Mode := fileMode fs dir rel; Contents := contents |}]> out,
               verify.WalkOk)
          end
    end.

(** [LoadDirContents] reads all the files recursively under [dir],
    returning their contents as a map from file name to contents; [Ok
    None] is the nil map it returns when [dir] does not exist, and [Err]
    stands for [t.Fatal]. *)
Definition LoadDirContents (fs : verify.trees) (dir : string)
  : result (option (gmap string ModeAndContents)) :=
  match fs !! dir with
  | None => Ok None
  | Some _ =>
      match verify.WalkDir fs dir (LoadDirContents_fn fs dir) ∅ with
      | (_, Some err) => Err (ErrWrap "WalkDir()" err)
      | (out, None) => Ok (Some out)
      end
  end.

(** [LoadDirWithoutMode]: the same without the file modes. *)
Definition LoadDirWithoutMode (fs : verify.trees) (dir : string)
  : result (option (gmap string string)) :=
  match LoadDirContents fs dir with
  | Err err => Err err
  | Ok None => Ok None
  | Ok (Some withMode) => Ok (Some (Contents <$> withMode))
  end.

(** Loading the files at [paths], in order, until a read fails. *)
Fixpoint loadPaths (fs : verify.trees) (dir : string) (paths : list string)
    (out : gmap string ModeAndContents)
  : gmap string ModeAndContents * verify.walkResult :=
  match paths with
  | [] => (out, verify.WalkOk)
  | p :: rest =>
      match verify.os_ReadFile fs dir [p] with
      | Err e => (out, verify.WalkErr (ErrWrap "ReadFile()" e))
      | Ok contents =>
          loadPaths fs dir rest
            (<[p := {| Mode := fileMode fs dir p; Contents := contents |}]> out)
      end
  end.

End Load.

(** *** Writing files *)

(** A new directory entry: the directories [elems] one below the other,
    down to [leaf]. *)
Definition fresh_dirs (elems : list string) (leaf : verify.node) : verify.node :=
  fold_right (λ e n, verify.Dir [(e, n)]) leaf elems.

(** The entries with the first entry named [name] now holding [child]. *)
Fixpoint replace_entry (name : string) (child : verify.node)
    (entries : list (string * verify.node)) : list (string * verify.node) :=
  match entries with
  | [] => []
  | entry :: rest =>
      if String.eqb entry.1 name then (entry.1, child) :: rest
      else entry :: replace_entry name child rest
  end.

(** [os.MkdirAll] below [n]: the directories through [elems] that do not
    exist are created; a file on the way is an error. *)
Fixpoint mkdir_node (elems : list string) (n : verify.node)
  : result verify.node :=
  match n with
  | verify.Dir entries =>
      match elems with
      | [] => Ok n
      | e :: rest =>
          match verify.find_entry e entries with
          | Some child =>
              child' ← mkdir_node rest child;
              Ok (verify.Dir (replace_entry e child' entries))
          | None =>
              Ok (verify.Dir (entries ++ [(e, fresh_dirs rest (verify.Dir []))]))
          end
      end
  | _ => Err ErrNotDir
  end.

(** [os.WriteFile] below [n]: the file reached through [elems] is created
    in its directory, which has to exist, or overwritten. *)
Fixpoint writeFile_node (elems : list string) (contents : string)
    (n : verify.node) : result verify.node :=
  match elems with
  | [] =>
      match n with
      | verify.File _ => Ok (verify.File contents)
      | verify.Unreadable => Err ErrPermission
      | verify.Dir _ => Err ErrIsDir
      end
  | e :: rest =>
      match n with
      | verify.Dir entries =>
          match verify.find_entry e entries with
          | Some child =>
              child' ← writeFile_node rest contents child;
              Ok (verify.Dir (replace_entry e child' entries))
          | None =>
              match rest with
              | [] => Ok (verify.Dir (entries ++ [(e, verify.File contents)]))
              | _ => Err ErrNotExist
              end
          end
      | _ => Err ErrNotDir
      end
  end.

(** [os.Chmod] below [n]: a file stays readable when the new mode lets its
    owner read it.  The trees hold no other permission, and a file whose
    read was refused stays so. *)
Fixpoint chmod_node (elems : list string) (readable : bool)
    (n : verify.node) : result verify.node :=
  match elems with
  | [] =>
      match n with
      | verify.File contents =>
          Ok (if readable then verify.File contents else verify.Unreadable)
      | _ => Ok n
      end
  | e :: rest =>
      match n with
      | verify.Dir entries =>
          match verify.find_entry e entries with
          | Some child =>
              child' ← chmod_node rest readable child;
              Ok (verify.Dir (replace_entry e child' entries))
          | None => Err ErrNotExist
          end
      | _ => Err ErrNotDir
      end
  end.

(** [filepath.Dir] of the path through [elems] below the root: the
    directory of the root itself lies outside the tree. *)
Definition dirElems (elems : list string) : option (list string) :=
  match elems with
  | [] => None
  | _ => Some (removelast elems)
  end.

(** [os.MkdirAll(dir, 0o700)] for a directory at or below [root]; the
    root is created when it does not exist. *)
Definition os_MkdirAll (fs : verify.trees) (root : string)
    (dir : option (list string)) : result verify.trees :=
  match dir with
  | None => Ok fs
  | Some elems =>
      n ← mkdir_node elems (default (verify.Dir []) (fs !! root));
      Ok (<[root := n]> fs)
  end.

(** [os.WriteFile(fullPath, contents, mode)]. *)
Definition os_WriteFile (fs : verify.trees) (root : string)
    (elems : list string) (contents : string) : result verify.trees :=
  match fs !! root with
  | None =>
      match elems with
      | [] => Ok (<[root := verify.File contents]> fs)
      | _ => Err ErrNotExist
      end
  | Some n =>
      n' ← writeFile_node elems contents n;
      Ok (<[root := n']> fs)
  end.

(** [os.Chmod(fullPath, mode)]: the owner may read with the bit 0o400. *)
Definition os_Chmod (fs : verify.trees) (root : string)
    (elems : list string) (mode : N) : result verify.trees :=
  match fs !! root with
  | None => Err ErrNotExist
  | Some n =>
      n' ← chmod_node elems (N.testbit mode 8) n;
      Ok (<[root := n']> fs)
  end.

(** The body of the loop of [WriteAll]; [Err] stands for [t.Fatalf].  The
    full path [filepath.Join(root, path)] is followed below [root] (a
    path with [..] is not modelled). *)
Definition writeOne (root : string) (fs : verify.trees)
    (file : string * ModeAndContents) : result verify.trees :=
  let fullPath := verify.path_elems [file.1] in
  let dir := dirElems fullPath in
  match os_MkdirAll fs root dir with
  | Err err => Err (ErrWrap "MkdirAll" err)
  | Ok fs1 =>
      match os_WriteFile fs1 root fullPath (Contents file.2) with
      | Err err => Err (ErrWrap "WriteFile" err)
      | Ok fs2 =>
          match os_Chmod fs2 root fullPath (Mode file.2) with
          | Err err => Err (ErrWrap "Chmod()" err)
          | Ok fs3 => Ok fs3
          end
      end
  end.

Fixpoint writeFiles (root : string) (files : list (string * ModeAndContents))
    (fs : verify.trees) : result verify.trees :=
  match files with
  | [] => Ok fs
  | file :: rest => fs' ← writeOne root fs file; writeFiles root rest fs'
  end.

Section Write.

(** The order in which [range] visits the entries of a map, which Go
    leaves unspecified. *)
Variable range : gmap string ModeAndContents → list (string * ModeAndContents).

(** [WriteAll] saves the given file contents with the given permissions. *)
Definition WriteAll (root : string) (files : gmap string ModeAndContents)
    (fs : verify.trees) : result verify.trees :=
  writeFiles root (range files) fs.

(** [WriteAllDefaultMode] wraps [WriteAll] and sets file permissions to
    0600. *)
Definition WriteAllDefaultMode (root : string) (files : gmap string string)
    (fs : verify.trees) : result verify.trees :=
  let withMode :=
    (λ contents, {| Mode := 384; Contents := contents |}) <$> files in
  WriteAll root withMode fs.

End Write.

(** A key that names a file below the root: the path through one or more
    names that directory entries can have. *)
Definition relativeKey (key : string) : Prop :=
  ∃ elems, elems ≠ [] ∧ Forall (λ e, verify.valid_name e = true) elems ∧
           key = verify.path_of elems.

(** The files of [n] are among the keys of [m], and every key of [m] can
    be read from [n] with the contents [m] gives. *)
Definition holds (n : verify.node) (m : gmap string string) : Prop :=
  (∀ p, p ∈ verify.file_paths "." n → is_Some (m !! p)) ∧
  (∀ p contents, m !! p = Some contents →
     verify.read_node n (verify.path_elems [p]) = Ok contents).

(** The map that holds what the files written give, added to [m]. *)
Definition written (files : list (string * ModeAndContents))
    (m : gmap string string) : gmap string string :=
  fold_left (λ m file, <[file.1 := Contents file.2]> m) files m.

End testutil.

(** ** Instances used by the examples *)

Module examples.
Import filepath templatesource.

(** A machine with one git repository at [/repo] whose head is
    [MinimalGitHeadSHA] (the commit of [testutil.minimalGitRepoFiles]); it
    holds the template directory [/repo/t/foo] and the file
    [/repo/README.md]. *)
Definition MinimalGitHeadSHA : string := "5597fc600ead69ad92c81a22b58c9e551cd86b9a".

Definition repoEnv : Env :=
  {| World := unit;
     os_Stat := λ _ p,
       if String.eqb p "/repo/t/foo" then Ok {| IsDir := true |}
       else if String.eqb p "/repo/README.md" then Ok {| IsDir := false |}
       else Err ErrNotExist;
     common_IsStatNotExistErr := λ e, is_ErrNotExist e || is_ErrInvalid e;
     common_CopyRecursive := λ w _ _, Ok w;
     gitTemplateVars := λ _ _,
       Ok {| GitTag := ""; GitSHA := MinimalGitHeadSHA;
             GitShortSHA := "5597fc6" |};
     git_Workspace := λ _ p,
       if HasPrefix p "/repo/" then Ok ("/repo", true) else Ok ("", false);
     gitCanonicalVersion := λ _ _ _, Ok (MinimalGitHeadSHA, true) |}.

(** A small expander: the text [{{.name}}] expands to the value of [name]
    in the scope, any other text to itself. *)
Definition toyExpander : render.Expander :=
  {| render.Scope := gmap string string;
     render.parseAndExecuteGoTmpl := λ _ val sc,
       let n := String.length val in
       if HasPrefix val "{{." && String.eqb (String.substring (n - 2) 2 val) "}}"
       then match sc !! String.substring 3 (n - 5) val with
            | Some v => Ok v
            | None => Err (ErrNew "undefined variable")
            end
       else Ok val |}.

(** The directory hash that the tests of the manifest writer expect for
    their template. *)
Definition testHasher : manifest.Hasher :=
  {| manifest.HashDir := λ _ _, Ok "h1:uh/nUYc3HpipWEon9kYOsvSrEadfu8Q9TdfBuHcnF3o=" |}.

(** The clock of the tests: 15:59:02.000000013 on 8 December 2023 in Los
    Angeles, eight hours west of UTC. *)
Definition mockClock : time.Time := time.Date 2023 12 8 15 59 2 13 (-28800).

(** The parameters of the test cases of [TestWriteManifest]. *)
Definition testParams (dry : bool) (meta : templatesource.DownloadMetadata)
  : manifest.writeManifestParams :=
  {| manifest.clock := mockClock;
     manifest.destDir := "/dest";
     manifest.dlMeta := meta;
     manifest.dryRun := dry;
     manifest.wm_inputs := {[ "pizza" := "hawaiian"; "pineapple" := "deal with it" ]};
     manifest.outputHashes := {[ "a.txt" := "fake_output_hash_32_bytes_sha256" ]};
     manifest.templateDir := "/template" |}.

Definition noVars : DownloaderVars :=
  {| GitTag := ""; GitSHA := ""; GitShortSHA := "" |}.

Definition nonCanonicalMeta : DownloadMetadata :=
  {| IsCanonical := false; CanonicalSource := ""; LocationType := "";
     HasVersion := false; Version := ""; Vars := noVars |}.

Definition canonicalMeta : DownloadMetadata :=
  {| IsCanonical := true; CanonicalSource := "github.com/foo/bar";
     LocationType := "remote_git";
     HasVersion := true; Version := "v1.2.3"; Vars := noVars |}.

Definition testFiles : gmap string string := {[ "/dest/a.txt" := "some other stuff" ]}.

(** A differ that reports equal texts as one equal run and different texts
    as a deletion followed by an insertion, without colours. *)
Definition plainDeps : verify.Deps :=
  {| verify.DiffMain := λ a b,
       if decide (a = b) then [verify.mkDiff verify.DiffEqual a]
       else [verify.mkDiff verify.DiffDelete a; verify.mkDiff verify.DiffInsert b];
     verify.DiffPrettyText := λ diffs, String.concat "" (verify.Text <$> diffs);
     verify.red := id;
     verify.green := id |}.

(** A template at [/tpl] with the golden test [basic], rendered again under
    [/tmp/r]: the render lacks [b.txt], has the new file [c.txt], and
    prints what was recorded. *)
Definition goldenTrees : gmap string verify.node :=
  {[ "/tpl/testdata/golden/basic/data" :=
       verify.Dir [ (".abc", verify.Dir [("stdout", verify.File "hello")]);
                    ("a.txt", verify.File "A");
                    ("b.txt", verify.File "B") ];
     "/tmp/r/testdata/golden/basic/data" :=
       verify.Dir [ (".abc", verify.Dir [("stdout", verify.File "hello")]);
                    ("a.txt", verify.File "A");
                    ("c.txt", verify.File "C") ] ]}.

Definition fooParams : ParseSourceParams :=
  {| CWD := "/repo"; Source := "t/foo"; GitProtocol := "https" |}.

Definition fooDownloader : LocalDownloader :=
  {| SrcPath := "/repo/t/foo"; allowDirty := false |}.

Definition fooMeta : DownloadMetadata :=
  {| IsCanonical := true; CanonicalSource := "../t/foo";
     LocationType := "local_git";
     HasVersion := true; Version := MinimalGitHeadSHA;
     Vars := {| GitTag := ""; GitSHA := MinimalGitHeadSHA;
                GitShortSHA := "5597fc6" |} |}.

(** The manifest the test [simple_success_non_canonical] expects. *)
Definition expectedNonCanonical : string :=
  common.DoNotModifyHeader +:+
  "api_version: cli.abcxyz.dev/v1beta3" +:+ newline +:+
  "kind: Manifest" +:+ newline +:+
  "creation_time: 2023-12-08T23:59:02.000000013Z" +:+ newline +:+
  "modification_time: 2023-12-08T23:59:02.000000013Z" +:+ newline +:+
  "template_location: " +:+ dquote +:+ dquote +:+ newline +:+
  "location_type: " +:+ dquote +:+ dquote +:+ newline +:+
  "template_version: " +:+ dquote +:+ dquote +:+ newline +:+
  "template_dirhash: h1:uh/nUYc3HpipWEon9kYOsvSrEadfu8Q9TdfBuHcnF3o=" +:+ newline +:+
  "inputs:" +:+ newline +:+
  "    - name: pineapple" +:+ newline +:+
  "      value: deal with it" +:+ newline +:+
  "    - name: pizza" +:+ newline +:+
  "      value: hawaiian" +:+ newline +:+
  "output_hashes:" +:+ newline +:+
  "    - file: a.txt" +:+ newline +:+
  "      hash: h1:ZmFrZV9vdXRwdXRfaGFzaF8zMl9ieXRlc19zaGEyNTY=" +:+ newline.

(** The golden test [same] of the template at [/tpl], rendered again under
    [/tmp/r] with the same files; only the render has a (still empty)
    record of the printed output. *)
Definition passingTrees : gmap string verify.node :=
  {[ "/tpl/testdata/golden/same/data" :=
       verify.Dir [ ("a.txt", verify.File "A");
                    ("d", verify.Dir [(".gitignore.abc_renamed", verify.File "x")]) ];
     "/tmp/r/testdata/golden/same/data" :=
       verify.Dir [ (".abc", verify.Dir [("stdout", verify.File "")]);
                    ("a.txt", verify.File "A");
                    ("d", verify.Dir [(".gitignore.abc_renamed", verify.File "x")]) ] ]}.

(** The golden test [basic] of [goldenTrees] together with the golden test
    [locked], whose rendered file [b.txt] cannot be read. *)
Definition lockedTrees : gmap string verify.node :=
  <[ "/tpl/testdata/golden/locked/data" :=
       verify.Dir [ ("a.txt", verify.File "A"); ("b.txt", verify.File "B") ] ]>
  (<[ "/tmp/r/testdata/golden/locked/data" :=
       verify.Dir [ ("a.txt", verify.File "changed"); ("b.txt", verify.Unreadable) ] ]>
   goldenTrees).

(** A decoder that takes any text but the empty one as a configuration
    without inputs; removals that always succeed; and a [render] command
    that leaves the trees as they are. *)
Definition plainCommonDeps : goldentest_common.Deps :=
  {| goldentest_common.DecodeTest := λ f,
       match f with
       | Ok buf =>
           if is_empty buf then Err (ErrNew "EOF")
           else Ok {| goldentest.t_Pos := mkPos 1 1; goldentest.Inputs := [] |}
       | Err err => Err err
       end;
     goldentest_common.os_RemoveAll := λ fs dir rels,
       Ok (goldentest_common.removed fs dir rels);
     goldentest_common.render_Run := λ fs _, Ok fs |}.

(** The template at [/tpl] with the golden tests [basic] and [other]; a
    second template at [/tpl2] whose golden test directory also holds a
    file. *)
Definition testCaseTrees : gmap string verify.node :=
  {[ "/tpl" := verify.Dir [("spec.yaml", verify.File "kind: Template");
                           ("testdata", verify.Dir [])];
     "/tpl/testdata/golden" :=
       verify.Dir [ ("basic", verify.Dir [ ("data", verify.Dir [("a.txt", verify.File "A")]);
                                           ("test.yaml", verify.File "inputs: []") ]);
                    ("other", verify.Dir [ ("test.yaml", verify.File "inputs: []") ]) ];
     "/tpl/testdata/golden/basic" :=
       verify.Dir [ ("data", verify.Dir [("a.txt", verify.File "A")]);
                    ("test.yaml", verify.File "inputs: []") ];
     "/tpl2" := verify.Dir [("testdata", verify.Dir [])];
     "/tpl2/testdata/golden" :=
       verify.Dir [ ("basic", verify.Dir [ ("test.yaml", verify.File "inputs: []") ]);
                    ("notes.txt", verify.File "to do");
                    ("other", verify.Dir [ ("test.yaml", verify.File "inputs: []") ]) ] ]}.

End examples.

(* ===================================================================== *)
(** * Part II: properties *)
(* ===================================================================== *)

(** ** Errors *)

Lemma flat_map_leaves_omap (errs : list (option error)) :
  flat_map leaves (omap id errs) = flat_map leaves_opt errs.
Proof.
  induction errs as [|[e|] errs IH]; simpl; [done| |done].
  f_equal. exact IH.
Qed.

(** The leaves of a join are the leaves of its arguments, in order. *)
Lemma leaves_errors_Join (errs : list (option error)) :
  leaves_opt (errors_Join errs) = flat_map leaves_opt errs.
Proof.
  unfold errors_Join. rewrite <- flat_map_leaves_omap.
  by destruct (omap id errs).
Qed.

Lemma omap_id_nil (errs : list (option error)) :
  omap id errs = [] ↔ Forall (λ e, e = None) errs.
Proof.
  induction errs as [|[e|] errs IH]; simpl.
  - split; [constructor|done].
  - split; [done|]. intros H. apply Forall_cons in H as [H _]. done.
  - rewrite Forall_cons. fold (omap (M:=list) id errs). rewrite IH. tauto.
Qed.

Lemma errors_Join_None (errs : list (option error)) :
  errors_Join errs = None ↔ Forall (λ e, e = None) errs.
Proof.
  rewrite <- omap_id_nil. unfold errors_Join.
  destruct (omap id errs); naive_solver.
Qed.

(** Joining a non-nil error gives a non-nil error. *)
Lemma errors_Join_Some_r (e1 : option error) (e2 : error) :
  errors_Join [e1; Some e2] ≠ None.
Proof.
  rewrite errors_Join_None. intros H.
  apply Forall_cons in H as [_ H]. apply Forall_cons in H as [H _]. done.
Qed.

(** ** Fallible results *)

Lemma bind_Ok {A B} (r : result A) (k : A → result B) (b : B) :
  r ≫= k = Ok b → ∃ a, r = Ok a ∧ k a = Ok b.
Proof.
  unfold mbind, result_bind. destruct r as [a|e]; simpl; [|done].
  intros H. by exists a.
Qed.

Lemma bind_Err {A B} (r : result A) (k : A → result B) (e : error) :
  r ≫= k = Err e → r = Err e ∨ ∃ a, r = Ok a ∧ k a = Err e.
Proof.
  unfold mbind, result_bind. destruct r as [a|e']; simpl; intros H.
  - right. by exists a.
  - left. by injection H as ->.
Qed.

(** ** Golden-test configuration: validation collects every violation *)

Module goldentest_facts.
Import model goldentest.

Lemma leaves_ValidateEach {T} (V : T → option error) (s : list T) (merr : option error) :
  leaves_opt (fold_left (λ merr v, errors_Join [merr; V v]) s merr)
  = leaves_opt merr ++ flat_map (λ v, leaves_opt (V v)) s.
Proof.
  revert merr. induction s as [|v s IH]; intros merr; simpl.
  - by rewrite app_nil_r.
  - rewrite IH, leaves_errors_Join. simpl. by rewrite app_nil_r, <- app_assoc.
Qed.

Lemma leaves_NotZeroModel pos x fieldName :
  leaves_opt (NotZeroModel pos x fieldName) = required pos x fieldName.
Proof. unfold NotZeroModel, required. by destruct (is_empty (Val x)). Qed.

Lemma leaves_VarValue_Validate (i : VarValue) :
  leaves_opt (VarValue_Validate i)
  = required (vv_Pos i) (Name i) "name" ++ required (vv_Pos i) (Value i) "value".
Proof.
  unfold VarValue_Validate. rewrite leaves_errors_Join. simpl.
  by rewrite !leaves_NotZeroModel, app_nil_r.
Qed.

(** C8. Validating a golden-test input entry collects every field-level
    violation: the error of [VarValue.Validate] carries the violation of
    the name field followed by the violation of the value field, so an entry
    with both fields empty reports the two violations together; and
    [Test.Validate] carries the violations of all its input entries, in
    order. *)
Theorem Validate_collects_all_violations :
  (∀ i : VarValue,
     leaves_opt (VarValue_Validate i)
     = required (vv_Pos i) (Name i) "name" ++ required (vv_Pos i) (Value i) "value") ∧
  (∀ pos name value,
     VarValue_Validate (mkVarValue pos (mkString name "") (mkString value ""))
     = Some (ErrJoin [ErrRequired pos "name"; ErrRequired pos "value"])) ∧
  (∀ t : Test,
     leaves_opt (Test_Validate t)
     = flat_map (λ i, leaves_opt (VarValue_Validate i)) (Inputs t)).
Proof.
  split; [apply leaves_VarValue_Validate|]. split; [done|].
  intros t. unfold Test_Validate, ValidateEach.
  rewrite leaves_errors_Join. simpl. rewrite app_nil_r.
  by rewrite leaves_ValidateEach.
Qed.

Lemma Validate_collects_all_violations_witness :
  VarValue_Validate (mkVarValue (mkPos 3 5) (mkString (mkPos 3 5) "")
                       (mkString (mkPos 3 11) ""))
  = Some (ErrJoin [ErrRequired (mkPos 3 5) "name"; ErrRequired (mkPos 3 5) "value"]).
Proof.
  exact (proj1 (proj2 Validate_collects_all_violations)
           (mkPos 3 5) (mkPos 3 5) (mkPos 3 11)).
Defined.

(** A test with a complete entry, an entry without a value and an entry
    with neither name nor value: three violations are reported. *)
Example Test_Validate_example :
  let p1 := mkPos 2 5 in let p2 := mkPos 4 5 in let p3 := mkPos 6 5 in
  leaves_opt (Test_Validate (mkTest (mkPos 1 1)
    [ mkVarValue p1 (mkString p1 "a") (mkString p1 "1");
      mkVarValue p2 (mkString p2 "b") (mkString p2 "");
      mkVarValue p3 (mkString p3 "") (mkString p3 "") ]))
  = [ErrRequired p2 "value"; ErrRequired p3 "name"; ErrRequired p3 "value"].
Proof. reflexivity. Qed.

End goldentest_facts.

(** ** The Unix instance of [path/filepath] keeps the contract *)

Module filepath_facts.
Import filepath.

Lemma is_empty_false (s : string) : is_empty s = false → s ≠ "".
Proof. unfold is_empty. intros H ->. done. Qed.

Lemma split_slash_not_nil (s : string) : split_slash s ≠ [].
Proof.
  induction s as [|c s IH]; simpl; [done|].
  destruct (Ascii.eqb c slash); [done|]. by destruct (split_slash s).
Qed.

Lemma HasPrefix_slash_cons (c : ascii) (s : string) :
  HasPrefix (String c s) "/" = Ascii.eqb c slash.
Proof.
  unfold HasPrefix.
  change (String.prefix "/" (String c s))
    with (if ascii_dec "/" c then String.prefix "" s else false).
  destruct (ascii_dec "/" c) as [<-|Hne].
  - by destruct s.
  - symmetry. apply Ascii.eqb_neq. unfold slash. by intros ->.
Qed.

Lemma split_slash_no_leading_slash (s : string) :
  Forall (λ e, HasPrefix e "/" = false) (split_slash s).
Proof.
  induction s as [|c s IH]; simpl.
  - by repeat constructor.
  - destruct (Ascii.eqb c slash) eqn:Hc.
    + by constructor.
    + destruct (split_slash s) as [|w ws]; inversion IH; subst;
        constructor; try done; by rewrite HasPrefix_slash_cons.
Qed.

Lemma clean_step_ok rooted stack c :
  HasPrefix c "/" = false →
  Forall elem_ok stack → Forall elem_ok (clean_step rooted stack c).
Proof.
  intros Hc Hst. unfold clean_step.
  destruct (is_empty c) eqn:He; simpl; [done|].
  apply is_empty_false in He.
  destruct (String.eqb c "."); [done|].
  destruct (String.eqb c "..").
  - destruct stack as [|top rest].
    + destruct rooted; [done|]. by repeat constructor.
    + destruct (String.eqb top ".."); [by constructor|]. by inversion Hst.
  - by constructor.
Qed.

Lemma fold_clean_step_ok rooted cs stack :
  Forall (λ e, HasPrefix e "/" = false) cs →
  Forall elem_ok stack → Forall elem_ok (fold_left (clean_step rooted) cs stack).
Proof.
  revert stack. induction cs as [|c cs IH]; intros stack Hcs Hst; simpl; [done|].
  inversion Hcs; subst. apply IH; [done|]. by apply clean_step_ok.
Qed.

Lemma clean_elems_ok (p : string) : Forall elem_ok (clean_elems p).
Proof.
  unfold clean_elems. apply List.Forall_rev.
  apply fold_clean_step_ok; [apply split_slash_no_leading_slash|constructor].
Qed.

Lemma strip_common_ok bs ts bs' ts' :
  strip_common bs ts = (bs', ts') →
  Forall elem_ok bs → Forall elem_ok ts → Forall elem_ok bs' ∧ Forall elem_ok ts'.
Proof.
  revert ts. induction bs as [|b bs IH]; intros [|t ts] H Hb Ht;
    simpl in H; try (by simplify_eq).
  destruct (String.eqb b t); [|by simplify_eq].
  inversion Hb; inversion Ht; subst. eauto.
Qed.

Lemma strip_common_nil bs ts : strip_common bs ts = ([], []) → bs = ts.
Proof.
  revert ts. induction bs as [|b bs IH]; intros [|t ts] H;
    simpl in H; try (by simplify_eq).
  destruct (String.eqb b t) eqn:E; [|by simplify_eq].
  apply String.eqb_eq in E as ->. f_equal. by apply IH.
Qed.

Lemma join_slash_cons_nonempty e es : e ≠ "" → join_slash (e :: es) ≠ "".
Proof.
  intros He. unfold join_slash. simpl.
  destruct es; [done|]. by destruct e.
Qed.

Lemma join_slash_no_leading_slash es :
  Forall elem_ok es → HasPrefix (join_slash es) "/" = false.
Proof.
  destruct es as [|e es]; [done|]. intros H. inversion H as [|?? [He Hs]]; subst.
  unfold join_slash. simpl. destruct es; [done|].
  destruct e as [|c e]; [done|].
  change (String c e +:+ "/" +:+ String.concat "/" (s :: es))
    with (String c (e +:+ "/" +:+ String.concat "/" (s :: es))).
  by rewrite HasPrefix_slash_cons in *.
Qed.

Lemma render_rooted rooted es :
  Forall elem_ok es → HasPrefix (render rooted es) "/" = rooted.
Proof.
  intros H. unfold render. destruct rooted.
  - change ("/" +:+ join_slash es) with (String "/" (join_slash es)).
    change (is_empty (String "/" (join_slash es))) with false. cbv iota.
    by rewrite HasPrefix_slash_cons.
  - change ("" +:+ join_slash es) with (join_slash es).
    destruct (is_empty (join_slash es)) eqn:E; [done|].
    by apply join_slash_no_leading_slash.
Qed.

Lemma unix_Rel_nonempty base targ out : unix_Rel base targ = Ok out → out ≠ "".
Proof.
  unfold unix_Rel.
  destruct (String.eqb (unix_Clean targ) (unix_Clean base)) eqn:Heq.
  { intros [= <-]. done. }
  unfold unix_Clean in *.
  rewrite !render_rooted by apply clean_elems_ok.
  destruct (Bool.eqb (HasPrefix base "/") (HasPrefix targ "/")) eqn:Hr; [|done].
  apply Bool.eqb_prop in Hr. simpl.
  destruct (strip_common (clean_elems base) (clean_elems targ)) as [bs ts] eqn:Hs.
  destruct (strip_common_ok _ _ _ _ Hs (clean_elems_ok _) (clean_elems_ok _))
    as [Hbs Hts].
  destruct bs as [|b bs].
  - intros [= <-]. destruct ts as [|t ts].
    + apply strip_common_nil in Hs. rewrite Hs, Hr in Heq.
      by rewrite String.eqb_refl in Heq.
    + inversion Hts as [|?? [Ht _]]; subst. by apply join_slash_cons_nonempty.
  - destruct (String.eqb b ".."); [done|]. intros [= <-].
    by apply join_slash_cons_nonempty.
Qed.

(** The Unix functions satisfy the contract the proofs rely on. *)
#[global] Instance unix_Lawful : Lawful unix.
Proof.
  split.
  - exact unix_Rel_nonempty.
  - done.
Qed.

(** The paths of the spec's example of canonical detection. *)
Example unix_Rel_example : unix_Rel "/repo/out" "/repo/t/foo" = Ok "../t/foo".
Proof. reflexivity. Qed.

End filepath_facts.

(** ** The local source parser and downloader *)

Module templatesource_facts.
Import filepath templatesource.

Lemma negb_is_empty_true (s : string) : negb (is_empty s) = true ↔ s ≠ "".
Proof.
  unfold is_empty. destruct (String.eqb_spec s ""); simpl; split; congruence.
Qed.

Section Facts.
Context {env : Env} {fp : filepath.Ops}.

Lemma sourceParse_unfold w params :
  sourceParse w params =
  match os_Stat w (absSourceOf params) with
  | Err err =>
      if common_IsStatNotExistErr err then Ok None
      else Err (ErrWrap "Stat()" err)
  | Ok fi =>
      if IsDir fi
      then Ok (Some {| SrcPath := absSourceOf params; allowDirty := false |})
      else Ok None
  end.
Proof.
  unfold sourceParse, absSourceOf.
  destruct (IsAbs (Source params)); simpl;
    (destruct (os_Stat w _) as [[[]]|]; done).
Qed.

(** C9. [sourceParse] answers "not matched" (no downloader, no error) when
    the source path does not exist or exists but is not a directory; it
    answers a [LocalDownloader] holding the absolutized source path when
    the path is an existing directory; and it returns an error only when
    [Stat] failed for a reason other than the path not existing.  The
    hypothesis is the contract of the helper [common.IsStatNotExistErr]:
    it recognises [fs.ErrNotExist]. *)
Theorem sourceParse_not_matched_or_local
    (HnotExist : ∀ err, is_ErrNotExist err = true → common_IsStatNotExistErr err = true)
    (w : World) (params : ParseSourceParams) :
  (∀ err, os_Stat w (absSourceOf params) = Err err → is_ErrNotExist err = true →
     sourceParse w params = Ok None) ∧
  (∀ fi, os_Stat w (absSourceOf params) = Ok fi → IsDir fi = false →
     sourceParse w params = Ok None) ∧
  (∀ fi, os_Stat w (absSourceOf params) = Ok fi → IsDir fi = true →
     sourceParse w params
     = Ok (Some {| SrcPath := absSourceOf params; allowDirty := false |})) ∧
  (∀ e, sourceParse w params = Err e →
     ∃ err, os_Stat w (absSourceOf params) = Err err ∧
            common_IsStatNotExistErr err = false ∧
            is_ErrNotExist err = false ∧
            e = ErrWrap "Stat()" err).
Proof.
  rewrite sourceParse_unfold. repeat split.
  - intros err -> Hne. by rewrite (HnotExist _ Hne).
  - by intros fi -> ->.
  - by intros fi -> ->.
  - intros e. destruct (os_Stat w (absSourceOf params)) as [fi|err].
    + by destruct (IsDir fi).
    + destruct (common_IsStatNotExistErr err) eqn:Hs; [done|].
      intros [= <-]. exists err. repeat split; [done|].
      destruct (is_ErrNotExist err) eqn:Hn; [|done].
      by rewrite (HnotExist _ Hn) in Hs.
Qed.

(** What [canonicalize] answers, by the results of the operations it
    calls. *)
Lemma canonicalize_Ok w cwd src dest dirty cs v lt :
  canonicalize w cwd src dest dirty = Ok (cs, v, lt) →
  ∃ srcWs srcIsGit destWs destIsGit,
    git_Workspace w src = Ok (srcWs, srcIsGit) ∧
    git_Workspace w (absDestOf cwd dest) = Ok (destWs, destIsGit) ∧
    if srcIsGit && destIsGit && String.eqb srcWs destWs
    then ∃ out ok,
      Rel (absDestOf cwd dest) src = Ok out ∧
      gitCanonicalVersion w srcWs dirty = Ok (v, ok) ∧
      cs = ToSlash out ∧ lt = LocTypeLocalGit
    else cs = "" ∧ v = "" ∧ lt = "".
Proof.
  unfold canonicalize, absDestOf.
  replace (if negb (IsAbs dest) then Join [cwd; dest] else dest)
    with (if IsAbs dest then dest else Join [cwd; dest])
    by (by destruct (IsAbs dest)).
  set (absDest := if IsAbs dest then dest else Join [cwd; dest]).
  destruct (git_Workspace w src) as [[srcWs srcIsGit]|]; [|done].
  destruct (git_Workspace w absDest) as [[destWs destIsGit]|]; [|done].
  simpl. intros H. exists srcWs, srcIsGit, destWs, destIsGit.
  split; [done|]. split; [done|].
  destruct srcIsGit, destIsGit; simpl in *; try (by simplify_eq).
  destruct (String.eqb srcWs destWs); simpl in *; [|by simplify_eq].
  destruct (Rel absDest src) as [out|]; [|done].
  destruct (gitCanonicalVersion w srcWs dirty) as [[v' ok]|]; [|done].
  simpl in H. simplify_eq. by exists out, ok.
Qed.

Lemma Download_Ok l w cwd destDir w' meta :
  Download l w cwd destDir = Ok (w', meta) →
  common_CopyRecursive w (SrcPath l) destDir = Ok w' ∧
  ∃ gitVars cs v lt,
    gitTemplateVars w' (SrcPath l) = Ok gitVars ∧
    canonicalize w' cwd (SrcPath l) destDir (allowDirty l) = Ok (cs, v, lt) ∧
    meta = {| IsCanonical := negb (is_empty cs); CanonicalSource := cs;
              LocationType := lt; HasVersion := negb (is_empty v);
              Version := v; Vars := gitVars |}.
Proof.
  unfold Download. intros H.
  apply bind_Ok in H as (w1 & Hcp & H).
  apply bind_Ok in H as (gitVars & Hv & H).
  apply bind_Ok in H as ([[cs v] lt] & Hc & H).
  injection H as <- <-. split; [done|]. by exists gitVars, cs, v, lt.
Qed.

(** C2. Every [DownloadMetadata] that [LocalDownloader.Download] produces
    has [IsCanonical] true exactly when [CanonicalSource] and
    [LocationType] are both non-empty, and [HasVersion] true exactly when
    [Version] is non-empty. *)
Theorem Download_metadata_invariant l w cwd destDir w' meta :
  Download l w cwd destDir = Ok (w', meta) →
  (IsCanonical meta = true ↔ CanonicalSource meta ≠ "" ∧ LocationType meta ≠ "") ∧
  (HasVersion meta = true ↔ Version meta ≠ "").
Proof.
  intros H. apply Download_Ok in H as (_ & gitVars & cs & v & lt & _ & Hc & ->).
  simpl. rewrite !negb_is_empty_true. split; [|done].
  apply canonicalize_Ok in Hc
    as (srcWs & srcIsGit & destWs & destIsGit & _ & _ & Hc).
  destruct (srcIsGit && destIsGit && String.eqb srcWs destWs).
  - destruct Hc as (out & ok & _ & _ & -> & ->). split; [|tauto].
    intros Hne. split; [done|]. done.
  - destruct Hc as (-> & _ & ->). tauto.
Qed.

(** C1. For every call of [LocalDownloader.Download] that returns
    metadata: when the template directory and the absolutized destination
    directory are both inside the same git workspace, the metadata has
    [IsCanonical = true], location type [local_git], the canonical source
    is the slash-separated relative path from the destination directory to
    the template directory, and the version is the canonical git version
    of the workspace; when either directory is in no git workspace, or the
    workspaces differ, the canonical source, the version and the location
    type are empty.  The hypothesis [Hlaw] is the contract of
    [path/filepath]: a relative path is never the empty string. *)
Theorem Download_canonical_iff_same_workspace
    (Hlaw : filepath.Lawful fp) l w cwd destDir w' meta :
  Download l w cwd destDir = Ok (w', meta) →
  common_CopyRecursive w (SrcPath l) destDir = Ok w' ∧
  ∃ srcWs srcIsGit destWs destIsGit,
    git_Workspace w' (SrcPath l) = Ok (srcWs, srcIsGit) ∧
    git_Workspace w' (absDestOf cwd destDir) = Ok (destWs, destIsGit) ∧
    if srcIsGit && destIsGit && String.eqb srcWs destWs
    then ∃ out version ok,
      Rel (absDestOf cwd destDir) (SrcPath l) = Ok out ∧
      gitCanonicalVersion w' srcWs (allowDirty l) = Ok (version, ok) ∧
      IsCanonical meta = true ∧
      LocationType meta = "local_git" ∧
      CanonicalSource meta = ToSlash out ∧
      Version meta = version
    else
      IsCanonical meta = false ∧
      CanonicalSource meta = "" ∧ Version meta = "" ∧ LocationType meta = "".
Proof.
  intros HD. apply Download_Ok in HD as (Hcp & gitVars & cs & v & lt & _ & Hc & ->).
  split; [done|].
  apply canonicalize_Ok in Hc
    as (srcWs & srcIsGit & destWs & destIsGit & Hs & Hd & Hc).
  exists srcWs, srcIsGit, destWs, destIsGit. split; [done|]. split; [done|].
  destruct (srcIsGit && destIsGit && String.eqb srcWs destWs).
  - destruct Hc as (out & ok & HRel & Hv & -> & ->).
    exists out, v, ok. simpl. repeat split; try done.
    apply negb_is_empty_true, ToSlash_nonempty. by eapply Rel_nonempty.
  - by destruct Hc as (-> & -> & ->).
Qed.

(** [Download] does return metadata whenever the operations it calls
    succeed. *)
Lemma Download_returns l w cwd destDir w' gitVars srcWs srcIsGit destWs destIsGit :
  common_CopyRecursive w (SrcPath l) destDir = Ok w' →
  gitTemplateVars w' (SrcPath l) = Ok gitVars →
  git_Workspace w' (SrcPath l) = Ok (srcWs, srcIsGit) →
  git_Workspace w' (absDestOf cwd destDir) = Ok (destWs, destIsGit) →
  (srcIsGit && destIsGit && String.eqb srcWs destWs = true →
   is_Ok (Rel (absDestOf cwd destDir) (SrcPath l)) = true ∧
   is_Ok (gitCanonicalVersion w' srcWs (allowDirty l)) = true) →
  ∃ meta, Download l w cwd destDir = Ok (w', meta).
Proof.
  intros Hcp Hv Hs Hd Hsame. unfold Download, canonicalize.
  rewrite Hcp. simpl. rewrite Hv. simpl. rewrite Hs. simpl.
  unfold absDestOf in *.
  replace (if negb (IsAbs destDir) then Join [cwd; destDir] else destDir)
    with (if IsAbs destDir then destDir else Join [cwd; destDir])
    by (by destruct (IsAbs destDir)).
  rewrite Hd. simpl.
  destruct srcIsGit, destIsGit; simpl in *; try (by eexists).
  destruct (String.eqb srcWs destWs); simpl in *; [|by eexists].
  destruct (Hsame eq_refl) as [H1 H2].
  destruct (Rel _ (SrcPath l)); [|done].
  destruct (gitCanonicalVersion w' srcWs (allowDirty l)) as [[??]|]; [|done].
  simpl. by eexists.
Qed.

End Facts.

(** *** The examples on the machine with the repository at [/repo] *)

Import examples.

Lemma sourceParse_not_matched_or_local_witness :
  sourceParse (env := repoEnv) (fp := unix) tt fooParams
  = Ok (Some {| SrcPath := "/repo/t/foo"; allowDirty := false |}).
Proof.
  assert (Hc : ∀ err, is_ErrNotExist err = true →
                 common_IsStatNotExistErr (Env := repoEnv) err = true).
  { intros err H. simpl. by rewrite H. }
  destruct (sourceParse_not_matched_or_local (env := repoEnv) (fp := unix)
              Hc tt fooParams) as (_ & _ & H & _).
  exact (H {| IsDir := true |} eq_refl eq_refl).
Defined.

(** The spec's example of canonical detection: template at [/repo/t/foo],
    destination at [/repo/out]. *)
Lemma Download_example :
  Download (env := repoEnv) (fp := unix) fooDownloader tt "/repo" "out"
  = Ok (tt, fooMeta).
Proof. reflexivity. Qed.

Lemma Download_metadata_invariant_witness :
  (IsCanonical fooMeta = true ↔
     CanonicalSource fooMeta ≠ "" ∧ LocationType fooMeta ≠ "") ∧
  (HasVersion fooMeta = true ↔ Version fooMeta ≠ "").
Proof.
  exact (Download_metadata_invariant (env := repoEnv) (fp := unix)
           fooDownloader tt "/repo" "out" tt fooMeta eq_refl).
Defined.

Lemma Download_canonical_iff_same_workspace_witness :
  common_CopyRecursive (Env := repoEnv) tt "/repo/t/foo" "out" = Ok tt ∧
  ∃ srcWs srcIsGit destWs destIsGit,
    git_Workspace (Env := repoEnv) tt "/repo/t/foo" = Ok (srcWs, srcIsGit) ∧
    git_Workspace (Env := repoEnv) tt
      (absDestOf (fp := unix) "/repo" "out") = Ok (destWs, destIsGit) ∧
    if srcIsGit && destIsGit && String.eqb srcWs destWs
    then ∃ out version ok,
      unix_Rel (absDestOf (fp := unix) "/repo" "out") "/repo/t/foo" = Ok out ∧
      gitCanonicalVersion (Env := repoEnv) tt srcWs false = Ok (version, ok) ∧
      IsCanonical fooMeta = true ∧
      LocationType fooMeta = "local_git" ∧
      CanonicalSource fooMeta = unix_ToSlash out ∧
      Version fooMeta = version
    else
      IsCanonical fooMeta = false ∧
      CanonicalSource fooMeta = "" ∧ Version fooMeta = "" ∧
      LocationType fooMeta = "".
Proof.
  exact (Download_canonical_iff_same_workspace (env := repoEnv) (fp := unix)
           filepath_facts.unix_Lawful
           fooDownloader tt "/repo" "out" tt fooMeta eq_refl).
Defined.

(** A destination outside the repository is not canonical. *)
Example Download_not_canonical :
  Download (env := repoEnv) (fp := unix) fooDownloader tt "/home/me" "out"
  = Ok (tt, {| IsCanonical := false; CanonicalSource := ""; LocationType := "";
               HasVersion := false; Version := "";
               Vars := {| GitTag := ""; GitSHA := MinimalGitHeadSHA;
                          GitShortSHA := "5597fc6" |} |}).
Proof. reflexivity. Qed.

End templatesource_facts.

(** ** Golden-test verification *)

Module verify_facts.
Import common filepath verify.

(** *** What a walk finds *)

Lemma file_paths_Dir name entries :
  file_paths name (Dir entries) = entries_paths name entries.
Proof.
  unfold entries_paths. simpl.
  induction entries as [|[name1 d1] rest IH]; simpl; [done|]. by rewrite IH.
Qed.

Lemma walkDir_Dir {S} (fn : WalkDirFunc S) name entries st :
  walkDir fn name (Dir entries) st =
  let '(st1, r) := fn name (Some true) None st in
  match r with
  | WalkOk => walkEntries fn name entries st1
  | WalkSkipDir => (st1, WalkOk)
  | WalkErr e => (st1, WalkErr e)
  end.
Proof.
  simpl. destruct (fn name (Some true) None st) as [st1 r].
  destruct r; try done.
  revert st1. induction entries as [|[name1 d1] rest IH]; intros st1; simpl; [done|].
  destruct (walkDir fn (child_path name name1) d1 st1) as [st' r'].
  destruct r'; auto.
Qed.

Lemma walkDir_leaf {S} (fn : WalkDirFunc S) name d st :
  is_dir d = false → walkDir fn name d st = fn name (Some false) None st.
Proof. destruct d; simpl; try done; by destruct (fn _ _ _ _). Qed.

(** *** Reserved paths *)

Lemma head_split_slash_app (a b : string) :
  head (split_slash (a +:+ String slash b)) = head (split_slash a).
Proof.
  induction a as [|c a IH]; simpl; [done|].
  destruct (Ascii.eqb c slash); [done|].
  destruct (split_slash (a +:+ String slash b)) as [|w ws] eqn:E1;
    [by apply filepath_facts.split_slash_not_nil in E1|].
  destruct (split_slash a) as [|w' ws'] eqn:E2;
    [by apply filepath_facts.split_slash_not_nil in E2|].
  simpl in *. by simplify_eq.
Qed.

Lemma IsReservedInDest_head (p : string) :
  IsReservedInDest p =
  match head (split_slash p) with
  | Some first => String.eqb first ABCInternalDir
  | None => false
  end.
Proof. unfold IsReservedInDest. by destruct (split_slash p). Qed.

(** What lies below a reserved path is reserved. *)
Lemma reserved_child (dir name : string) :
  IsReservedInDest dir = true → IsReservedInDest (child_path dir name) = true.
Proof.
  intros H. unfold child_path. destruct (String.eqb dir ".") eqn:E.
  { apply String.eqb_eq in E as ->. done. }
  rewrite IsReservedInDest_head in *.
  change (dir +:+ "/" +:+ name) with (dir +:+ String slash name).
  by rewrite head_split_slash_app.
Qed.

Lemma reserved_file_paths (d : node) (name : string) :
  IsReservedInDest name = true →
  Forall (λ p, IsReservedInDest p = true) (file_paths name d).
Proof.
  revert name. induction d as [contents| |entries IH] using node_ind';
    intros name H.
  - by repeat constructor.
  - by repeat constructor.
  - rewrite file_paths_Dir. unfold entries_paths.
    induction IH as [|[name1 d1] rest IH1 _ IH2]; simpl; [constructor|].
    apply Forall_app. split; [|done]. apply IH1. by apply reserved_child.
Qed.

Lemma visible_app (l1 l2 : list string) : visible (l1 ++ l2) = visible l1 ++ visible l2.
Proof. apply filter_app. Qed.

Lemma visible_reserved (l : list string) :
  Forall (λ p, IsReservedInDest p = true) l → visible l = [].
Proof.
  induction 1 as [|p l Hp _ IH]; [done|].
  unfold visible. rewrite filter_cons_False; [done|]. by rewrite Hp.
Qed.

(** A walk with the callback of [addTestFiles] never fails below the root
    and adds exactly the files whose path is not reserved. *)
Lemma walkDir_addTestFiles (d : node) (name : string) (fileSet : gset string) :
  walkDir addTestFiles_fn name d fileSet
  = (fileSet ∪ list_to_set (visible (file_paths name d)), WalkOk).
Proof.
  revert name fileSet.
  induction d as [contents| |entries IH] using node_ind'; intros name fileSet.
  - rewrite walkDir_leaf by done. unfold addTestFiles_fn, visible. simpl.
    destruct (IsReservedInDest name) eqn:E.
    + rewrite filter_cons_False by (by rewrite E). f_equal. set_solver.
    + rewrite filter_cons_True by done. f_equal. set_solver.
  - rewrite walkDir_leaf by done. unfold addTestFiles_fn, visible. simpl.
    destruct (IsReservedInDest name) eqn:E.
    + rewrite filter_cons_False by (by rewrite E). f_equal. set_solver.
    + rewrite filter_cons_True by done. f_equal. set_solver.
  - rewrite walkDir_Dir.
    remember (visible (file_paths name (Dir entries))) as V eqn:HV.
    unfold addTestFiles_fn at 1. simpl.
    destruct (IsReservedInDest name) eqn:E; subst V.
    + rewrite visible_reserved by (by apply reserved_file_paths).
      f_equal. set_solver.
    + rewrite file_paths_Dir. unfold entries_paths. clear E.
      revert fileSet.
      induction IH as [|[name1 d1] rest IH1 _ IH2]; intros fileSet; simpl.
      * f_equal. set_solver.
      * rewrite IH1, IH2, visible_app. f_equal. set_solver.
Qed.

Lemma addTestFiles_spec (fs : trees) (fileSet : gset string) (dir : string) :
  addTestFiles fs fileSet dir =
  match fs !! dir with
  | Some _ => Ok (fileSet ∪ found fs dir)
  | None => Err (ErrWrap "fs.WalkDir" (ErrWrap "fs.WalkDir" ErrNotExist))
  end.
Proof.
  unfold addTestFiles, WalkDir, found. destruct (fs !! dir) as [n|]; [|done].
  by rewrite walkDir_addTestFiles.
Qed.

Lemma found_not_reserved (fs : trees) (dir p : string) :
  p ∈ found fs dir → IsReservedInDest p = false.
Proof.
  unfold found. destruct (fs !! dir); [|set_solver].
  rewrite elem_of_list_to_set. unfold visible.
  rewrite list_elem_of_filter. tauto.
Qed.

(** *** The sorted paths *)


Lemma sortedPaths_elem_of (fileSet : gset string) (p : string) :
  p ∈ sortedPaths fileSet ↔ p ∈ fileSet.
Proof.
  unfold sortedPaths. rewrite (merge_sort_Permutation String.le).
  apply elem_of_elements.
Qed.


Section Facts.
Context {fp : filepath.Ops} {deps : Deps}.

(** *** Comparing the printed output *)

Lemma getStdoutDiff_unfold fs g t :
  getStdoutDiff fs g t =
  match os_ReadFile fs g [ABCInternalDir; ABCInternalStdout] with
  | Err err =>
      if is_ErrNotExist err
      then match stdoutText fs t with
           | Some ts => Ok (DiffMain ts "")
           | None =>
               match os_ReadFile fs t [ABCInternalDir; ABCInternalStdout] with
               | Err err' => Err (ErrWrap "failed to read" err')
               | Ok ts => Ok (DiffMain ts "")
               end
           end
      else Err (ErrWrap "failed to read" err)
  | Ok gs =>
      match stdoutText fs t with
      | Some ts => Ok (DiffMain ts gs)
      | None =>
          match os_ReadFile fs t [ABCInternalDir; ABCInternalStdout] with
          | Err err' => Err (ErrWrap "failed to read" err')
          | Ok ts => Ok (DiffMain ts gs)
          end
      end
  end.
Proof.
  unfold getStdoutDiff, stdoutText.
  destruct (os_ReadFile fs g _) as [gs|err]; simpl.
  - destruct (os_ReadFile fs t _) as [ts|err']; simpl; [done|].
    by destruct (is_ErrNotExist err').
  - destruct (is_ErrNotExist err); simpl; [|done].
    destruct (os_ReadFile fs t _) as [ts|err']; simpl; [done|].
    by destruct (is_ErrNotExist err').
Qed.

(** C10. [getStdoutDiff] treats a missing stdout file on either side as
    empty content: it compares the texts of the two sides, where a missing
    file counts as the empty text.  So the comparison finds no difference
    whenever both files are absent or both hold identical text, and it
    fails only when a read fails for a reason other than the file not
    existing.  The hypothesis [Hlaw] is the contract of the diff library:
    equal texts have no difference. *)
Theorem getStdoutDiff_missing_is_empty
    (Hlaw : DepsLawful deps) (fs : trees) (goldenDataDir tempDataDir : string) :
  (∀ gs ts, stdoutText fs goldenDataDir = Some gs →
            stdoutText fs tempDataDir = Some ts →
     getStdoutDiff fs goldenDataDir tempDataDir = Ok (DiffMain ts gs) ∧
     (gs = ts → hasDiff (DiffMain ts gs) = false)) ∧
  (∀ e, getStdoutDiff fs goldenDataDir tempDataDir = Err e →
     ∃ err, (os_ReadFile fs goldenDataDir [ABCInternalDir; ABCInternalStdout] = Err err
             ∨ os_ReadFile fs tempDataDir [ABCInternalDir; ABCInternalStdout] = Err err)
            ∧ is_ErrNotExist err = false).
Proof.
  rewrite getStdoutDiff_unfold. unfold stdoutText. split.
  - intros gs ts Hg Ht.
    destruct (os_ReadFile fs goldenDataDir _) as [gs'|err].
    + destruct (os_ReadFile fs tempDataDir _) as [ts'|err'].
      * simplify_eq. split; [done|]. intros ->. apply DiffMain_same.
      * destruct (is_ErrNotExist err'); simplify_eq.
        split; [done|]. intros ->. apply DiffMain_same.
    + destruct (is_ErrNotExist err); simplify_eq.
      destruct (os_ReadFile fs tempDataDir _) as [ts'|err'].
      * simplify_eq. split; [done|]. intros <-. apply DiffMain_same.
      * destruct (is_ErrNotExist err'); simplify_eq.
        split; [done|]. intros _. apply DiffMain_same.
  - intros e.
    destruct (os_ReadFile fs goldenDataDir _) as [gs'|err].
    + destruct (os_ReadFile fs tempDataDir _) as [ts'|err'] eqn:Et; [done|].
      destruct (is_ErrNotExist err') eqn:En; [done|].
      intros _. exists err'. split; [by right|done].
    + destruct (is_ErrNotExist err) eqn:En.
      * destruct (os_ReadFile fs tempDataDir _) as [ts'|err'] eqn:Et; [done|].
        destruct (is_ErrNotExist err') eqn:En'; [done|].
        intros _. exists err'. split; [by right|done].
      * intros _. exists err. split; [by left|done].
Qed.

(** *** The loop over the paths *)




Lemma verifyTestCase_unfold fs location tempDir tc :
  let g := goldenDataDirOf location tc in
  let t := tempDataDirOf tempDir tc in
  is_Some (fs !! g) → is_Some (fs !! t) →
  verifyTestCase fs location tempDir tc =
  (st ← compareFiles fs g t (sortedPaths (found fs g ∪ found fs t)) (None, false);
   stdoutDiff ←
     match getStdoutDiff fs g t with
     | Err err => Err (ErrWrap "failed to compare stdout" err)
     | Ok diffs => Ok diffs
     end;
   Ok (finishTestCase tc st stdoutDiff)).
Proof.
  intros g t [ng Hg] [nt Ht]. unfold verifyTestCase. fold g. fold t.
  rewrite addTestFiles_spec, Hg. simpl.
  rewrite addTestFiles_spec, Ht. simpl.
  by rewrite (left_id_L ∅ (∪)).
Qed.



(** *** Reading a file at a path that a walk produced *)

Lemma valid_name_spec (name : string) :
  valid_name name = true → name ≠ "" ∧ name ≠ "." ∧ split_slash name = [name].
Proof.
  unfold valid_name.
  rewrite !andb_true_iff, !negb_true_iff, bool_decide_eq_true.
  intros [[[H1 H2] _] H4]. split; [by apply filepath_facts.is_empty_false|].
  split; [|done]. intros ->. done.
Qed.

Lemma split_slash_app (x y : string) :
  split_slash (x +:+ String slash y) = split_slash x ++ split_slash y.
Proof.
  induction x as [|c x IH]; simpl; [done|].
  destruct (Ascii.eqb c slash); [by rewrite IH|]. rewrite IH.
  destruct (split_slash x) eqn:E; [|done].
  by apply filepath_facts.split_slash_not_nil in E.
Qed.

Lemma path_of_snoc (elems : list string) (name : string) :
  path_of (elems ++ [name]) = child_path (path_of elems) name.
Proof. unfold path_of. by rewrite fold_left_app. Qed.

Lemma split_path_of (elems : list string) :
  Forall (λ e, valid_name e = true) elems → elems ≠ [] →
  split_slash (path_of elems) = elems.
Proof.
  induction elems as [|name elems IH] using rev_ind; [done|].
  intros H _. apply Forall_app in H as [H1 H2].
  apply Forall_cons in H2 as [H2 _]. apply valid_name_spec in H2 as (_ & _ & Hs).
  rewrite path_of_snoc. unfold child_path.
  destruct elems as [|e0 elems'].
  - by simpl.
  - specialize (IH H1 ltac:(done)).
    destruct (String.eqb_spec (path_of (e0 :: elems')) ".") as [Heq|_].
    + rewrite Heq in IH. simpl in IH. injection IH as <- <-.
      apply Forall_cons in H1 as [H1 _]. by apply valid_name_spec in H1 as (_ & ? & _).
    + change (path_of (e0 :: elems') +:+ "/" +:+ name)
        with (path_of (e0 :: elems') +:+ String slash name).
      by rewrite split_slash_app, IH, Hs.
Qed.

Lemma path_elems_path_of (elems : list string) :
  Forall (λ e, valid_name e = true) elems → path_elems [path_of elems] = elems.
Proof.
  intros H. unfold path_elems. simpl. rewrite app_nil_r.
  destruct elems as [|e0 elems']; [done|].
  rewrite split_path_of by done.
  induction H as [|e l He _ IH]; [done|].
  apply valid_name_spec in He as (? & ? & _).
  rewrite filter_cons_True by done. by rewrite IH.
Qed.


Lemma elem_of_entries_paths (name p : string) (entries : list (string * node)) :
  p ∈ entries_paths name entries ↔
  ∃ e, e ∈ entries ∧ p ∈ file_paths (child_path name e.1) e.2.
Proof.
  unfold entries_paths. rewrite list_elem_of_In, in_flat_map.
  split; intros (e & He & Hp); exists e; split;
    solve [by apply list_elem_of_In].
Qed.


Lemma find_entry_Some (name : string) (entries : list (string * node)) (child : node) :
  find_entry name entries = Some child → (name, child) ∈ entries.
Proof.
  unfold find_entry. induction entries as [|[name1 d1] rest IH]; simpl; [done|].
  destruct (String.eqb_spec name1 name) as [->|_]; simpl.
  - intros [= ->]. apply elem_of_cons. by left.
  - intros H. apply elem_of_cons. right. by apply IH.
Qed.

(** A file that can be read through [elems] is among the files the walk
    produces. *)
Lemma read_node_in_walk (elems : list string) (d : node) (elems0 : list string)
    (contents : string) :
  read_node d elems = Ok contents →
  path_of (elems0 ++ elems) ∈ file_paths (path_of elems0) d.
Proof.
  revert d elems0. induction elems as [|e rest IH]; intros d elems0.
  - destruct d; simpl; try done. intros _. rewrite app_nil_r. set_solver.
  - destruct d as [| |entries]; simpl; try done.
    destruct (find_entry e entries) as [child|] eqn:Hf; [|done].
    intros Hr. apply find_entry_Some in Hf.
    change ((fix go (entries0 : list (string * node)) : list string :=
               match entries0 with
               | [] => []
               | (name1, d1) :: rest0 =>
                   file_paths (child_path (path_of elems0) name1) d1 ++ go rest0
               end) entries)
      with (file_paths (path_of elems0) (Dir entries)).
    rewrite file_paths_Dir. apply elem_of_entries_paths.
    exists (e, child). split; [done|]. simpl.
    rewrite <- path_of_snoc.
    replace (elems0 ++ e :: rest) with ((elems0 ++ [e]) ++ rest)
      by (by rewrite <- app_assoc).
    by apply IH.
Qed.




End Facts.

(** *** The example trees *)

Import examples.

(** The files found on the two sides of the example, and what the
    verification of the test case [basic] reports: [b.txt] is expected but
    missing and [c.txt] is generated but not recorded. *)
Example verify_example :
  sortedPaths (found goldenTrees "/tpl/testdata/golden/basic/data"
               ∪ found goldenTrees "/tmp/r/testdata/golden/basic/data")
  = ["a.txt"; "b.txt"; "c.txt"] ∧
  leaves_opt <$> verifyTestCase (fp := unix) (deps := plainDeps) goldenTrees
                   "/tpl" "/tmp/r" (mkTestCase "basic")
  = Ok [ ErrNew "-- [/tpl/testdata/golden/basic/data/b.txt] expected, however missing";
         ErrNew "-- [/tpl/testdata/golden/basic/data/c.txt] generated, however not recorded in test data";
         ErrNew "golden test [basic] didn't match actual output, you might need to run 'record' command to capture it as the new expected output" ].
Proof. split; vm_compute; reflexivity. Qed.


(** The recorded printed output lies under the reserved directory: it is
    not among the paths of the loop, and [getStdoutDiff] compares it. *)
Example stdout_is_reserved :
  IsReservedInDest (join_slash [ABCInternalDir; ABCInternalStdout]) = true ∧
  ".abc/stdout" ∉ found goldenTrees "/tpl/testdata/golden/basic/data".
Proof. split; [reflexivity|]. vm_compute. set_solver. Qed.

(** When one side holds a directory where the other holds a file, the read
    of the directory fails and [Run] returns that error at once. *)
Example verify_file_against_directory :
  Run (fp := unix) (deps := plainDeps)
    {[ "/tpl/testdata/golden/t/data" := Dir [("d", Dir [("f", File "1")])];
       "/tmp/r/testdata/golden/t/data" := Dir [("d", File "1")] ]}
    "/tpl" "/tmp/r" [mkTestCase "t"]
  = Some (ErrWrap "failed to read (/tpl/testdata/golden/t/data/d)" ErrIsDir).
Proof. vm_compute. reflexivity. Qed.

Lemma plainDeps_Lawful : DepsLawful plainDeps.
Proof.
  split; simpl.
  - intros a. by rewrite decide_True.
  - intros a b Hne. by rewrite decide_False.
Qed.

Lemma getStdoutDiff_missing_is_empty_witness :
  getStdoutDiff (deps := plainDeps) goldenTrees
    "/tpl/testdata/golden/basic/data" "/tmp/r/testdata/golden/basic/data"
  = Ok [mkDiff DiffEqual "hello"].
Proof.
  exact (proj1 (proj1 (getStdoutDiff_missing_is_empty (deps := plainDeps)
                         plainDeps_Lawful goldenTrees
                         "/tpl/testdata/golden/basic/data"
                         "/tmp/r/testdata/golden/basic/data")
                 "hello" "hello" eq_refl eq_refl)).
Defined.

(** With no printed output on either side the comparison finds no
    difference. *)
Example getStdoutDiff_both_absent :
  hasDiff <$> getStdoutDiff (deps := plainDeps)
                {[ "/g" := Dir [("a.txt", File "A")]; "/t" := Dir [] ]} "/g" "/t"
  = Ok false.
Proof. reflexivity. Qed.

End verify_facts.

(** ** The replacer and the [string_replace] action *)

Module render_facts.
Import model render Replacer.

(** *** The replacer *)







(** *** The action *)

Section Facts.
Context {ex : Expander}.

Lemma expandedPairs_cons r rs sc :
  expandedPairs (r :: rs) sc
  = (p ← expandPair sc r; ps ← expandedPairs rs sc; Ok (p :: ps)).
Proof. reflexivity. Qed.

Lemma expandReplacements_spec rs sc replacerArgs :
  expandReplacements rs sc replacerArgs
  = (ps ← expandedPairs rs sc; Ok (replacerArgs ++ flatten ps)).
Proof.
  revert replacerArgs.
  induction rs as [|r rs IH]; intros replacerArgs.
  - simpl. by rewrite app_nil_r.
  - rewrite expandedPairs_cons. cbn [expandReplacements]. unfold expandPair.
    destruct (parseAndExecuteGoTmpl (Pos (ToReplace r)) _ sc) as [o|]; [|done].
    destruct (parseAndExecuteGoTmpl (Pos (With r)) _ sc) as [n|]; [|done].
    cbn [mbind result_bind]. rewrite IH.
    destruct (expandedPairs rs sc) as [ps|]; [|done].
    cbn [mbind result_bind]. unfold flatten. simpl. by rewrite <- app_assoc.
Qed.

Lemma NewReplacer_flatten (ps : list (string * string)) :
  NewReplacer (flatten ps) = Ok ps.
Proof.
  induction ps as [|[o n] ps IH]; [done|].
  simpl. fold (flatten ps). by rewrite IH.
Qed.

Lemma actionStringReplace_unfold sr sp :
  actionStringReplace sr sp
  = (ps ← expandedPairs (Replacements sr) (scope sp);
     walkAndModify sp (Paths sr) (λ buf, Ok (Replace ps buf))).
Proof.
  unfold actionStringReplace. rewrite expandReplacements_spec.
  destruct (expandedPairs (Replacements sr) (scope sp)) as [ps|]; [|done].
  simpl. by rewrite NewReplacer_flatten.
Qed.




End Facts.

(** *** Examples *)

Import examples.

(** The spec's scenario: [a.txt] holds [hello [name]], the input [name] is
    [world], and the step replaces [[name]] by [{{.name}}]. *)
Example string_replace_single_file :
  let p := mkPos 1 1 in
  actionStringReplace (ex := toyExpander)
    {| Paths := [mkString p "."];
       Replacements := [ {| ToReplace := mkString p "[name]";
                            With := mkString p "{{.name}}" |} ] |}
    {| scope := {[ "name" := "world" ]};
       scratchDir := [("a.txt", "hello [name]")] |}
  = Ok [("a.txt", "hello world")].
Proof. vm_compute. reflexivity. Qed.


(** Only the files under the given path are rewritten, each in one pass:
    the text that a replacement inserts is not replaced again. *)
Example string_replace_one_pass :
  let p := mkPos 1 1 in
  actionStringReplace (ex := toyExpander)
    {| Paths := [mkString p "dir"];
       Replacements := [ {| ToReplace := mkString p "a"; With := mkString p "b" |};
                         {| ToReplace := mkString p "b"; With := mkString p "c" |} ] |}
    {| scope := ∅;
       scratchDir := [("dir/x.txt", "aabb"); ("dirx.txt", "ab"); ("y.txt", "ab")] |}
  = Ok [("dir/x.txt", "bbcc"); ("dirx.txt", "ab"); ("y.txt", "ab")].
Proof. vm_compute. reflexivity. Qed.

(** An expansion that fails stops the action before any file is read. *)
Example string_replace_expansion_fails :
  let p := mkPos 1 1 in
  actionStringReplace (ex := toyExpander)
    {| Paths := [mkString p "."];
       Replacements := [ {| ToReplace := mkString p "x";
                            With := mkString p "{{.missing}}" |} ] |}
    {| scope := ∅; scratchDir := [("a.txt", "x")] |}
  = Err (ErrNew "undefined variable").
Proof. vm_compute. reflexivity. Qed.

(** Priority follows the order of the pairs, not the length of the match. *)
Example Replace_priority :
  Replace [("a", "1"); ("aa", "2")] "aaa" = "111" ∧
  Replace [("aa", "2"); ("a", "1")] "aaa" = "21".
Proof. split; reflexivity. Qed.

End render_facts.

(** ** The manifest writer *)

Module manifest_facts.
Import common filepath templatesource time encoding manifest.

(** *** Sorted entries *)

#[global] Instance by_key_total : Total by_key.
Proof. intros a b. unfold by_key. apply (total String.le). Qed.



(** *** Fractional seconds *)


Lemma length_app (a b : string) :
  String.length (a +:+ b) = (String.length a + String.length b)%nat.
Proof. induction a as [|c a IH]; simpl; [done|]. by rewrite IH. Qed.






(** *** What [writeManifest] writes *)

Section Facts.
Context {fp : filepath.Ops} {hasher : Hasher}.



(** C6. A dry run writes no manifest: whenever [writeManifest] returns
    with [dryRun] set, the files are exactly what they were before the
    call; and it does return when the template can be hashed. *)
Theorem writeManifest_dry_run_writes_nothing
    (fs : files) (p : writeManifestParams) :
  dryRun p = true →
  (∀ fs', writeManifest fs p = Ok fs' → fs' = fs) ∧
  (∀ dirhash, HashDir fs (templateDir p) = Ok dirhash →
              writeManifest fs p = Ok fs).
Proof.
  intros Hdry. unfold writeManifest. rewrite Hdry.
  destruct (HashDir fs (templateDir p)) as [h|e]; simpl.
  - split; [by intros fs' [= <-]|done].
  - split; [done|done].
Qed.

End Facts.

(** *** The test cases of [TestWriteManifest] *)

Import examples.

Example writeManifest_simple_success_non_canonical :
  writeManifest (fp := filepath.unix) (hasher := testHasher) testFiles
    (testParams false nonCanonicalMeta)
  = Ok (<[ "/dest/.abc/manifest_nolocation_2023-12-08T23:59:02.000000013Z.lock.yaml"
           := expectedNonCanonical ]> testFiles).
Proof. vm_compute. reflexivity. Qed.

Example writeManifest_simple_success_canonical_name :
  manifestPath (fp := filepath.unix) (testParams false canonicalMeta)
  = "/dest/.abc/manifest_github.com%2Ffoo%2Fbar_2023-12-08T23:59:02.000000013Z.lock.yaml".
Proof. vm_compute. reflexivity. Qed.



(** The clock of the tests is in Los Angeles; the manifest shows UTC. *)
Example mockClock_formats :
  Format_RFC3339Nano mockClock = "2023-12-08T15:59:02.000000013-08:00" ∧
  Format_RFC3339Nano (UTC mockClock) = "2023-12-08T23:59:02.000000013Z".
Proof. split; vm_compute; reflexivity. Qed.

(** The test [dryrun_no_output]. *)
Lemma writeManifest_dry_run_writes_nothing_witness :
  writeManifest (fp := filepath.unix) (hasher := testHasher) testFiles
    (testParams true {| IsCanonical := false;
                        CanonicalSource := "github.com/foo/bar";
                        LocationType := ""; HasVersion := false; Version := "";
                        Vars := noVars |})
  = Ok testFiles.
Proof.
  exact (proj2 (writeManifest_dry_run_writes_nothing (fp := filepath.unix)
                  (hasher := testHasher) testFiles (testParams true _) eq_refl)
           _ eq_refl).
Defined.

End manifest_facts.

(** ** Golden-test verification: the report, success and failure *)

Module verify_more.
Import common filepath verify verify_report verify_facts.

Section Facts.
Context {fp : filepath.Ops} {deps : Deps}.

(** *** The loop over the paths *)

Lemma compareFile_report fs g t p tcErr mm tcErr' mm' :
  compareFile fs g t p (tcErr, mm) = Ok (tcErr', mm') →
  leaves_opt tcErr' = leaves_opt tcErr ++ pathReport fs g t p ∧
  mm' = mm || pathFlag fs g t p.
Proof.
  unfold compareFile, pathReport, pathFlag, shownFile.
  destruct (os_ReadFile fs g [p]) as [gc|err].
  - destruct (os_ReadFile fs t [p]) as [tc|err].
    + destruct (hasDiff (DiffMain tc gc)); intros [= <- <-].
      * rewrite leaves_errors_Join. simpl. by rewrite orb_true_r.
      * by rewrite app_nil_r, orb_false_r.
    + destruct (is_ErrNotExist err); [|done]. intros [= <- <-].
      rewrite leaves_errors_Join. simpl. by rewrite orb_false_r.
  - destruct (is_ErrNotExist err); [|done]. intros [= <- <-].
    rewrite leaves_errors_Join. simpl. by rewrite orb_true_r.
Qed.

Lemma compareFiles_report fs g t relPaths tcErr mm tcErr' mm' :
  compareFiles fs g t relPaths (tcErr, mm) = Ok (tcErr', mm') →
  leaves_opt tcErr' = leaves_opt tcErr ++ (relPaths ≫= pathReport fs g t) ∧
  mm' = mm || existsb (pathFlag fs g t) relPaths.
Proof.
  revert tcErr mm. induction relPaths as [|p l IH]; intros tcErr mm; simpl.
  - intros [= <- <-]. by rewrite app_nil_r, orb_false_r.
  - intros H. apply bind_Ok in H as ([tcErr1 mm1] & H1 & H2).
    apply compareFile_report in H1 as [H1 ->].
    apply IH in H2 as [H2 ->]. rewrite H2, H1.
    by rewrite <- app_assoc, orb_assoc.
Qed.

(** An iteration that leaves [tcErr] nil has compared two readable files
    and found no difference. *)
Lemma compareFile_None fs g t p tcErr mm mm' :
  compareFile fs g t p (tcErr, mm) = Ok (None, mm') →
  tcErr = None ∧ mm' = mm ∧
  ∃ gc tc, os_ReadFile fs g [p] = Ok gc ∧ os_ReadFile fs t [p] = Ok tc ∧
           hasDiff (DiffMain tc gc) = false.
Proof.
  unfold compareFile.
  destruct (os_ReadFile fs g [p]) as [gc|err].
  - destruct (os_ReadFile fs t [p]) as [tc|err].
    + destruct (hasDiff (DiffMain tc gc)) eqn:Hd; intros [= H1 H2].
      * by apply errors_Join_Some_r in H1.
      * subst. eauto 10.
    + destruct (is_ErrNotExist err); [|done]. intros [= H1 H2].
      by apply errors_Join_Some_r in H1.
  - destruct (is_ErrNotExist err); [|done]. intros [= H1 H2].
    by apply errors_Join_Some_r in H1.
Qed.

Lemma compareFiles_None fs g t relPaths tcErr mm mm' :
  compareFiles fs g t relPaths (tcErr, mm) = Ok (None, mm') →
  tcErr = None ∧ mm' = mm ∧
  ∀ p, p ∈ relPaths →
    ∃ gc tc, os_ReadFile fs g [p] = Ok gc ∧ os_ReadFile fs t [p] = Ok tc ∧
             hasDiff (DiffMain tc gc) = false.
Proof.
  revert tcErr mm. induction relPaths as [|p l IH]; intros tcErr mm; simpl.
  - intros [= <- <-]. split; [done|]. split; [done|]. intros p Hp.
    by apply elem_of_nil in Hp.
  - intros H. apply bind_Ok in H as ([tcErr1 mm1] & H1 & H2).
    apply IH in H2 as (-> & -> & H2).
    apply compareFile_None in H1 as (-> & -> & H1).
    split; [done|]. split; [done|]. intros q Hq.
    apply elem_of_cons in Hq as [->|Hq]; [exact H1|by apply H2].
Qed.

(** Paths whose files show no difference leave the state of the loop as it
    is. *)
Lemma compareFiles_same fs g t relPaths st :
  (∀ p, p ∈ relPaths →
     ∃ gc tc, os_ReadFile fs g [p] = Ok gc ∧ os_ReadFile fs t [p] = Ok tc ∧
              hasDiff (DiffMain tc gc) = false) →
  compareFiles fs g t relPaths st = Ok st.
Proof.
  induction relPaths as [|p l IH]; intros H; simpl; [done|].
  destruct (H p) as (gc & tc & Hg & Ht & Hd); [by left|].
  assert (compareFile fs g t p st = Ok st) as ->.
  { unfold compareFile. destruct st as [tcErr mm]. by rewrite Hg, Ht, Hd. }
  simpl. apply IH. intros q Hq. apply H. by right.
Qed.

Lemma finishTestCase_report tc tcErr mm stdoutDiff :
  leaves_opt (finishTestCase tc (tcErr, mm) stdoutDiff) =
  leaves_opt tcErr ++ stdoutReport stdoutDiff
  ++ hintReport (TestName tc) (mm || hasDiff stdoutDiff).
Proof.
  unfold finishTestCase, stdoutReport, hintReport.
  destruct (hasDiff stdoutDiff).
  - rewrite orb_true_r, !leaves_errors_Join. simpl.
    rewrite leaves_errors_Join. simpl. by rewrite ?app_nil_r, <- app_assoc.
  - rewrite orb_false_r. destruct mm; simpl.
    + rewrite leaves_errors_Join. simpl. by rewrite ?app_nil_r.
    + by rewrite app_nil_r.
Qed.

Lemma finishTestCase_None tc tcErr mm stdoutDiff :
  finishTestCase tc (tcErr, mm) stdoutDiff = None ↔
  tcErr = None ∧ mm = false ∧ hasDiff stdoutDiff = false.
Proof.
  unfold finishTestCase. destruct (hasDiff stdoutDiff).
  - split; [|naive_solver]. intros H. by apply errors_Join_Some_r in H.
  - destruct mm.
    + split; [|naive_solver]. intros H. by apply errors_Join_Some_r in H.
    + naive_solver.
Qed.

(** *** The printed output *)

Lemma stdoutText_Some fs dir s :
  stdoutText fs dir = Some s →
  match os_ReadFile fs dir [ABCInternalDir; ABCInternalStdout] with
  | Err err => (if negb (is_ErrNotExist err)
                then Err (ErrWrap "failed to read" err) else Ok "")
  | Ok buf => Ok buf
  end = Ok s.
Proof.
  unfold stdoutText.
  destruct (os_ReadFile fs dir _) as [buf|err]; [by intros [= ->]|].
  destruct (is_ErrNotExist err); [by intros [= <-]|done].
Qed.

Lemma stdoutText_None fs dir :
  stdoutText fs dir = None →
  ∃ err,
  match os_ReadFile fs dir [ABCInternalDir; ABCInternalStdout] with
  | Err err => (if negb (is_ErrNotExist err)
                then Err (ErrWrap "failed to read" err) else Ok "")
  | Ok buf => Ok buf
  end = Err (ErrWrap "failed to read" err) ∧ is_ErrNotExist err = false.
Proof.
  unfold stdoutText.
  destruct (os_ReadFile fs dir _) as [buf|err]; [done|].
  destruct (is_ErrNotExist err) eqn:He; [done|]. intros _. by exists err.
Qed.

(** [getStdoutDiff] returns the difference of the two texts when both
    sides give one, and fails otherwise. *)
Lemma getStdoutDiff_texts fs g t :
  match stdoutText fs g, stdoutText fs t with
  | Some gs, Some ts => getStdoutDiff fs g t = Ok (DiffMain ts gs)
  | _, _ => ∃ err, getStdoutDiff fs g t = Err err
  end.
Proof.
  unfold getStdoutDiff.
  destruct (stdoutText fs g) as [gs|] eqn:Hg.
  - rewrite (stdoutText_Some _ _ _ Hg). simpl.
    destruct (stdoutText fs t) as [ts|] eqn:Ht.
    + by rewrite (stdoutText_Some _ _ _ Ht).
    + destruct (stdoutText_None _ _ Ht) as (err & -> & _). by eexists.
  - destruct (stdoutText_None _ _ Hg) as (err & -> & _). by eexists.
Qed.

(** *** One test case *)

(** X1. When the verification of a test case is not left by a read error,
    the error of the test case carries exactly: one message per compared
    path that differs, in the sorted order of the paths; then the message
    about the printed output if it differs; then the hint to run [record],
    which is present exactly when some file is not recorded, some file
    content differs or the printed output differs (a file that is expected
    but missing does not bring the hint by itself). *)
Theorem verifyTestCase_report
    (fs : trees) (location tempDir : string) (tc : TestCase)
    (tcErr : option error) :
  let g := goldenDataDirOf location tc in
  let t := tempDataDirOf tempDir tc in
  let relPaths := sortedPaths (found fs g ∪ found fs t) in
  is_Some (fs !! g) → is_Some (fs !! t) →
  verifyTestCase fs location tempDir tc = Ok tcErr →
  ∃ stdoutDiff,
    getStdoutDiff fs g t = Ok stdoutDiff ∧
    leaves_opt tcErr =
      (relPaths ≫= pathReport fs g t) ++ stdoutReport stdoutDiff ++
      hintReport (TestName tc)
        (existsb (pathFlag fs g t) relPaths || hasDiff stdoutDiff).
Proof.
  intros g t relPaths Hg Ht H.
  rewrite (verifyTestCase_unfold _ _ _ _ Hg Ht) in H. fold g t relPaths in H.
  apply bind_Ok in H as ([tcErr1 mm1] & H1 & H).
  apply bind_Ok in H as (stdoutDiff & H2 & H).
  assert (tcErr = finishTestCase tc (tcErr1, mm1) stdoutDiff) as ->
    by congruence.
  apply compareFiles_report in H1 as [H1 ->].
  destruct (getStdoutDiff fs g t) as [d|err]; [|done].
  injection H2 as ->. exists stdoutDiff. split; [done|].
  by rewrite finishTestCase_report, H1.
Qed.

(** X2. A test case passes exactly when every file found on either side
    can be read on both sides with the same contents and the printed
    output is the same on both sides (a missing [.abc/stdout] counting as
    empty output). *)
Theorem verifyTestCase_passes_iff
    (Hlaw : DepsLawful deps)
    (fs : trees) (location tempDir : string) (tc : TestCase) :
  let g := goldenDataDirOf location tc in
  let t := tempDataDirOf tempDir tc in
  is_Some (fs !! g) → is_Some (fs !! t) →
  verifyTestCase fs location tempDir tc = Ok None ↔
  (∀ p, p ∈ found fs g ∪ found fs t → agree fs g t p) ∧
  ∃ s, stdoutText fs g = Some s ∧ stdoutText fs t = Some s.
Proof.
  intros g t Hg Ht.
  rewrite (verifyTestCase_unfold _ _ _ _ Hg Ht). fold g t.
  pose proof (getStdoutDiff_texts fs g t) as Hs.
  split.
  - intros H. apply bind_Ok in H as ([tcErr1 mm1] & H1 & H).
    apply bind_Ok in H as (stdoutDiff & H2 & H).
    injection H as H. apply finishTestCase_None in H as (-> & -> & Hd).
    apply compareFiles_None in H1 as (_ & _ & H1).
    split.
    + intros p Hp. apply sortedPaths_elem_of in Hp.
      destruct (H1 p Hp) as (gc & tc' & Hgc & Htc & Hdiff).
      exists gc. split; [done|]. rewrite Htc. f_equal.
      destruct (decide (tc' = gc)) as [|Hne]; [done|].
      apply (DiffMain_differ (deps := deps)) in Hne. congruence.
    + destruct (stdoutText fs g) as [gs|]; [|by destruct Hs as [err Hs]; rewrite Hs in H2].
      destruct (stdoutText fs t) as [ts|]; [|by destruct Hs as [err Hs]; rewrite Hs in H2].
      rewrite Hs in H2. injection H2 as <-.
      exists gs. split; [done|]. f_equal.
      destruct (decide (ts = gs)) as [|Hne]; [done|].
      apply (DiffMain_differ (deps := deps)) in Hne. congruence.
  - intros [Hfiles (s & Hgs & Hts)].
    rewrite compareFiles_same.
    + rewrite Hgs, Hts in Hs. rewrite Hs. simpl.
      unfold finishTestCase. by rewrite DiffMain_same.
    + intros p Hp. apply sortedPaths_elem_of in Hp.
      destruct (Hfiles p Hp) as (c & Hgc & Htc).
      exists c, c. by rewrite DiffMain_same.
Qed.


(** *** Read errors *)

Lemma compareFiles_app fs g t l1 l2 st :
  compareFiles fs g t (l1 ++ l2) st =
  compareFiles fs g t l1 st ≫= compareFiles fs g t l2.
Proof.
  revert st. induction l1 as [|p l1 IH]; intros st; simpl; [done|].
  destruct (compareFile fs g t p st) as [st'|err]; simpl; [apply IH|done].
Qed.

(** The loop passes the paths at which no read fails for a reason other
    than the file not existing. *)
Lemma compareFiles_settled fs g t relPaths st :
  (∀ p, p ∈ relPaths → settled fs g t p) →
  ∃ st', compareFiles fs g t relPaths st = Ok st'.
Proof.
  revert st. induction relPaths as [|p l IH]; intros st H; simpl; [by eexists|].
  assert (∃ st1, compareFile fs g t p st = Ok st1) as [st1 ->].
  { destruct st as [tcErr mm]. unfold compareFile.
    assert (settled fs g t p) as Hp by (apply H; by left).
    destruct Hp as [(err & -> & ->)|[[gc ->] [[tc ->]|(err & -> & ->)]]];
      try by eexists.
    destruct (hasDiff _); by eexists. }
  simpl. apply IH. intros q Hq. apply H. by right.
Qed.

Lemma compareFile_readFailure fs g t p err shown st :
  readFailure fs g t p err shown →
  compareFile fs g t p st = Err (ErrWrap ("failed to read (" +:+ shown +:+ ")") err).
Proof.
  intros [Hne [[Hg ->]|[[gc Hg] [Ht ->]]]]; destruct st as [tcErr mm];
    unfold compareFile, shownFile.
  - by rewrite Hg, Hne.
  - by rewrite Hg, Ht, Hne.
Qed.

(** X4. A file that cannot be read, for a reason other than not existing,
    ends the verification of the test case: when the paths before it (in
    sorted order) are compared without such a failure, the result is the
    error [failed to read (<file>): <cause>], and the differences found at
    the earlier paths are not part of it. *)
Theorem verifyTestCase_read_error
    (fs : trees) (location tempDir : string) (tc : TestCase)
    (before after : list string) (p shown : string) (err : error) :
  let g := goldenDataDirOf location tc in
  let t := tempDataDirOf tempDir tc in
  is_Some (fs !! g) → is_Some (fs !! t) →
  sortedPaths (found fs g ∪ found fs t) = before ++ p :: after →
  (∀ q, q ∈ before → settled fs g t q) →
  readFailure fs g t p err shown →
  verifyTestCase fs location tempDir tc =
  Err (ErrWrap ("failed to read (" +:+ shown +:+ ")") err).
Proof.
  intros g t Hg Ht Hpaths Hbefore Hp.
  rewrite (verifyTestCase_unfold _ _ _ _ Hg Ht). fold g t.
  rewrite Hpaths, compareFiles_app.
  destruct (compareFiles_settled fs g t before (None, false) Hbefore) as [st ->].
  simpl. by rewrite (compareFile_readFailure _ _ _ _ _ _ _ Hp).
Qed.

(** X5. A test case whose recorded data directory, or whose rendered data
    directory, does not exist is not compared: its verification ends with
    the error of the walk, which is a not-exist error. *)
Theorem verifyTestCase_missing_data_dir
    (fs : trees) (location tempDir : string) (tc : TestCase) :
  fs !! goldenDataDirOf location tc = None ∨
  fs !! tempDataDirOf tempDir tc = None →
  ∃ e, verifyTestCase fs location tempDir tc = Err e ∧
       is_ErrNotExist e = true ∧ leaves e = [ErrNotExist].
Proof.
  intros H. exists (ErrWrap "fs.WalkDir" (ErrWrap "fs.WalkDir" ErrNotExist)).
  split; [|done]. unfold verifyTestCase.
  rewrite addTestFiles_spec.
  destruct (fs !! goldenDataDirOf location tc) as [ng|] eqn:Hg; [|done].
  destruct H as [H|H]; [done|]. simpl.
  by rewrite addTestFiles_spec, H.
Qed.

(** *** All test cases *)







(** *** Collecting the files *)

(** X9. [addTestFiles] only adds to the set it is given, adds no path
    under the top-level [.abc], adds nothing when called again on the same
    directory, and the order in which two directories are added does not
    change the result. *)
Theorem addTestFiles_accumulates
    (fs : trees) (fileSet fileSet' : gset string) (dir dir' : string) :
  addTestFiles fs fileSet dir = Ok fileSet' →
  fileSet ⊆ fileSet' ∧
  (∀ p, p ∈ fileSet' → p ∉ fileSet → IsReservedInDest p = false) ∧
  addTestFiles fs fileSet' dir = Ok fileSet' ∧
  (addTestFiles fs fileSet dir' ≫= λ s, addTestFiles fs s dir) =
  addTestFiles fs fileSet' dir'.
Proof.
  rewrite !addTestFiles_spec.
  destruct (fs !! dir) as [n|] eqn:Hdir; [|done]. intros [= <-].
  split; [set_solver|]. split.
  { intros p Hp Hn. apply (found_not_reserved fs dir). set_solver. }
  split.
  { f_equal. apply set_eq. set_solver. }
  destruct (fs !! dir') as [n'|] eqn:Hdir'; simpl; [|done].
  rewrite addTestFiles_spec, Hdir. f_equal. apply set_eq. set_solver.
Qed.

End Facts.

(** *** Examples *)

Import examples.

Lemma verifyTestCase_report_witness :
  ∃ tcErr,
    verifyTestCase (fp := unix) (deps := plainDeps) goldenTrees
      "/tpl" "/tmp/r" (mkTestCase "basic") = Ok tcErr ∧
    leaves_opt tcErr =
      [ msgMissing (deps := plainDeps) "/tpl/testdata/golden/basic/data/b.txt";
        msgNotRecorded (deps := plainDeps) "/tpl/testdata/golden/basic/data/c.txt";
        msgMismatch (deps := plainDeps) "basic" ].
Proof.
  destruct (verifyTestCase (fp := unix) (deps := plainDeps) goldenTrees
              "/tpl" "/tmp/r" (mkTestCase "basic")) as [tcErr|e] eqn:Hv;
    [|by vm_compute in Hv].
  exists tcErr. split; [done|].
  destruct (verifyTestCase_report (fp := unix) (deps := plainDeps) goldenTrees
              "/tpl" "/tmp/r" (mkTestCase "basic") tcErr
              ltac:(by eexists) ltac:(by eexists) Hv)
    as (stdoutDiff & Hs & ->).
  vm_compute in Hs. injection Hs as <-. vm_compute. reflexivity.
Defined.

Lemma verifyTestCase_passes_iff_witness :
  verifyTestCase (fp := unix) (deps := plainDeps) passingTrees
    "/tpl" "/tmp/r" (mkTestCase "same") = Ok None.
Proof.
  apply (verifyTestCase_passes_iff (fp := unix) plainDeps_Lawful passingTrees
           "/tpl" "/tmp/r" (mkTestCase "same"));
    [by eexists|by eexists|].
  split.
  - intros p Hp.
    assert (p ∈ ["a.txt"; "d/.gitignore.abc_renamed"]) as Hl.
    { apply sortedPaths_elem_of in Hp. vm_compute in Hp. exact Hp. }
    repeat (apply elem_of_cons in Hl as [->|Hl]; [by eexists|]).
    by apply elem_of_nil in Hl.
  - by exists "".
Defined.


Lemma verifyTestCase_read_error_witness :
  verifyTestCase (fp := unix) (deps := plainDeps) lockedTrees
    "/tpl" "/tmp/r" (mkTestCase "locked")
  = Err (ErrWrap "failed to read (/tmp/r/testdata/golden/locked/data/b.txt)"
           ErrPermission).
Proof.
  apply (verifyTestCase_read_error (fp := unix) (deps := plainDeps) lockedTrees
           "/tpl" "/tmp/r" (mkTestCase "locked") ["a.txt"] [] "b.txt"
           "/tmp/r/testdata/golden/locked/data/b.txt" ErrPermission).
  - by eexists.
  - by eexists.
  - vm_compute. reflexivity.
  - intros q Hq. apply list_elem_of_singleton in Hq as ->.
    right. split; [by eexists|]. left. by eexists.
  - split; [reflexivity|]. right. split; [by eexists|]. by split.
Defined.

Lemma verifyTestCase_missing_data_dir_witness :
  ∃ e, verifyTestCase (fp := unix) (deps := plainDeps) goldenTrees
         "/tpl" "/tmp/r" (mkTestCase "never_recorded") = Err e ∧
       is_ErrNotExist e = true ∧ leaves e = [ErrNotExist].
Proof.
  apply (verifyTestCase_missing_data_dir (fp := unix) (deps := plainDeps)).
  left. reflexivity.
Defined.



Lemma addTestFiles_accumulates_witness :
  ({[ "kept" ]} : gset string) ⊆ {[ "a.txt"; "b.txt"; "kept" ]}.
Proof.
  apply (addTestFiles_accumulates goldenTrees {[ "kept" ]}
           {[ "a.txt"; "b.txt"; "kept" ]}
           "/tpl/testdata/golden/basic/data" "/tmp/r/testdata/golden/basic/data").
  vm_compute. reflexivity.
Defined.

(** A file that is expected but missing is reported without the hint to
    run [record]. *)
Example missing_file_without_hint :
  leaves_opt <$> verifyTestCase (fp := unix) (deps := plainDeps)
    {[ "/tpl/testdata/golden/t/data" := Dir [("a.txt", File "A")];
       "/tmp/r/testdata/golden/t/data" := Dir [] ]}
    "/tpl" "/tmp/r" (mkTestCase "t")
  = Ok [ ErrNew "-- [/tpl/testdata/golden/t/data/a.txt] expected, however missing" ].
Proof. vm_compute. reflexivity. Qed.

End verify_more.

(** ** The local downloader: when it succeeds and how it fails *)

Module templatesource_more.
Import filepath templatesource templatesource_facts.

(** Takes a hypothesis made of disjunctions, conjunctions and witnesses
    apart, and uses the equations it finds. *)
Local Ltac unpack H :=
  repeat match type of H with
         | _ ∨ _ => destruct H as [H|H]
         | _ ∧ _ => let H1 := fresh in destruct H as [H1 H]
         | ∃ _, _ => destruct H as [? H]
         end;
  simplify_eq.

Section Facts.
Context {env : Env} {fp : filepath.Ops}.

(** X10. [canonicalize] fails exactly when a workspace lookup fails (with
    that error), or when the template and the destination share a git
    workspace and either the relative path cannot be computed (the error
    is wrapped as [filepath.Rel]) or the version lookup fails.  Outside a
    shared workspace neither [filepath.Rel] nor the version lookup can
    make it fail. *)
Theorem canonicalize_fails_iff
    (w : World) (cwd src dest : string) (dirty : bool) (e : error) :
  canonicalize w cwd src dest dirty = Err e ↔
  git_Workspace w src = Err e ∨
  ∃ srcWs srcIsGit,
    git_Workspace w src = Ok (srcWs, srcIsGit) ∧
    (git_Workspace w (absDestOf cwd dest) = Err e ∨
     ∃ destWs destIsGit,
       git_Workspace w (absDestOf cwd dest) = Ok (destWs, destIsGit) ∧
       srcIsGit && destIsGit && String.eqb srcWs destWs = true ∧
       ((∃ err, Rel (absDestOf cwd dest) src = Err err ∧
                e = ErrWrap "filepath.Rel" err) ∨
        (is_Ok (Rel (absDestOf cwd dest) src) = true ∧
         gitCanonicalVersion w srcWs dirty = Err e))).
Proof.
  unfold canonicalize, absDestOf.
  replace (if negb (IsAbs dest) then Join [cwd; dest] else dest)
    with (if IsAbs dest then dest else Join [cwd; dest])
    by (by destruct (IsAbs dest)).
  set (absDest := if IsAbs dest then dest else Join [cwd; dest]).
  destruct (git_Workspace w src) as [[srcWs srcIsGit]|e1] eqn:Hs; simpl.
  2:{ split; [intros [= ->]; by left|]. intros H. unpack H; congruence. }
  destruct (git_Workspace w absDest) as [[destWs destIsGit]|e2] eqn:Hd; simpl.
  2:{ split; [|intros H; unpack H; congruence]. intros [= ->]. right.
      exists srcWs, srcIsGit. split; [done|]. by left. }
  replace (negb srcIsGit || negb destIsGit || negb (String.eqb srcWs destWs))
    with (negb (srcIsGit && destIsGit && String.eqb srcWs destWs))
    by (by destruct srcIsGit, destIsGit, (String.eqb srcWs destWs)).
  destruct (srcIsGit && destIsGit && String.eqb srcWs destWs) eqn:Hsame; simpl.
  2:{ split; [done|]. intros H. unpack H; congruence. }
  destruct (Rel absDest src) as [out|e3] eqn:Hrel; simpl.
  2:{ split; [|intros H; unpack H; simpl in *; congruence]. intros [= <-].
      right. exists srcWs, srcIsGit. split; [done|].
      right. exists destWs, destIsGit. split; [done|]. split; [done|].
      left. by exists e3. }
  destruct (gitCanonicalVersion w srcWs dirty) as [[v ok]|e4] eqn:Hv; simpl.
  - split; [done|]. intros H. unpack H; congruence.
  - split; [|intros H; unpack H; congruence]. intros [= <-].
    right. exists srcWs, srcIsGit. split; [done|].
    right. exists destWs, destIsGit. split; [done|]. split; [done|].
    by right.
Qed.

(** X11. [Download] succeeds exactly when the copy, the git variables and
    the two workspace lookups succeed and, in case the template and the
    destination share a git workspace, the relative path and the version
    can be computed. *)
Theorem Download_succeeds_iff
    (l : LocalDownloader) (w : World) (cwd destDir : string) :
  is_Ok (Download l w cwd destDir) = true ↔
  ∃ w' gitVars srcWs srcIsGit destWs destIsGit,
    common_CopyRecursive w (SrcPath l) destDir = Ok w' ∧
    gitTemplateVars w' (SrcPath l) = Ok gitVars ∧
    git_Workspace w' (SrcPath l) = Ok (srcWs, srcIsGit) ∧
    git_Workspace w' (absDestOf cwd destDir) = Ok (destWs, destIsGit) ∧
    (srcIsGit && destIsGit && String.eqb srcWs destWs = true →
     is_Ok (Rel (absDestOf cwd destDir) (SrcPath l)) = true ∧
     is_Ok (gitCanonicalVersion w' srcWs (allowDirty l)) = true).
Proof.
  split.
  - destruct (Download l w cwd destDir) as [[w' meta]|e] eqn:H; [|done].
    intros _.
    apply Download_Ok in H as (Hcp & gitVars & cs & v & lt & Hv & Hc & _).
    apply canonicalize_Ok in Hc
      as (srcWs & srcIsGit & destWs & destIsGit & Hs & Hd & Hc).
    exists w', gitVars, srcWs, srcIsGit, destWs, destIsGit.
    repeat (split; [done|]). intros Hsame. rewrite Hsame in Hc.
    destruct Hc as (out & ok & -> & -> & _). done.
  - intros (w' & gitVars & srcWs & srcIsGit & destWs & destIsGit &
            Hcp & Hv & Hs & Hd & Hsame).
    destruct (Download_returns l w cwd destDir _ _ _ _ _ _ Hcp Hv Hs Hd Hsame)
      as [meta ->]. done.
Qed.

End Facts.
End templatesource_more.

(** ** The [string_replace] action: the arguments of the replacer *)

Module render_more.
Import model render Replacer render_facts.

Section Facts.
Context {ex : Expander}.

Lemma length_flatten (ps : list (string * string)) :
  length (flatten ps) = (2 * length ps)%nat.
Proof.
  unfold flatten. induction ps as [|p ps IH]; [done|].
  rewrite bind_cons, length_app, IH. simpl. lia.
Qed.

Lemma expandedPairs_length rs sc ps :
  expandedPairs rs sc = Ok ps → length ps = length rs.
Proof.
  revert ps. induction rs as [|r rs IH]; intros ps.
  - by intros [= <-].
  - rewrite expandedPairs_cons. intros H.
    apply bind_Ok in H as (p & _ & H). apply bind_Ok in H as (ps' & H' & H).
    injection H as <-. simpl. f_equal. by apply IH.
Qed.

(** X12. The arguments [actionStringReplace] gives to
    [strings.NewReplacer] always come in pairs, one pair per replacement
    in the order of the list, so that [NewReplacer] cannot panic on an odd
    argument count. *)
Theorem expandReplacements_pairs
    (rs : list StringReplacement) (sc : Scope) (replacerArgs : list string) :
  expandReplacements rs sc [] = Ok replacerArgs →
  length replacerArgs = (2 * length rs)%nat ∧
  ∃ replacer,
    NewReplacer replacerArgs = Ok replacer ∧
    length replacer = length rs ∧
    expandedPairs rs sc = Ok replacer.
Proof.
  rewrite expandReplacements_spec. intros H.
  apply bind_Ok in H as (ps & Hps & H). injection H as <-. simpl.
  rewrite length_flatten, (expandedPairs_length _ _ _ Hps).
  split; [done|]. exists ps. rewrite NewReplacer_flatten.
  split; [done|]. split; [|done]. by apply expandedPairs_length with sc.
Qed.

Lemma expandedPairs_app_Err rs1 r rs2 sc ps1 e :
  expandedPairs rs1 sc = Ok ps1 → expandPair sc r = Err e →
  expandedPairs (rs1 ++ r :: rs2) sc = Err e.
Proof.
  revert ps1. induction rs1 as [|r1 rs1 IH]; intros ps1; cbn [app].
  - intros _ Hr. rewrite expandedPairs_cons, Hr. done.
  - rewrite !expandedPairs_cons. intros H Hr.
    apply bind_Ok in H as (p & -> & H). apply bind_Ok in H as (ps' & H' & _).
    simpl. by rewrite (IH _ H' Hr).
Qed.

(** X13. The replacements are expanded in the order of the list, the
    [to_replace] field of each before its [with] field, and the first
    expansion that fails ends the action with its error: the later
    replacements are not expanded and no file is read. *)
Theorem actionStringReplace_first_expansion_error
    (sr : StringReplace) (sp : stepParams)
    (before after : list StringReplacement) (r : StringReplacement)
    (e : error) :
  Replacements sr = before ++ r :: after →
  is_Ok (expandedPairs before (scope sp)) = true →
  (parseAndExecuteGoTmpl (Pos (ToReplace r)) (Val (ToReplace r)) (scope sp)
     = Err e ∨
   (is_Ok (parseAndExecuteGoTmpl (Pos (ToReplace r)) (Val (ToReplace r))
             (scope sp)) = true ∧
    parseAndExecuteGoTmpl (Pos (With r)) (Val (With r)) (scope sp) = Err e)) →
  expandReplacements (Replacements sr) (scope sp) [] = Err e ∧
  actionStringReplace sr sp = Err e.
Proof.
  intros Hrs Hb Hr.
  destruct (expandedPairs before (scope sp)) as [ps1|] eqn:Hps1; [|done].
  assert (expandPair (scope sp) r = Err e) as He.
  { unfold expandPair. destruct Hr as [->|[Ho ->]]; [done|].
    by destruct (parseAndExecuteGoTmpl (Pos (ToReplace r)) _ _). }
  pose proof (expandedPairs_app_Err _ _ after _ _ _ Hps1 He) as H.
  rewrite <- Hrs in H.
  rewrite actionStringReplace_unfold, expandReplacements_spec, H. done.
Qed.

End Facts.

Import examples.

Lemma expandReplacements_pairs_witness :
  NewReplacer ["[name]"; "world"; "a"; "b"]
  = Ok [("[name]", "world"); ("a", "b")].
Proof.
  pose (p := mkPos 1 1).
  pose (sc := ({[ "name" := "world" ]} : gmap string string)).
  assert (expandReplacements (ex := toyExpander)
            [ {| ToReplace := mkString p "[name]"; With := mkString p "{{.name}}" |};
              {| ToReplace := mkString p "a"; With := mkString p "b" |} ]
            sc []
          = Ok ["[name]"; "world"; "a"; "b"]) as Hx
    by (vm_compute; reflexivity).
  destruct (expandReplacements_pairs (ex := toyExpander) _ _ _ Hx)
    as (_ & replacer & H & _ & Hps).
  vm_compute in Hps. injection Hps as <-. exact H.
Defined.

Lemma actionStringReplace_first_expansion_error_witness :
  let p := mkPos 1 1 in
  actionStringReplace (ex := toyExpander)
    {| Paths := [mkString p "."];
       Replacements := [ {| ToReplace := mkString p "a"; With := mkString p "b" |};
                         {| ToReplace := mkString p "x";
                            With := mkString p "{{.missing}}" |};
                         {| ToReplace := mkString p "{{.also_missing}}";
                            With := mkString p "y" |} ] |}
    {| scope := (∅ : Scope (Expander := toyExpander)); scratchDir := [("a.txt", "x")] |}
  = Err (ErrNew "undefined variable").
Proof.
  intros p.
  apply (actionStringReplace_first_expansion_error (ex := toyExpander)
           {| Paths := [mkString p "."];
              Replacements :=
                [ {| ToReplace := mkString p "a"; With := mkString p "b" |};
                  {| ToReplace := mkString p "x";
                     With := mkString p "{{.missing}}" |};
                  {| ToReplace := mkString p "{{.also_missing}}";
                     With := mkString p "y" |} ] |}
           {| scope := (∅ : Scope (Expander := toyExpander)); scratchDir := [("a.txt", "x")] |}
           [ {| ToReplace := mkString p "a"; With := mkString p "b" |} ]
           [ {| ToReplace := mkString p "{{.also_missing}}";
                With := mkString p "y" |} ]
           {| ToReplace := mkString p "x"; With := mkString p "{{.missing}}" |}
           (ErrNew "undefined variable")).
  - reflexivity.
  - reflexivity.
  - right. split; reflexivity.
Defined.

End render_more.

(** ** The destination of a render and the local source parser *)

Module render_command_facts.
Import filepath templatesource render_command templatesource_facts.

Section Facts.
Context {env : Env} {fp : filepath.Ops} {fmt : Fmt}.

(** X14. [destOK] accepts a destination exactly when it is a directory or
    does not exist; it rejects an existing file, and a failing [Stat] is
    reported with its cause.  A path that [sourceParse] takes as a local
    template directory is therefore accepted as a destination, and the
    two functions fail on the same [Stat] errors. *)
Theorem destOK_accepts_iff (w : World) (dest : string) :
  (destOK w dest = None ↔
   (∃ fi, os_Stat w dest = Ok fi ∧ IsDir fi = true) ∨
   (∃ err, os_Stat w dest = Err err ∧ common_IsStatNotExistErr err = true)) ∧
  (∀ params d, absSourceOf params = dest →
     sourceParse w params = Ok (Some d) → destOK w dest = None) ∧
  (∀ params err, absSourceOf params = dest →
     sourceParse w params = Err (ErrWrap "Stat()" err) ↔
     destOK w dest = Some (ErrWrap ("os.Stat(" +:+ dest +:+ ")") err)).
Proof.
  unfold destOK. split; [|split].
  - destruct (os_Stat w dest) as [[[]]|err] eqn:Hst; simpl.
    + split; [|done]. intros _. left. by eexists.
    + split; [done|]. intros [(fi & [= <-] & ?)|(err & [=] & _)]. done.
    + destruct (common_IsStatNotExistErr err) eqn:He.
      * split; [|done]. intros _. right. by exists err.
      * split; [done|]. intros [(fi & [=] & _)|(err' & [= <-] & ?)]. congruence.
  - intros params d <-. rewrite sourceParse_unfold.
    destruct (os_Stat w (absSourceOf params)) as [[[]]|err]; simpl; try done.
    by destruct (common_IsStatNotExistErr err).
  - intros params err <-. rewrite sourceParse_unfold.
    destruct (os_Stat w (absSourceOf params)) as [[[]]|err']; simpl;
      try (split; done).
    destruct (common_IsStatNotExistErr err'); [split; done|].
    split; intros [= ->]; done.
Qed.

End Facts.
End render_command_facts.

(** ** Test cases and test directories *)

Module goldentest_common_facts.
Import common filepath model goldentest verify goldentest_common verify_facts.

Lemma filter_iff_elem_of {A} (P1 P2 : A → Prop)
    `{!∀ x, Decision (P1 x), !∀ x, Decision (P2 x)} (l : list A) :
  (∀ x, x ∈ l → (P1 x ↔ P2 x)) → filter P1 l = filter P2 l.
Proof.
  induction l as [|a l IH]; intros Hiff; [done|].
  assert (filter P1 l = filter P2 l) as Hl.
  { apply IH. intros x Hx. apply Hiff. by right. }
  assert (P1 a ↔ P2 a) as Ha by (apply Hiff; by left).
  destruct (decide (P1 a)).
  - rewrite !filter_cons_True by tauto. by rewrite Hl.
  - rewrite !filter_cons_False by tauto. exact Hl.
Qed.

Lemma filter_all {A} (P : A → Prop) `{!∀ x, Decision (P x)} (l : list A) :
  (∀ x, x ∈ l → P x) → filter P l = l.
Proof.
  induction l as [|a l IH]; intros Hall; [done|].
  rewrite filter_cons_True by (apply Hall; by left).
  f_equal. apply IH. intros x Hx. apply Hall. by right.
Qed.

Section Facts.
Context {fp : filepath.Ops} {deps : goldentest_common.Deps}.

(** *** Parsing the test cases *)

Lemma parseEntries_Ok fs testDir entries testCases tcs :
  parseEntries fs testDir entries testCases = Ok tcs ↔
  ∃ new, tcs = testCases ++ new ∧ Forall2 (parsedFrom fs testDir) entries new.
Proof.
  revert testCases. induction entries as [|entry rest IH]; intros testCases; simpl.
  - split.
    + intros [= <-]. exists []. by rewrite app_nil_r.
    + intros (new & -> & H). apply Forall2_nil_inv_l in H as ->.
      by rewrite app_nil_r.
  - destruct (is_dir entry.2) eqn:Hd; simpl.
    + destruct (parseTestConfig fs testDir [entry.1; configName]) as [test|e] eqn:Hp;
        simpl.
      * rewrite IH. split.
        -- intros (new & -> & H).
           exists ({| TestName := entry.1; TestConfig := test |} :: new).
           rewrite <- app_assoc. split; [done|]. by constructor.
        -- intros (new & -> & H).
           apply Forall2_cons_inv_l in H as (tc & new' & (_ & Hn & Ht) & H & ->).
           exists new'. split; [|done]. rewrite <- app_assoc. simpl.
           rewrite Hp in Ht. destruct tc as [n t]. simpl in *. by simplify_eq.
      * split; [done|]. intros (new & -> & H).
        apply Forall2_cons_inv_l in H as (tc & new' & (_ & _ & Ht) & _).
        congruence.
    + split; [done|]. intros (new & -> & H).
      apply Forall2_cons_inv_l in H as (tc & new' & (Hd' & _) & _).
      congruence.
Qed.

(** X15. Without a test name, [parseTestCases] succeeds exactly when the
    template directory exists and every entry of its [testdata/golden]
    directory is a directory whose [test.yaml] can be parsed; the test
    cases it returns are these entries, one for one and in their order,
    each named after its entry and holding its parsed configuration. *)
Theorem parseTestCases_all_iff
    (fs : trees) (location : string) (tcs : list TestCase) :
  let testDir := Join [location; goldenTestDir] in
  parseTestCases fs location "" = Ok tcs ↔
  is_Some (fs !! location) ∧
  ∃ entries, fs !! testDir = Some (Dir entries) ∧
             Forall2 (parsedFrom fs testDir) entries tcs.
Proof.
  intros testDir. unfold parseTestCases, os_Stat, os_ReadDir. fold testDir.
  destruct (fs !! location) as [n|]; simpl.
  2:{ split; [done|]. by intros [[? [=]] _]. }
  destruct (fs !! testDir) as [[| |entries]|]; simpl;
    try (split; [done|]; intros [_ (entries & [=] & _)]).
  rewrite parseEntries_Ok. split.
  - intros (new & -> & H). split; [by eexists|]. by exists entries.
  - intros [_ (entries' & [= <-] & H)]. by exists tcs.
Qed.

Lemma parseEntries_file fs testDir before name n after testCases :
  Forall (λ entry, is_dir entry.2 = true ∧
            is_Ok (parseTestConfig fs testDir [entry.1; configName]) = true)
         before →
  is_dir n = false →
  parseEntries fs testDir (before ++ (name, n) :: after) testCases
  = Err (ErrNew ("unexpected file entry under golden test directory: " +:+ name)).
Proof.
  intros Hb Hn. revert testCases.
  induction Hb as [|entry rest [Hd Hp] _ IH]; intros testCases; simpl.
  - by rewrite Hn.
  - rewrite Hd. simpl.
    destruct (parseTestConfig fs testDir [entry.1; configName]); [|done].
    simpl. apply IH.
Qed.

(** X16. An entry of [testdata/golden] that is not a directory makes
    [parseTestCases] fail when no test name is given: the error names the
    first such entry, provided the entries before it are test directories
    that can be parsed.  With a test name the directory is not listed:
    only the configuration of that test is read. *)
Theorem parseTestCases_file_entry
    (fs : trees) (location : string)
    (before after : list (string * node)) (name : string) (n : node) :
  let testDir := Join [location; goldenTestDir] in
  is_Some (fs !! location) →
  fs !! testDir = Some (Dir (before ++ (name, n) :: after)) →
  Forall (λ entry, is_dir entry.2 = true ∧
            is_Ok (parseTestConfig fs testDir [entry.1; configName]) = true)
         before →
  is_dir n = false →
  parseTestCases fs location ""
  = Err (ErrNew ("unexpected file entry under golden test directory: " +:+ name)) ∧
  ∀ testName, testName ≠ "" →
    parseTestCases fs location testName
    = (λ test, [ {| TestName := testName; TestConfig := test |} ])
      <$> parseTestConfig fs testDir [testName; configName].
Proof.
  intros testDir [l Hl] Hdir Hb Hn.
  unfold parseTestCases, os_Stat, os_ReadDir. fold testDir. rewrite Hl, Hdir.
  split.
  - simpl. by apply parseEntries_file.
  - intros testName Hne. unfold is_empty.
    destruct (String.eqb_spec testName ""); [done|]. simpl.
    by destruct (parseTestConfig fs testDir [testName; configName]).
Qed.

(** *** Clearing a test directory *)

Lemma path_elems_valid (name : string) :
  valid_name name = true → path_elems [name] = [name].
Proof.
  intros H. apply valid_name_spec in H as (H1 & H2 & H3).
  unfold path_elems. simpl. rewrite app_nil_r, H3.
  rewrite filter_cons_True by done. done.
Qed.

Lemma removed_child (fs : trees) (dir name : string) (cur : list (string * node)) :
  fs !! dir = Some (Dir cur) → valid_name name = true →
  removed fs dir [name]
  = <[dir := Dir (filter (λ entry, entry.1 ≠ name) cur)]> fs.
Proof.
  intros Hdir Hname. unfold removed.
  by rewrite (path_elems_valid _ Hname), Hdir.
Qed.

Lemma removeOutdated_Ok (Hlaw : DepsLawful deps) dir files fs cur fs' :
  fs !! dir = Some (Dir cur) →
  Forall (λ file, valid_name file.1 = true) files →
  removeOutdated fs dir files = Ok fs' →
  fs' = <[dir := Dir (filter (λ entry, entry.1 = configName ∨ entry.1 ∉ files.*1)
                        cur)]> fs.
Proof.
  intros Hdir Hfiles. revert fs cur Hdir.
  induction Hfiles as [|file rest Hfile _ IH]; intros fs cur Hdir; simpl.
  - intros [= <-]. rewrite filter_all.
    + by rewrite insert_id.
    + intros entry _. right. apply not_elem_of_nil.
  - destruct (String.eqb_spec file.1 configName) as [Hc|Hc]; simpl.
    + intros H. rewrite (IH _ _ Hdir H). do 2 f_equal.
      apply list_filter_iff. intros entry. rewrite not_elem_of_cons.
      destruct (decide (entry.1 = configName)) as [He|He]; [tauto|].
      rewrite Hc. tauto.
    + destruct (os_RemoveAll fs dir [file.1]) as [fs1|err] eqn:Hrm; [|done].
      apply os_RemoveAll_Ok in Hrm.
      rewrite (removed_child _ _ _ _ Hdir Hfile) in Hrm. subst fs1.
      intros H.
      apply (IH _ (filter (λ entry, entry.1 ≠ file.1) cur)) in H;
        [|apply lookup_insert_eq].
      rewrite insert_insert_eq in H. rewrite H. do 2 f_equal.
      rewrite list_filter_filter. apply list_filter_iff. intros entry.
      rewrite not_elem_of_cons.
      destruct (decide (entry.1 = configName)) as [He|He]; [|tauto].
      split; [tauto|]. intros _. split; [tauto|]. congruence.
Qed.

Lemma removeOutdated_kept fs dir entries :
  removeOutdated fs dir (kept entries) = Ok fs.
Proof.
  unfold kept. induction entries as [|entry rest IH]; [done|].
  destruct (decide (entry.1 = configName)) as [He|He].
  - rewrite filter_cons_True by done. simpl. rewrite He. simpl. exact IH.
  - by rewrite filter_cons_False.
Qed.

Lemma filter_config_names (entries : list (string * node)) :
  filter (λ entry, entry.1 = configName ∨ entry.1 ∉ entries.*1) entries
  = kept entries.
Proof.
  unfold kept. apply filter_iff_elem_of. intros entry He.
  split; [|tauto]. intros [H|H]; [done|].
  destruct H. by apply list_elem_of_fmap_2.
Qed.

Lemma clearTestDir_cleared (Hlaw : DepsLawful deps) fs fs' dir entries :
  fs !! dir = Some (Dir entries) →
  Forall (λ entry, valid_name entry.1 = true) entries →
  clearTestDir fs dir = Ok fs' →
  fs' = <[dir := Dir (kept entries)]> fs.
Proof.
  intros Hdir Hnames. unfold clearTestDir, os_ReadDir. rewrite Hdir.
  intros H. apply (removeOutdated_Ok Hlaw _ _ _ _ _ Hdir Hnames) in H.
  by rewrite filter_config_names in H.
Qed.

(** X17. [clearTestDir] keeps, of the entries of the test directory, the
    test configuration [test.yaml] and removes all the others, whether
    files or directories; clearing the directory again removes nothing.
    The hypotheses are the contract of [os.RemoveAll] and that the entries
    have names a directory entry can have. *)
Theorem clearTestDir_keeps_only_config
    (Hlaw : DepsLawful deps)
    (fs fs' : trees) (dir : string) (entries : list (string * node)) :
  fs !! dir = Some (Dir entries) →
  Forall (λ entry, valid_name entry.1 = true) entries →
  clearTestDir fs dir = Ok fs' →
  fs' = <[dir := Dir (kept entries)]> fs ∧
  os_ReadDir fs' dir = Ok (kept entries) ∧
  clearTestDir fs' dir = Ok fs'.
Proof.
  intros Hdir Hnames H.
  apply (clearTestDir_cleared Hlaw _ _ _ _ Hdir Hnames) in H. subst fs'.
  split; [done|]. unfold clearTestDir, os_ReadDir. rewrite lookup_insert_eq.
  split; [done|]. apply removeOutdated_kept.
Qed.

(** A test directory that does not exist is left alone by
    [clearTestDir], which then succeeds without removing anything; a test
    directory that is a file makes it fail. *)
Lemma clearTestDir_without_directory (fs : trees) (dir : string) :
  (fs !! dir = None → clearTestDir fs dir = Ok fs) ∧
  (∀ contents, fs !! dir = Some (File contents) →
     clearTestDir fs dir = Err (ErrWrap "failed to read test dir" ErrNotDir)).
Proof.
  unfold clearTestDir, os_ReadDir. split.
  - by intros ->.
  - by intros contents ->.
Qed.

(** *** Rendering a test case *)

Lemma renderArgs_inputs (inputs : list VarValue) (args : list string) :
  fold_left
    (λ args input,
       (args ++ ["--input"]) ++
       [Val (Name input) +:+ "=" +:+ Val (Value input)])
    inputs args
  = args ++ (inputs ≫= λ input,
               ["--input"; Val (Name input) +:+ "=" +:+ Val (Value input)]).
Proof.
  revert args. induction inputs as [|input rest IH]; intros args; simpl.
  - by rewrite app_nil_r.
  - rewrite IH. by rewrite <- !app_assoc.
Qed.

(** X18. [renderTestCase] runs the [render] command on a test directory
    from which everything but [test.yaml] has been removed, with the
    arguments [--dest <test dir> --force-overwrite], then one
    [--input name=value] pair per input of the test configuration, in
    their order, and the template directory last. *)
Theorem renderTestCase_runs_on_cleared_dir
    (Hlaw : DepsLawful deps)
    (fs fs' : trees) (templateDir outputDir : string) (tc : TestCase)
    (entries : list (string * node)) :
  let testDir := Join [outputDir; goldenTestDir; TestName tc] in
  fs !! testDir = Some (Dir entries) →
  Forall (λ entry, valid_name entry.1 = true) entries →
  renderTestCase fs templateDir outputDir tc = Ok fs' →
  render_Run (<[testDir := Dir (kept entries)]> fs)
    (["--dest"; testDir; "--force-overwrite"] ++
     (Inputs (TestConfig tc) ≫= λ input,
        ["--input"; Val (Name input) +:+ "=" +:+ Val (Value input)]) ++
     [templateDir])
  = Ok fs'.
Proof.
  intros testDir Hdir Hnames. unfold renderTestCase. fold testDir.
  destruct (clearTestDir fs testDir) as [fs1|err] eqn:Hclear; [|done].
  apply (clearTestDir_cleared Hlaw _ _ _ _ Hdir Hnames) in Hclear. subst fs1.
  unfold renderArgs. rewrite renderArgs_inputs, <- app_assoc.
  by destruct (render_Run _ _).
Qed.

End Facts.

(** *** Examples *)

Import examples.

Lemma plainCommonDeps_Lawful : DepsLawful plainCommonDeps.
Proof. split. intros fs dir rels fs' H. by injection H as <-. Qed.

(** The two golden tests of the template at [/tpl]. *)
Example parseTestCases_example :
  parseTestCases (fp := unix) (deps := plainCommonDeps) testCaseTrees "/tpl" ""
  = Ok [ {| TestName := "basic";
            TestConfig := {| t_Pos := mkPos 1 1; Inputs := [] |} |};
         {| TestName := "other";
            TestConfig := {| t_Pos := mkPos 1 1; Inputs := [] |} |} ].
Proof. vm_compute. reflexivity. Qed.

Lemma parseTestCases_file_entry_witness :
  parseTestCases (fp := unix) (deps := plainCommonDeps) testCaseTrees "/tpl2" ""
  = Err (ErrNew "unexpected file entry under golden test directory: notes.txt").
Proof.
  refine (proj1 (parseTestCases_file_entry (fp := unix) (deps := plainCommonDeps)
                   testCaseTrees "/tpl2"
                   [("basic", Dir [("test.yaml", File "inputs: []")])]
                   [("other", Dir [("test.yaml", File "inputs: []")])]
                   "notes.txt" (File "to do") _ _ _ _)).
  - by eexists.
  - reflexivity.
  - constructor; [|constructor]. split; reflexivity.
  - reflexivity.
Defined.

Lemma clearTestDir_keeps_only_config_witness :
  clearTestDir (deps := plainCommonDeps) testCaseTrees "/tpl/testdata/golden/basic"
  = Ok (<["/tpl/testdata/golden/basic" :=
            Dir [("test.yaml", File "inputs: []")]]> testCaseTrees).
Proof.
  destruct (clearTestDir (deps := plainCommonDeps) testCaseTrees
              "/tpl/testdata/golden/basic") as [fs'|err] eqn:H;
    [|by vm_compute in H].
  f_equal.
  apply (clearTestDir_keeps_only_config (deps := plainCommonDeps)
           plainCommonDeps_Lawful testCaseTrees fs' "/tpl/testdata/golden/basic"
           [ ("data", Dir [("a.txt", File "A")]);
             ("test.yaml", File "inputs: []") ]).
  - reflexivity.
  - repeat constructor.
  - exact H.
Defined.

Lemma renderTestCase_runs_on_cleared_dir_witness :
  let tc := {| TestName := "basic";
               TestConfig :=
                 {| t_Pos := mkPos 1 1;
                    Inputs := [ {| vv_Pos := mkPos 2 5;
                                   Name := mkString (mkPos 2 5) "name";
                                   Value := mkString (mkPos 3 5) "world" |} ] |} |} in
  render_Run (Deps := plainCommonDeps)
    (<["/tpl/testdata/golden/basic" :=
         Dir [("test.yaml", File "inputs: []")]]> testCaseTrees)
    ["--dest"; "/tpl/testdata/golden/basic"; "--force-overwrite";
     "--input"; "name=world"; "/tpl"]
  = Ok (<["/tpl/testdata/golden/basic" :=
            Dir [("test.yaml", File "inputs: []")]]> testCaseTrees).
Proof.
  intros tc.
  apply (renderTestCase_runs_on_cleared_dir (fp := unix) (deps := plainCommonDeps)
           plainCommonDeps_Lawful testCaseTrees _ "/tpl" "/tpl" tc
           [ ("data", Dir [("a.txt", File "A")]);
             ("test.yaml", File "inputs: []") ]).
  - reflexivity.
  - repeat constructor.
  - reflexivity.
Defined.

End goldentest_common_facts.

(** ** The minimal git repository of the tests *)

Module testutil_facts.
Import testutil.

#[local] Instance append_inj (p : string) : Inj (=) (=) (String.append p).
Proof.
  intros x y H. induction p as [|c p IH]; simpl in H; [done|].
  injection H as H. by apply IH.
Qed.

Lemma addGitFile_union (p : string) (out : gmap string string)
    (kv : string * string) :
  addGitFile p out kv = out ∪ {[ p +:+ kv.1 := kv.2 ]}.
Proof.
  unfold addGitFile. destruct (out !! (p +:+ kv.1)) as [v|] eqn:H.
  - apply map_eq. intros i. destruct (decide (i = p +:+ kv.1)) as [->|Hne].
    + rewrite lookup_union_l'; [done|]. by rewrite H.
    + rewrite lookup_union_l; [done|]. by rewrite lookup_singleton_ne.
  - by apply insert_union_singleton_r.
Qed.

(** The loop adds the listed files under the prefix, a file listed twice
    being taken from its first entry, and leaves the keys it finds. *)
Lemma fold_addGitFile (p : string) (l : list (string * string))
    (out : gmap string string) :
  fold_left (addGitFile p) l out
  = out ∪ kmap (String.append p) (list_to_map l : gmap string string).
Proof.
  revert out. induction l as [|[k v] l IH]; intros out; simpl.
  - by rewrite (kmap_empty (String.append p)), (right_id_L ∅ (∪)).
  - rewrite IH, addGitFile_union. simpl.
    rewrite (kmap_insert (String.append p)),
      (insert_union_singleton_l (kmap _ _)).
    by rewrite (assoc_L (∪)).
Qed.

Lemma WithGitRepoAt_union order prefix (m : gmap string string) :
  visits order →
  WithGitRepoAt order prefix m
  = m ∪ kmap (String.append (dirPrefix prefix)) minimalGitRepoFiles.
Proof.
  intros Hv. unfold WithGitRepoAt. rewrite fold_addGitFile. do 2 f_equal.
  rewrite <- (list_to_map_to_list minimalGitRepoFiles).
  apply list_to_map_proper; [|exact Hv].
  unfold visits in Hv. rewrite Hv. apply NoDup_fst_map_to_list.
Qed.

Lemma length_append_slash (p : string) :
  String.length (p +:+ "/") = S (String.length p) ∧
  String.substring (String.length p) 1 (p +:+ "/") = "/".
Proof. induction p as [|c p [IH1 IH2]]; simpl; [done|]. by rewrite IH1, IH2. Qed.

Lemma dirPrefix_idemp (prefix : string) :
  dirPrefix (dirPrefix prefix) = dirPrefix prefix.
Proof.
  unfold dirPrefix.
  destruct (negb (is_empty prefix) && negb (HasSuffix prefix "/")) eqn:H;
    [|by rewrite H].
  assert (HasSuffix (prefix +:+ "/") "/" = true) as ->; [|by rewrite andb_false_r].
  unfold HasSuffix. destruct (length_append_slash prefix) as [-> Hs].
  simpl. by rewrite Nat.sub_0_r, Hs.
Qed.

(** X19. Whatever the order in which the git files are visited,
    [WithGitRepoAt] keeps every entry of the input map as it is (a git
    file does not overwrite a key of the input), adds every git file,
    under the prefix, whose name is not a key of the input, and adds
    nothing else. *)
Theorem WithGitRepoAt_keeps_and_adds
    (order : list (string * string)) (prefix : string)
    (m : gmap string string) :
  visits order →
  let out := WithGitRepoAt order prefix m in
  (∀ key v, m !! key = Some v → out !! key = Some v) ∧
  (∀ k v, minimalGitRepoFiles !! k = Some v →
     m !! (dirPrefix prefix +:+ k) = None →
     out !! (dirPrefix prefix +:+ k) = Some v) ∧
  (∀ key v, out !! key = Some v →
     m !! key = Some v ∨
     ∃ k, key = dirPrefix prefix +:+ k ∧ minimalGitRepoFiles !! k = Some v).
Proof.
  intros Hv out. unfold out. rewrite (WithGitRepoAt_union _ _ _ Hv).
  split; [|split].
  - intros key v H. by apply lookup_union_Some_l.
  - intros k v Hk Hm. rewrite lookup_union_r by done.
    by rewrite (lookup_kmap (String.append (dirPrefix prefix))).
  - intros key v H. apply lookup_union_Some_raw in H as [H|[_ H]]; [by left|].
    right. apply (lookup_kmap_Some (String.append (dirPrefix prefix))) in H
      as (k & -> & H).
    by exists k.
Qed.

(** X20. The result of [WithGitRepoAt] does not depend on the order in
    which the git files are visited; adding the repository a second time
    at the same place changes nothing; and a prefix with and without a
    final slash name the same place. *)
Theorem WithGitRepoAt_order_and_prefix
    (order order' : list (string * string)) (prefix : string)
    (m : gmap string string) :
  visits order → visits order' →
  WithGitRepoAt order prefix m = WithGitRepoAt order' prefix m ∧
  WithGitRepoAt order' prefix (WithGitRepoAt order prefix m)
  = WithGitRepoAt order prefix m ∧
  WithGitRepoAt order (dirPrefix prefix) m = WithGitRepoAt order prefix m.
Proof.
  intros Hv Hv'. rewrite !(WithGitRepoAt_union order) by done.
  rewrite !(WithGitRepoAt_union order') by done.
  split; [done|]. split.
  - rewrite <- (assoc_L (∪)). f_equal. apply (idemp_L (∪)).
  - by rewrite dirPrefix_idemp.
Qed.

(** *** Loading the contents of a directory *)

Section Load.
Import common verify verify_facts.
Variable fileMode : trees → string → string → N.

Lemma loadPaths_app fs dir (l1 l2 : list string) out :
  loadPaths fileMode fs dir (l1 ++ l2) out =
  match loadPaths fileMode fs dir l1 out with
  | (out1, WalkOk) => loadPaths fileMode fs dir l2 out1
  | (out1, r) => (out1, r)
  end.
Proof.
  revert out. induction l1 as [|p l1 IH]; intros out; simpl; [done|].
  destruct (os_ReadFile fs dir [p]); [apply IH|done].
Qed.

Lemma loadPaths_no_skip fs dir (l : list string) out :
  (loadPaths fileMode fs dir l out).2 ≠ WalkSkipDir.
Proof.
  revert out. induction l as [|p l IH]; intros out; simpl; [done|].
  destruct (os_ReadFile fs dir [p]); [apply IH|done].
Qed.

(** A walk with the callback of [LoadDirContents] loads the files of the
    tree in the order of the walk and stops at the first that cannot be
    read. *)
Lemma walkDir_load fs dir (d : node) (name : string) out :
  walkDir (LoadDirContents_fn fileMode fs dir) name d out
  = loadPaths fileMode fs dir (file_paths name d) out.
Proof.
  revert name out.
  induction d as [contents| |entries IH] using node_ind'; intros name out.
  - rewrite walkDir_leaf by done. unfold LoadDirContents_fn. simpl.
    by destruct (os_ReadFile fs dir [name]).
  - rewrite walkDir_leaf by done. unfold LoadDirContents_fn. simpl.
    by destruct (os_ReadFile fs dir [name]).
  - rewrite walkDir_Dir, file_paths_Dir. unfold LoadDirContents_fn at 1. simpl.
    unfold entries_paths. revert out.
    induction IH as [|[name1 d1] rest IH1 _ IH2]; intros out; simpl; [done|].
    simpl in IH1. rewrite IH1, loadPaths_app.
    pose proof (loadPaths_no_skip fs dir (file_paths (child_path name name1) d1) out)
      as Hskip.
    destruct (loadPaths fileMode fs dir (file_paths (child_path name name1) d1) out)
      as [out1 [| |e]]; simpl in *; [apply IH2|done|done].
Qed.

Lemma loadPaths_Ok fs dir (l : list string) out out' :
  loadPaths fileMode fs dir l out = (out', WalkOk) →
  (∀ p, is_Some (out' !! p) ↔ is_Some (out !! p) ∨ p ∈ l) ∧
  (∀ p mc, out' !! p = Some mc →
     out !! p = Some mc ∨
     (os_ReadFile fs dir [p] = Ok (Contents mc) ∧ Mode mc = fileMode fs dir p)) ∧
  (∀ p, p ∈ l → is_Ok (os_ReadFile fs dir [p]) = true).
Proof.
  revert out. induction l as [|q l IH]; intros out; simpl.
  - intros [= <-]. split; [|split].
    + intros p. rewrite elem_of_nil. tauto.
    + intros p mc H. by left.
    + intros p Hp. by apply elem_of_nil in Hp.
  - destruct (os_ReadFile fs dir [q]) as [c|e] eqn:Hq; [|done].
    intros H. apply IH in H as (H1 & H2 & H3). split; [|split].
    + intros p. rewrite H1, elem_of_cons.
      destruct (decide (p = q)) as [->|Hne].
      * rewrite lookup_insert_eq. split; [by right; left|by left; eexists].
      * rewrite lookup_insert_ne by done. naive_solver.
    + intros p mc Hp. apply H2 in Hp as [Hp|Hp]; [|by right].
      destruct (decide (p = q)) as [->|Hne].
      * rewrite lookup_insert_eq in Hp. injection Hp as <-. right. by rewrite Hq.
      * rewrite lookup_insert_ne in Hp by done. by left.
    + intros p Hp. apply elem_of_cons in Hp as [->|Hp]; [by rewrite Hq|by apply H3].
Qed.

Lemma loadPaths_readable fs dir (l : list string) out :
  (∀ p, p ∈ l → is_Ok (os_ReadFile fs dir [p]) = true) →
  ∃ out', loadPaths fileMode fs dir l out = (out', WalkOk).
Proof.
  revert out. induction l as [|q l IH]; intros out H; simpl; [by eexists|].
  assert (is_Ok (os_ReadFile fs dir [q]) = true) as Hq by (apply H; by left).
  destruct (os_ReadFile fs dir [q]) as [c|e]; [|done].
  apply IH. intros p Hp. apply H. by right.
Qed.

Lemma LoadDirContents_unfold fs dir n :
  fs !! dir = Some n →
  LoadDirContents fileMode fs dir =
  match loadPaths fileMode fs dir (file_paths "." n) ∅ with
  | (out, WalkErr err) => Err (ErrWrap "WalkDir()" err)
  | (out, _) => Ok (Some out)
  end.
Proof.
  intros Hn. unfold LoadDirContents, WalkDir. rewrite Hn, walkDir_load.
  by destruct (loadPaths fileMode fs dir (file_paths "." n) ∅) as [out [| |e]].
Qed.

(** X21. When [LoadDirContents] returns the contents of an existing
    directory, the keys of the map are exactly the paths of the files of
    its tree, relative to the directory and including those under [.abc];
    each key is mapped to what reading the file gives and to the file's
    mode; [LoadDirWithoutMode] returns the same map with the contents
    alone; and the files the [verify] command compares on that side are
    the keys that are not under [.abc]. *)
Theorem LoadDirContents_files
    (fs : trees) (dir : string) (n : node)
    (out : gmap string ModeAndContents) :
  fs !! dir = Some n →
  LoadDirContents fileMode fs dir = Ok (Some out) →
  (∀ p, is_Some (out !! p) ↔ p ∈ file_paths "." n) ∧
  (∀ p mc, out !! p = Some mc →
     os_ReadFile fs dir [p] = Ok (Contents mc) ∧ Mode mc = fileMode fs dir p) ∧
  LoadDirWithoutMode fileMode fs dir = Ok (Some (Contents <$> out)) ∧
  (∀ p, p ∈ found fs dir ↔ is_Some (out !! p) ∧ IsReservedInDest p = false).
Proof.
  intros Hn H. unfold LoadDirWithoutMode. rewrite H.
  rewrite (LoadDirContents_unfold _ _ _ Hn) in H.
  destruct (loadPaths fileMode fs dir (file_paths "." n) ∅) as [out' r] eqn:Hl.
  pose proof (loadPaths_no_skip fs dir (file_paths "." n) ∅) as Hskip.
  rewrite Hl in Hskip. destruct r as [| |e]; [|done|done].
  injection H as ->. apply loadPaths_Ok in Hl as (H1 & H2 & _).
  assert (∀ p, is_Some (out !! p) ↔ p ∈ file_paths "." n) as Hkeys.
  { intros p. rewrite H1, lookup_empty. split; [|by right].
    intros [[? [=]]|Hp]. done. }
  split; [done|]. split; [|split; [done|]].
  - intros p mc Hp. apply H2 in Hp as [Hp|Hp]; [|done].
    by rewrite lookup_empty in Hp.
  - intros p. unfold found, visible. rewrite Hn, elem_of_list_to_set,
      list_elem_of_filter, Hkeys. tauto.
Qed.

(** X22. [LoadDirContents] returns the nil map exactly when the directory
    does not exist; for an existing directory it returns a map exactly
    when every file of the tree can be read, and ends the test otherwise.
    [LoadDirWithoutMode] returns nil, a map, or ends the test in the same
    cases. *)
Theorem LoadDirContents_nil_or_fatal (fs : trees) (dir : string) :
  (LoadDirContents fileMode fs dir = Ok None ↔ fs !! dir = None) ∧
  (LoadDirWithoutMode fileMode fs dir = Ok None ↔ fs !! dir = None) ∧
  (∀ n, fs !! dir = Some n →
     (is_Ok (LoadDirContents fileMode fs dir) = true ↔
      ∀ p, p ∈ file_paths "." n → is_Ok (os_ReadFile fs dir [p]) = true) ∧
     is_Ok (LoadDirWithoutMode fileMode fs dir)
     = is_Ok (LoadDirContents fileMode fs dir)).
Proof.
  assert (LoadDirContents fileMode fs dir = Ok None ↔ fs !! dir = None) as Hnil.
  { destruct (fs !! dir) as [n|] eqn:Hn.
    - rewrite (LoadDirContents_unfold _ _ _ Hn).
      by destruct (loadPaths _ _ _ _ _) as [out [| |e]].
    - unfold LoadDirContents. by rewrite Hn. }
  split; [done|]. split.
  - rewrite <- Hnil. unfold LoadDirWithoutMode.
    by destruct (LoadDirContents fileMode fs dir) as [[out|]|e].
  - intros n Hn. split.
    + rewrite (LoadDirContents_unfold _ _ _ Hn). split.
      * destruct (loadPaths fileMode fs dir (file_paths "." n) ∅) as [out r] eqn:Hl.
        pose proof (loadPaths_no_skip fs dir (file_paths "." n) ∅) as Hskip.
        rewrite Hl in Hskip. destruct r as [| |e]; [|done|done].
        intros _. by apply loadPaths_Ok in Hl as (_ & _ & H3).
      * intros H. by destruct (loadPaths_readable fs dir _ ∅ H) as [out ->].
    + unfold LoadDirWithoutMode.
      by destruct (LoadDirContents fileMode fs dir) as [[out|]|e].
Qed.

End Load.

(** *** Writing files and loading them again *)

Section Write.
Import common verify verify_facts.

Lemma find_entry_cons (name : string) (entry : string * node) entries :
  find_entry name (entry :: entries) =
  if String.eqb entry.1 name then Some entry.2 else find_entry name entries.
Proof. unfold find_entry. simpl. by destruct (String.eqb entry.1 name). Qed.

Lemma find_entry_replace_same name child child' entries :
  find_entry name entries = Some child →
  find_entry name (replace_entry name child' entries) = Some child'.
Proof.
  induction entries as [|entry rest IH]; [done|].
  rewrite find_entry_cons. cbn [replace_entry].
  destruct (String.eqb entry.1 name) eqn:E.
  - intros _. rewrite find_entry_cons. cbn [fst snd]. by rewrite E.
  - intros H. rewrite find_entry_cons, E. by apply IH.
Qed.

Lemma find_entry_replace_other name name' child' entries :
  name' ≠ name →
  find_entry name' (replace_entry name child' entries) = find_entry name' entries.
Proof.
  intros Hne. induction entries as [|entry rest IH]; [done|].
  cbn [replace_entry].
  destruct (String.eqb_spec entry.1 name) as [E|E].
  - rewrite !find_entry_cons. cbn [fst snd].
    destruct (String.eqb_spec entry.1 name'); [congruence|done].
  - rewrite !find_entry_cons. by rewrite IH.
Qed.

Lemma find_entry_app name entries entries' child :
  find_entry name entries = Some child →
  find_entry name (entries ++ entries') = Some child.
Proof.
  induction entries as [|entry rest IH]; [done|].
  rewrite <- app_comm_cons, !find_entry_cons.
  destruct (String.eqb entry.1 name); [done|apply IH].
Qed.

Lemma find_entry_snoc name entries child :
  find_entry name entries = None →
  find_entry name (entries ++ [(name, child)]) = Some child.
Proof.
  induction entries as [|entry rest IH].
  - intros _. simpl. rewrite find_entry_cons. simpl. by rewrite String.eqb_refl.
  - rewrite <- app_comm_cons, !find_entry_cons.
    destruct (String.eqb entry.1 name); [done|apply IH].
Qed.

Lemma replace_entry_same name child entries :
  find_entry name entries = Some child →
  replace_entry name child entries = entries.
Proof.
  induction entries as [|[name1 d1] rest IH]; [done|].
  rewrite find_entry_cons. cbn [replace_entry fst snd].
  destruct (String.eqb_spec name1 name) as [->|E]; [by intros [= ->]|].
  intros H. by rewrite IH.
Qed.

Lemma elem_of_replace_entry name child entries entry :
  entry ∈ replace_entry name child entries →
  entry ∈ entries ∨ entry = (name, child).
Proof.
  induction entries as [|[name1 d1] rest IH]; simpl; [by left|].
  destruct (String.eqb_spec name1 name) as [->|E].
  - intros [->|H]%elem_of_cons; [by right|]. left. by right.
  - intros [->|H]%elem_of_cons; [left; by left|].
    destruct (IH H) as [H'|H']; [left; by right|by right].
Qed.

Lemma file_paths_fresh_dirs name elems :
  file_paths name (fresh_dirs elems (Dir [])) = [].
Proof.
  revert name. induction elems as [|e rest IH]; intros name; [done|].
  simpl fresh_dirs. rewrite file_paths_Dir. unfold entries_paths. simpl.
  by rewrite IH.
Qed.

(** Creating directories changes no file. *)
Lemma mkdir_node_read elems n n' elems' contents :
  mkdir_node elems n = Ok n' →
  read_node n elems' = Ok contents → read_node n' elems' = Ok contents.
Proof.
  revert n n' elems'. induction elems as [|e rest IH]; intros n n' elems'.
  - destruct n; simpl; try done. by intros [= <-].
  - destruct n as [| |entries]; simpl; try done.
    destruct (find_entry e entries) as [child|] eqn:He.
    + intros H. apply bind_Ok in H as (child' & Hc & [= <-]).
      destruct elems' as [|e' rest']; [done|]. simpl.
      destruct (decide (e' = e)) as [->|Hne].
      * rewrite He, (find_entry_replace_same _ _ _ _ He). by apply IH.
      * by rewrite find_entry_replace_other.
    + intros [= <-]. destruct elems' as [|e' rest']; [done|]. simpl.
      destruct (find_entry e' entries) as [ch|] eqn:He'; [|done].
      by rewrite (find_entry_app _ _ _ _ He').
Qed.

Lemma mkdir_node_paths elems n n' name p :
  mkdir_node elems n = Ok n' →
  p ∈ file_paths name n' → p ∈ file_paths name n.
Proof.
  revert n n' name. induction elems as [|e rest IH]; intros n n' name.
  - destruct n; simpl; try done. by intros [= <-].
  - destruct n as [| |entries]; try done. cbn [mkdir_node].
    destruct (find_entry e entries) as [child|] eqn:He.
    + intros H. apply bind_Ok in H as (child' & Hc & [= <-]).
      rewrite !file_paths_Dir, !elem_of_entries_paths.
      intros (entry & Hentry & Hp).
      apply elem_of_replace_entry in Hentry as [Hentry| ->].
      * by exists entry.
      * exists (e, child). split; [by apply find_entry_Some|].
        simpl in *. by apply (IH _ _ _ Hc).
    + intros [= <-]. rewrite !file_paths_Dir, !elem_of_entries_paths.
      intros (entry & Hentry & Hp).
      apply elem_of_app in Hentry as [Hentry|Hentry]; [by exists entry|].
      apply list_elem_of_singleton in Hentry as ->. simpl in Hp.
      rewrite file_paths_fresh_dirs in Hp. by apply elem_of_nil in Hp.
Qed.

(** The file written can be read back. *)
Lemma writeFile_node_read elems contents n n' :
  writeFile_node elems contents n = Ok n' →
  read_node n' elems = Ok contents.
Proof.
  revert n n'. induction elems as [|e rest IH]; intros n n'.
  - destruct n; simpl; try done. by intros [= <-].
  - destruct n as [| |entries]; simpl; try done.
    destruct (find_entry e entries) as [child|] eqn:He.
    + intros H. apply bind_Ok in H as (child' & Hc & [= <-]). simpl.
      rewrite (find_entry_replace_same _ _ _ _ He). by apply IH with child.
    + destruct rest; [|done]. intros [= <-]. simpl.
      by rewrite (find_entry_snoc _ _ _ He).
Qed.

(** The other files are as they were. *)
Lemma writeFile_node_read_other elems contents n n' elems' contents' :
  writeFile_node elems contents n = Ok n' → elems' ≠ elems →
  read_node n elems' = Ok contents' → read_node n' elems' = Ok contents'.
Proof.
  revert n n' elems'. induction elems as [|e rest IH]; intros n n' elems'.
  - destruct n; simpl; try done. intros [= <-] Hne. by destruct elems'.
  - destruct n as [| |entries]; simpl; try done.
    destruct (find_entry e entries) as [child|] eqn:He.
    + intros H Hne. apply bind_Ok in H as (child' & Hc & [= <-]).
      destruct elems' as [|e' rest']; [done|]. simpl.
      destruct (decide (e' = e)) as [->|Hne'].
      * rewrite He, (find_entry_replace_same _ _ _ _ He).
        apply (IH _ _ _ Hc). congruence.
      * by rewrite find_entry_replace_other.
    + destruct rest; [|done]. intros [= <-] Hne.
      destruct elems' as [|e' rest']; [done|]. simpl.
      destruct (find_entry e' entries) as [ch|] eqn:He'; [|done].
      by rewrite (find_entry_app _ _ _ _ He').
Qed.

(** Writing a file adds its path to the files and no other. *)
Lemma writeFile_node_paths elems contents n n' elems0 p :
  writeFile_node elems contents n = Ok n' →
  p ∈ file_paths (path_of elems0) n' →
  p ∈ file_paths (path_of elems0) n ∨ p = path_of (elems0 ++ elems).
Proof.
  revert n n' elems0. induction elems as [|e rest IH]; intros n n' elems0.
  - destruct n; simpl; try done. intros [= <-]. simpl.
    rewrite app_nil_r. by left.
  - destruct n as [| |entries]; try done. cbn [writeFile_node].
    destruct (find_entry e entries) as [child|] eqn:He.
    + intros H. apply bind_Ok in H as (child' & Hc & [= <-]).
      rewrite !file_paths_Dir, !elem_of_entries_paths.
      intros (entry & Hentry & Hp).
      apply elem_of_replace_entry in Hentry as [Hentry| ->].
      * left. by exists entry.
      * simpl in Hp. rewrite <- path_of_snoc in Hp.
        apply (IH _ _ _ Hc) in Hp as [Hp| ->].
        -- left. exists (e, child). split; [by apply find_entry_Some|].
           simpl. by rewrite <- path_of_snoc.
        -- right. by rewrite <- app_assoc.
    + destruct rest; [|done]. intros [= <-].
      rewrite !file_paths_Dir, !elem_of_entries_paths.
      intros (entry & Hentry & Hp).
      apply elem_of_app in Hentry as [Hentry|Hentry]; [left; by exists entry|].
      apply list_elem_of_singleton in Hentry as ->. simpl in Hp.
      apply list_elem_of_singleton in Hp as ->. right.
      by rewrite <- path_of_snoc.
Qed.

(** A mode that lets the owner read leaves the tree as it is. *)
Lemma chmod_node_readable elems n n' :
  chmod_node elems true n = Ok n' → n' = n.
Proof.
  revert n n'. induction elems as [|e rest IH]; intros n n'.
  - destruct n; simpl; by intros [= <-].
  - destruct n as [| |entries]; simpl; try done.
    destruct (find_entry e entries) as [child|] eqn:He; [|done].
    intros H. apply bind_Ok in H as (child' & Hc & [= <-]).
    apply IH in Hc as ->. by rewrite (replace_entry_same _ _ _ He).
Qed.

(** *** The files of a directory after [WriteAll] *)

Lemma relativeKey_elems (key : string) :
  relativeKey key →
  ∃ elems, elems ≠ [] ∧ key = path_of elems ∧ path_elems [key] = elems.
Proof.
  intros (elems & Hne & Hvalid & ->). exists elems.
  split; [done|]. split; [done|]. by apply path_elems_path_of.
Qed.

Lemma relativeKey_inj (key key' : string) :
  relativeKey key → relativeKey key' →
  path_elems [key] = path_elems [key'] → key = key'.
Proof.
  intros (elems & _ & -> & H)%relativeKey_elems
         (elems' & _ & -> & H')%relativeKey_elems.
  rewrite H, H'. by intros ->.
Qed.

Lemma holds_empty : holds (Dir []) ∅.
Proof.
  split.
  - intros p Hp. by apply elem_of_nil in Hp.
  - intros p contents Hp. by rewrite lookup_empty in Hp.
Qed.

(** One iteration of [WriteAll] with a mode that lets the owner read. *)
Lemma writeOne_holds root (fs fs' : trees) key mode contents
    (m : gmap string string) :
  relativeKey key → N.testbit mode 8 = true →
  (∀ p, is_Some (m !! p) → relativeKey p) →
  holds (default (Dir []) (fs !! root)) m →
  writeOne root fs (key, {| Mode := mode; Contents := contents |}) = Ok fs' →
  ∃ n', fs' = <[root := n']> fs ∧ holds n' (<[key := contents]> m).
Proof.
  intros Hkey Hmode Hkeys [Hpaths Hreads]. unfold writeOne. simpl.
  destruct (relativeKey_elems _ Hkey) as (elems & Hne & Hpath & Hel).
  rewrite Hel. unfold dirElems. destruct elems as [|e rest] eqn:Helems; [done|].
  rewrite <- Helems in *. clear Helems e rest. unfold os_MkdirAll.
  destruct (mkdir_node (removelast elems) (default (Dir []) (fs !! root)))
    as [n1|] eqn:Hmk; [|done]. simpl.
  unfold os_WriteFile. rewrite lookup_insert_eq.
  destruct (writeFile_node elems contents n1) as [n2|] eqn:Hwr; [|done]. simpl.
  unfold os_Chmod. rewrite lookup_insert_eq, Hmode.
  destruct (chmod_node elems true n2) as [n3|] eqn:Hch; [|done]. simpl.
  apply chmod_node_readable in Hch as ->. intros [= <-].
  exists n2. rewrite !insert_insert_eq. split; [done|]. split.
  - intros p Hp.
    apply (writeFile_node_paths _ _ _ _ [] _ Hwr) in Hp as [Hp| ->].
    + apply (mkdir_node_paths _ _ _ _ _ Hmk) in Hp.
      apply lookup_insert_is_Some'. right. by apply Hpaths.
    + simpl. rewrite <- Hpath, lookup_insert_eq. by eexists.
  - intros p contents' Hp.
    apply lookup_insert_Some in Hp as [[<- <-]|[Hne' Hp]].
    + rewrite Hel. by apply (writeFile_node_read _ _ _ _ Hwr).
    + apply (writeFile_node_read_other _ _ _ _ _ _ Hwr).
      * intros Heq. apply Hne'. symmetry. apply relativeKey_inj; [|done|].
        -- apply Hkeys. by eexists.
        -- by rewrite Hel.
      * apply (mkdir_node_read _ _ _ _ _ Hmk). by apply Hreads.
Qed.

Lemma writeFiles_holds root files (fs fs' : trees) (m : gmap string string) :
  (∀ file, file ∈ files →
     relativeKey file.1 ∧ N.testbit (Mode file.2) 8 = true) →
  (∀ p, is_Some (m !! p) → relativeKey p) →
  holds (default (Dir []) (fs !! root)) m →
  writeFiles root files fs = Ok fs' →
  holds (default (Dir []) (fs' !! root)) (written files m) ∧
  (∀ other, other ≠ root → fs' !! other = fs !! other) ∧
  (is_Some (fs !! root) ∨ files ≠ [] → is_Some (fs' !! root)).
Proof.
  revert fs m. induction files as [|[key [mode contents]] rest IH];
    intros fs m Hfiles Hkeys Hholds; simpl.
  - intros [= <-]. split; [done|]. split; [done|]. by intros [H|H].
  - intros H. apply bind_Ok in H as (fs1 & H1 & H).
    destruct (Hfiles (key, {| Mode := mode; Contents := contents |}))
      as [Hkey Hmode]; [by left|]. simpl in *.
    apply (writeOne_holds _ _ _ _ _ _ _ Hkey Hmode Hkeys Hholds) in H1
      as (n1 & -> & Hholds1).
    apply (IH _ (<[key := contents]> m)) in H as (H2 & H3 & H4).
    + split; [done|]. split.
      * intros other Hne. rewrite H3 by done. by rewrite lookup_insert_ne.
      * intros _. apply H4. left. rewrite lookup_insert_eq. by eexists.
    + intros file Hfile. apply Hfiles. by right.
    + intros p [Hp|Hp]%lookup_insert_is_Some'; [by subst|by apply Hkeys].
    + by rewrite lookup_insert_eq.
Qed.

Lemma written_NoDup (files : list (string * ModeAndContents))
    (m : gmap string string) :
  NoDup files.*1 →
  written files m = (Contents <$> (list_to_map files : gmap string ModeAndContents)) ∪ m.
Proof.
  unfold written. revert m.
  induction files as [|[key mc] rest IH]; intros m Hnd; simpl.
  - by rewrite fmap_empty, (left_id_L ∅ (∪)).
  - apply NoDup_cons in Hnd as [Hkey Hnd]. rewrite IH by done.
    rewrite fmap_insert, <- insert_union_l. symmetry. apply insert_union_r.
    rewrite lookup_fmap. by rewrite (not_elem_of_list_to_map_1 _ _ Hkey).
Qed.

End Write.

Section RoundTrip.
Import common verify verify_facts.
Variable range : gmap string ModeAndContents → list (string * ModeAndContents).
Variable fileMode : trees → string → string → N.

Lemma LoadDirContents_readable fs dir n :
  fs !! dir = Some n →
  (∀ p, p ∈ file_paths "." n → is_Ok (os_ReadFile fs dir [p]) = true) →
  ∃ out,
    LoadDirContents fileMode fs dir = Ok (Some out) ∧
    (∀ p, is_Some (out !! p) ↔ p ∈ file_paths "." n) ∧
    (∀ p mc, out !! p = Some mc → os_ReadFile fs dir [p] = Ok (Contents mc)).
Proof.
  intros Hn Hread. rewrite (LoadDirContents_unfold _ _ _ _ Hn).
  destruct (loadPaths_readable fileMode fs dir _ ∅ Hread) as [out Hl].
  rewrite Hl. exists out. split; [done|].
  apply loadPaths_Ok in Hl as (H1 & H2 & _). split.
  - intros p. rewrite H1, lookup_empty. split; [|by right].
    intros [[? [=]]|Hp]. done.
  - intros p mc Hp. apply H2 in Hp as [Hp|[Hp _]]; [|done].
    by rewrite lookup_empty in Hp.
Qed.

(** X23. What [WriteAllDefaultMode] writes below a directory that does not
    exist yet, [LoadDirWithoutMode] loads again: when the writing
    succeeds, the map loaded from the directory is the map written,
    whatever the order in which the files were written; the one exception
    is the empty map, for which nothing is created and the nil map is
    loaded.  The other directories are left as they are.  The keys are
    paths through names that directory entries can have. *)
Theorem WriteAll_LoadDir_round_trip
    (Hrange : ∀ m, range m ≡ₚ map_to_list m)
    (fs fs' : trees) (root : string) (files : gmap string string) :
  fs !! root = None →
  (∀ key, is_Some (files !! key) → relativeKey key) →
  WriteAllDefaultMode range root files fs = Ok fs' →
  LoadDirWithoutMode fileMode fs' root
    = Ok (if decide (files = ∅) then None else Some files) ∧
  (∀ other, other ≠ root → fs' !! other = fs !! other).
Proof.
  intros Hroot Hkeys. unfold WriteAllDefaultMode, WriteAll.
  set (withMode := (λ contents, {| Mode := 384; Contents := contents |}) <$> files).
  intros H.
  destruct (decide (files = ∅)) as [Hempty|Hne].
  { assert (range withMode = []) as Hnil.
    { apply Permutation_nil_r. rewrite (Hrange withMode). unfold withMode.
      by rewrite Hempty, fmap_empty, map_to_list_empty. }
    rewrite Hnil in H. injection H as <-. split; [|done].
    unfold LoadDirWithoutMode, LoadDirContents. by rewrite Hroot. }
  assert (∀ file, file ∈ range withMode →
            relativeKey file.1 ∧ N.testbit (Mode file.2) 8 = true) as Hfiles.
  { intros [key mc] Hfile. rewrite (Hrange withMode) in Hfile.
    apply elem_of_map_to_list in Hfile. unfold withMode in Hfile.
    apply lookup_fmap_Some in Hfile as (contents & <- & Hfile). simpl.
    split; [|done]. apply Hkeys. by eexists. }
  apply (writeFiles_holds _ _ _ _ ∅ Hfiles) in H as (Hholds & Hframe & Hsome).
  2:{ intros p [? Hp]. by rewrite lookup_empty in Hp. }
  2:{ rewrite Hroot. apply holds_empty. }
  split; [|done].
  assert (written (range withMode) ∅ = files) as Hwritten.
  { rewrite written_NoDup.
    - rewrite (right_id_L ∅ (∪)).
      rewrite (list_to_map_proper _ (map_to_list withMode)).
      + rewrite list_to_map_to_list. unfold withMode.
        rewrite <- map_fmap_compose. apply map_fmap_id.
      + rewrite (Hrange withMode). apply NoDup_fst_map_to_list.
      + apply Hrange.
    - rewrite (Hrange withMode). apply NoDup_fst_map_to_list. }
  rewrite Hwritten in Hholds. destruct Hholds as [Hpaths Hreads].
  destruct Hsome as [n' Hn'].
  { right. intros Hnil. apply Hne.
    pose proof (Hrange withMode) as Hp. rewrite Hnil in Hp.
    symmetry in Hp. apply Permutation_nil_r in Hp.
    apply map_to_list_empty_iff in Hp.
    unfold withMode in Hp. by apply fmap_empty_iff in Hp. }
  rewrite Hn' in Hpaths, Hreads. simpl in Hpaths, Hreads.
  assert (∀ p contents, files !! p = Some contents →
            os_ReadFile fs' root [p] = Ok contents) as Hos.
  { intros p contents Hp. unfold os_ReadFile. rewrite Hn'. by apply Hreads. }
  destruct (LoadDirContents_readable fs' root n' Hn') as (out & Hout & Hk & Hv).
  { intros p Hp. destruct (Hpaths p Hp) as [contents Hc].
    by rewrite (Hos _ _ Hc). }
  unfold LoadDirWithoutMode. rewrite Hout. do 2 f_equal.
  apply map_eq. intros p. rewrite lookup_fmap.
  destruct (files !! p) as [contents|] eqn:Hp.
  - assert (p ∈ file_paths "." n') as Hin.
    { destruct (relativeKey_elems p) as (elems & _ & Hpath & Hel).
      { apply Hkeys. by eexists. }
      pose proof (Hreads _ _ Hp) as Hr. rewrite Hel in Hr.
      apply (read_node_in_walk _ _ []) in Hr. simpl in Hr. by rewrite Hpath. }
    apply Hk in Hin as [mc Hmc]. rewrite Hmc. simpl.
    apply Hv in Hmc. rewrite (Hos _ _ Hp) in Hmc. by injection Hmc as ->.
  - destruct (out !! p) as [mc|] eqn:Hmc; [|done].
    assert (is_Some (files !! p)) as [? ?]; [|congruence].
    apply Hpaths, Hk. by eexists.
Qed.

End RoundTrip.

(** *** Examples *)

(** The initialisation of the package does not panic. *)
Example minimalGitRepoFiles_init_Ok :
  is_Ok minimalGitRepoFiles_init = true ∧
  size minimalGitRepoFiles = 4%nat ∧
  minimalGitRepoFiles !! ".git/HEAD" = Some "ref: refs/heads/main".
Proof. repeat split; vm_compute; reflexivity. Qed.

Lemma visits_map_to_list : visits (map_to_list minimalGitRepoFiles).
Proof. unfold visits. reflexivity. Qed.

Lemma WithGitRepoAt_keeps_and_adds_witness :
  let m : gmap string string :=
    {[ "a.txt" := "A"; "sub/.git/HEAD" := "ref: refs/heads/other" ]} in
  let out := WithGitRepoAt (map_to_list minimalGitRepoFiles) "sub" m in
  out !! "sub/.git/HEAD" = Some "ref: refs/heads/other" ∧
  out !! "sub/.git/refs/heads/main"
  = Some "5597fc600ead69ad92c81a22b58c9e551cd86b9a".
Proof.
  intros m out.
  destruct (WithGitRepoAt_keeps_and_adds (map_to_list minimalGitRepoFiles)
              "sub" m visits_map_to_list) as (Hkeep & Hadd & _).
  split.
  - apply Hkeep. reflexivity.
  - apply (Hadd ".git/refs/heads/main"); vm_compute; reflexivity.
Defined.

Lemma WithGitRepoAt_order_and_prefix_witness :
  WithGitRepoAt (reverse (map_to_list minimalGitRepoFiles)) "sub/"
    ({[ "a.txt" := "A" ]} : gmap string string)
  = WithGitRepoAt (map_to_list minimalGitRepoFiles) "sub" {[ "a.txt" := "A" ]}.
Proof.
  assert (visits (reverse (map_to_list minimalGitRepoFiles))) as Hr.
  { unfold visits. apply reverse_Permutation. }
  destruct (WithGitRepoAt_order_and_prefix
              (reverse (map_to_list minimalGitRepoFiles))
              (map_to_list minimalGitRepoFiles) "sub"
              ({[ "a.txt" := "A" ]} : gmap string string)
              Hr visits_map_to_list) as (H1 & _ & H3).
  rewrite <- H1. symmetry. exact H3.
Defined.

Lemma LoadDirContents_files_witness :
  LoadDirWithoutMode (λ _ _ _, 384%N) examples.goldenTrees
    "/tpl/testdata/golden/basic/data"
  = Ok (Some {[ ".abc/stdout" := "hello"; "a.txt" := "A"; "b.txt" := "B" ]}).
Proof.
  destruct (LoadDirContents (λ _ _ _, 384%N) examples.goldenTrees
              "/tpl/testdata/golden/basic/data") as [[out|]|e] eqn:H;
    [|by vm_compute in H|by vm_compute in H].
  destruct (LoadDirContents_files _ examples.goldenTrees
              "/tpl/testdata/golden/basic/data" _ out eq_refl H)
    as (_ & _ & -> & _).
  vm_compute in H. injection H as <-. vm_compute. reflexivity.
Defined.

(** A file that cannot be read ends the test. *)
Example LoadDirContents_unreadable :
  LoadDirWithoutMode (λ _ _ _, 384%N) examples.lockedTrees
    "/tmp/r/testdata/golden/locked/data"
  = Err (ErrWrap "WalkDir()" (ErrWrap "ReadFile()" ErrPermission)).
Proof. vm_compute. reflexivity. Qed.

Lemma WriteAll_LoadDir_round_trip_witness :
  let files : gmap string string := {[ "a.txt" := "A"; "dir/b.txt" := "B" ]} in
  ∃ fs',
    WriteAllDefaultMode map_to_list "/tmp/t" files ∅ = Ok fs' ∧
    LoadDirWithoutMode (λ _ _ _, 384%N) fs' "/tmp/t" = Ok (Some files).
Proof.
  intros files.
  destruct (WriteAllDefaultMode map_to_list "/tmp/t" files ∅) as [fs'|e] eqn:Hw;
    [|by vm_compute in Hw].
  exists fs'. split; [done|].
  assert (∀ key, is_Some (files !! key) → relativeKey key) as Hkeys.
  { intros key [contents Hkey]. apply elem_of_map_to_list in Hkey.
    vm_compute in Hkey.
    apply elem_of_cons in Hkey as [[= -> _]|Hkey].
    { exists ["a.txt"]. split; [done|]. split; [|vm_compute; reflexivity].
      constructor; [vm_compute; reflexivity|]. constructor. }
    apply elem_of_cons in Hkey as [[= -> _]|Hkey].
    { exists ["dir"; "b.txt"]. split; [done|]. split; [|vm_compute; reflexivity].
      constructor; [vm_compute; reflexivity|].
      constructor; [vm_compute; reflexivity|]. constructor. }
    apply elem_of_nil in Hkey. destruct Hkey. }
  destruct (WriteAll_LoadDir_round_trip map_to_list (λ _ _ _, 384%N)
              (λ m, reflexivity _) ∅ fs' "/tmp/t" files
              (lookup_empty _) Hkeys Hw)
    as [-> _].
  destruct (decide (files = ∅)) as [He|]; [|done].
  apply (f_equal (λ m : gmap string string, m !! "a.txt")) in He.
  vm_compute in He. done.
Defined.

(** Two keys of which one lies below the other cannot both be written. *)
Example WriteAll_file_below_file :
  is_Ok (WriteAllDefaultMode map_to_list "/tmp/t"
           {[ "a" := "A"; "a/b" := "B" ]} ∅) = false.
Proof. vm_compute. reflexivity. Qed.

End testutil_facts.
